(** * vocdoni-node: key keeper, scrutinizer and signature helpers

    A shallow embedding of the Go sources

    - [crypto/signature/signature.go]  (package [signature])
    - [vochain/app.go], second document  (package [keykeeper])
    - [vochain/scrutinizer/vote.go]    (package [scrutinizer])
    - [net/pss.go], last document       (package [util])

    Go values are modelled as follows: [[]byte] is [list byte], a Go
    [string] is a Rocq [string], [int8]/[int64]/[int] are [Z] with the
    conversions written out, a [map[string]T] is a [gmap string T], and
    a function returning [(T, error)] returns [res T].  Calls into
    third-party packages (keccak, Poseidon, secp256k1, nacl, amino,
    encoding/json, the mempool) are variables of the enclosing section. *)

From Stdlib Require Import ZArith List Ascii String Lia Bool.
From Stdlib.Strings Require Import Byte.
From stdpp Require Import base option list gmap strings pretty.

Local Open Scope Z_scope.

(** ** Go runtime vocabulary *)

Module Go.

(** Outcome of a Go call: a value, a returned [error] (its message), or
    a run-time panic (index out of range). *)
Inductive res (A : Type) : Type :=
| Ok (a : A)
| Err (msg : string)
| Panic (msg : string).
Arguments Ok {A} a.
Arguments Err {A} msg.
Arguments Panic {A} msg.

Definition bind {A B} (r : res A) (k : A -> res B) : res B :=
  match r with
  | Ok a => k a
  | Err m => Err m
  | Panic m => Panic m
  end.

(** Outcome of a call into a collaborator outside these sources: a
    value or a returned [error]. *)
Inductive outcome (A : Type) : Type :=
| Ret (a : A)
| Fail (msg : string).
Arguments Ret {A} a.
Arguments Fail {A} msg.

Definition lift {A} (o : outcome A) : res A :=
  match o with
  | Ret a => Ok a
  | Fail m => Err m
  end.

Definition is_Ok {A} (r : res A) : Prop := exists a, r = Ok a.
Definition is_Err {A} (r : res A) : Prop := exists m, r = Err m.

(** [byte(n)] for an integer [n]: the low eight bits. *)
Definition byte_of_Z (n : Z) : byte :=
  match Byte.of_N (Z.to_N (n mod 256)) with
  | Some b => b
  | None => x00
  end.

Definition Z_of_byte (b : byte) : Z := Z.of_N (Byte.to_N b).

(** [int8(b)] for a byte [b]: two's complement reinterpretation. *)
Definition int8_of_byte (b : byte) : Z :=
  let v := Z_of_byte b in if 128 <=? v then v - 256 else v.

Definition is_int8 (n : Z) : Prop := -128 <= n <= 127.

Definition min_int64 : Z := - 2 ^ 63.
Definition max_int64 : Z := 2 ^ 63 - 1.

(** Signed 64-bit wrap-around. *)
Definition wrap64 (n : Z) : Z := (n + 2 ^ 63) mod 2 ^ 64 - 2 ^ 63.

Definition add64 (a b : Z) : Z := wrap64 (a + b).

(** The builtin [copy(dst, src)]: overwrites the first
    [min (len dst) (len src)] elements of [dst]; the result is the new
    content of [dst]. *)
Definition copy {A} (dst src : list A) : list A :=
  take (length dst) src ++ drop (length src) dst.

(** [copy(data[i:], src)] seen from [data]. *)
Definition copy_at {A} (i : nat) (data src : list A) : list A :=
  take i data ++ copy (drop i data) src.

(** [make([]byte, n)] *)
Definition make_bytes (n : nat) : list byte := replicate n x00.

End Go.
Export Go.

#[global] Instance res_ret : MRet res := @Ok.
#[global] Instance res_bind : MBind res := fun A B k r => bind r k.

(** ** Standard-library helpers used by the sources *)

(** [encoding/hex] *)
Module hex.

Definition fromHexChar (c : ascii) : option Z :=
  let n := Z.of_N (N_of_ascii c) in
  if (48 <=? n) && (n <=? 57) then Some (n - 48)
  else if (97 <=? n) && (n <=? 102) then Some (n - 97 + 10)
  else if (65 <=? n) && (n <=? 70) then Some (n - 65 + 10)
  else None.

(** [hex.DecodeString]: [None] stands for both [InvalidByteError] and
    [ErrLength]. *)
Fixpoint DecodeString (s : string) : option (list byte) :=
  match s with
  | EmptyString => Some []
  | String _ EmptyString => None
  | String a (String b rest) =>
      match fromHexChar a, fromHexChar b, DecodeString rest with
      | Some hi, Some lo, Some bs => Some (byte_of_Z (16 * hi + lo) :: bs)
      | _, _, _ => None
      end
  end.

Definition hextable : string := "0123456789abcdef".

Definition hexDigit (n : Z) : ascii :=
  match String.get (Z.to_nat n) hextable with
  | Some c => c
  | None => "0"%char
  end.

(** [fmt.Sprintf("%x", bs)] and [hex.EncodeToString] *)
Fixpoint EncodeToString (bs : list byte) : string :=
  match bs with
  | [] => EmptyString
  | b :: rest =>
      String (hexDigit (Z_of_byte b / 16))
        (String (hexDigit (Z_of_byte b mod 16)) (EncodeToString rest))
  end.

End hex.

(** [strconv] and the [%d] verb *)
Module strconv.

(** [fmt.Sprintf("%d", n)] *)
Definition FormatInt (n : Z) : string := pretty n.

Definition digit (c : ascii) : option Z :=
  let n := Z.of_N (N_of_ascii c) in
  if (48 <=? n) && (n <=? 57) then Some (n - 48) else None.

Fixpoint parse_digits (s : string) (acc : Z) : option Z :=
  match s with
  | EmptyString => Some acc
  | String c rest =>
      match digit c with
      | Some d => parse_digits rest (10 * acc + d)
      | None => None
      end
  end.

(** [strconv.ParseInt(s, 10, 64)]; [None] stands for [ErrSyntax] and
    [ErrRange]. *)
Definition ParseInt (s : string) : option Z :=
  match s with
  | EmptyString => None
  | String c rest =>
      let '(neg, body) :=
        if Ascii.eqb c "+" then (false, rest)
        else if Ascii.eqb c "-" then (true, rest)
        else (false, s) in
      match body with
      | EmptyString => None
      | _ =>
          match parse_digits body 0 with
          | None => None
          | Some un =>
              if neg then (if un <=? 2 ^ 63 then Some (- un) else None)
              else (if un <? 2 ^ 63 then Some un else None)
          end
      end
  end.

End strconv.

(** package [util] *)
Module util.

(** [strings.TrimPrefix(hexStr, "0x")] *)
Definition TrimHex (hexStr : string) : string :=
  match hexStr with
  | String "0" (String "x" rest) => rest
  | _ => hexStr
  end.

End util.

(** [strings.HasPrefix] *)
Definition HasPrefix (s p : string) : bool := String.prefix p s.

(** [s[n:]] on a string at least [n] bytes long. *)
Fixpoint string_drop (n : nat) (s : string) : string :=
  match n, s with
  | O, _ => s
  | S n', String _ rest => string_drop n' rest
  | S _, EmptyString => EmptyString
  end.

(** ** package [signature] (crypto/signature/signature.go) *)

Module signature.

Definition AddressLength : nat := 20.
Definition SignatureLength : nat := 130.
Definition PubKeyLength : nat := 66.

(** ["\u0019Ethereum Signed Message:\n"] *)
Definition SigningPrefix : string :=
  String "025"%char ("Ethereum Signed Message:" +:+ String "010"%char EmptyString).

Definition Address : Type := list byte.

(** [SignKeys]: [Private] is the scalar [Private.D], [None] when the
    big integer is [nil] (the zero value of the struct). *)
Record SignKeys : Type := {
  Public : option (Z * Z);
  Private : option Z;
  Authorized : list Address
}.

(** [new(SignKeys)] *)
Definition new_SignKeys : SignKeys :=
  {| Public := None; Private := None; Authorized := [] |}.

(** The recovery byte after [if sig[64] > 1 { sig[64] -= 27 }]. *)
Definition normalised_id (v : byte) : byte :=
  if 1 <? Z_of_byte v then byte_of_Z (Z_of_byte v - 27) else v.

Section crypto.
(** go-ethereum [crypto.Keccak256] *)
Variable Keccak256 : list byte -> list byte.
(** go-ethereum [crypto.Sign(hash, prv)] *)
Variable crypto_Sign : list byte -> Z -> outcome (list byte).
(** go-ethereum [crypto.FromECDSAPub(crypto.SigToPub(hash, sig))] *)
Variable crypto_SigToPub : list byte -> list byte -> outcome (list byte).
(** go-ethereum [crypto.VerifySignature(pub, hash, sig)] *)
Variable crypto_VerifySignature : list byte -> list byte -> list byte -> bool.
(** iden3 [poseidon.HashBytes] *)
Variable poseidon_HashBytes : list byte -> option Z.
(** iden3 [merkletree.BigIntToHash(n).Bytes()] *)
Variable BigIntToHash_Bytes : Z -> list byte.

(** [HashRaw] hashes with no prefix. *)
Definition HashRaw (data : list byte) : list byte := Keccak256 data.

(** The buffer [Hash] fills with
    [fmt.Fprintf(&buf, "%s%d%s", SigningPrefix, len(data), data)]. *)
Definition Hash_buf (data : list byte) : list byte :=
  String.list_byte_of_string
    (SigningPrefix +:+ strconv.FormatInt (Z.of_nat (length data))) ++ data.

(** [Hash] hashes adding the Ethereum prefix. *)
Definition Hash (data : list byte) : list byte := HashRaw (Hash_buf data).

(** The digest [Sign] hands to [crypto.Sign], written out. *)
Definition prefixed_digest (message : list byte) : list byte :=
  Keccak256
    (String.list_byte_of_string
       (SigningPrefix +:+ strconv.FormatInt (Z.of_nat (length message)))
     ++ message).

Definition HashPoseidon (input : list byte) : list byte :=
  match poseidon_HashBytes input with
  | None => []
  | Some hashNum => BigIntToHash_Bytes hashNum
  end.

Definition Sign (k : SignKeys) (message : list byte) : res string :=
  match Private k with
  | None => Err "no private key available"
  | Some d =>
      signature ← lift (crypto_Sign (Hash message) d);
      Ok (hex.EncodeToString signature)
  end.

Definition PubKeyFromSignature (msg : list byte) (sigHex : string) : res string :=
  if (String.length (util.TrimHex sigHex) <? SignatureLength)%nat
     || (SignatureLength + 12 <? String.length (util.TrimHex sigHex))%nat
  then Err "signature length not correct"
  else
    match hex.DecodeString (util.TrimHex sigHex) with
    | None => Err "encoding/hex: invalid string"
    | Some sig =>
        match sig !! 64%nat with
        | None => Panic "index out of range [64]"
        | Some v =>
            (* if sig[64] > 1 { sig[64] -= 27 } *)
            let v' := if 1 <? Z_of_byte v
                      then byte_of_Z (Z_of_byte v - 27) else v in
            let sig' := <[64%nat := v']> sig in
            if 1 <? Z_of_byte v' then Err "bad recover ID byte"
            else
              pubKey ← lift (crypto_SigToPub (Hash msg) sig');
              Ok (hex.EncodeToString pubKey)
        end
    end.

(** [(k *SignKeys) Verify] *)
Definition SignKeys_Verify (k : SignKeys) (message : list byte)
    (signHex : string) : res bool :=
  pubHex ← PubKeyFromSignature message (util.TrimHex signHex);
  match hex.DecodeString signHex with
  | None => Err "encoding/hex: invalid string"
  | Some signature =>
      match hex.DecodeString pubHex with
      | None => Err "encoding/hex: invalid string"
      | Some pub =>
          let hash := Hash message in
          if (length signature <? 64)%nat
          then Panic "slice bounds out of range [:64]"
          else Ok (crypto_VerifySignature pub hash (take 64 signature))
      end
  end.

(** Standalone [Verify(message, signHex, pubHex)] *)
Definition Verify (message : list byte) (signHex pubHex : string) : res bool :=
  let sk := new_SignKeys in
  SignKeys_Verify sk message signHex.

End crypto.

(** The recovery identifiers the 65th signature byte may carry. *)
Definition recovery_ids : list Z := [0; 1; 27; 28].

(** *** Addresses, senders and JSON messages *)

Section senders.
Variable Keccak256 : list byte -> list byte.
Variable crypto_Sign : list byte -> Z -> outcome (list byte).
Variable crypto_SigToPub : list byte -> list byte -> outcome (list byte).
(** go-ethereum [crypto.UnmarshalPubkey]; a public key is its pair of
    coordinates. *)
Variable crypto_UnmarshalPubkey : list byte -> outcome (Z * Z).
(** go-ethereum [crypto.PubkeyToAddress], as the 20 bytes of the address *)
Variable crypto_PubkeyToAddress : Z * Z -> list byte.
(** go-ethereum [crypto.DecompressPubkey] and [crypto.FromECDSAPub] *)
Variable crypto_DecompressPubkey : list byte -> outcome (Z * Z).
Variable crypto_FromECDSAPub : Z * Z -> list byte.
(** [json.Marshal] on the messages, of some type [Msg] *)
Variable Msg : Type.
Variable json_Marshal : Msg -> outcome (list byte).

(** [addrFromString] decodes an address from a hex string. *)
Definition addrFromString (s : string) : res Address :=
  let s := util.TrimHex s in
  match hex.DecodeString s with
  | None => Err "encoding/hex: invalid string"
  | Some addrBytes =>
      if negb (length addrBytes =? AddressLength)%nat
      then Err "invalid address length"
      else Ok (copy (make_bytes AddressLength) addrBytes)
  end.

(** [AddAuthKey]: the keys after the call and the returned error. *)
Definition AddAuthKey (k : SignKeys) (address : string) : SignKeys * res unit :=
  match addrFromString address with
  | Ok addr =>
      ({| Public := Public k; Private := Private k;
          Authorized := Authorized k ++ [addr] |}, Ok tt)
  | Err m => (k, Err m)
  | Panic m => (k, Panic m)
  end.

Definition SignJSON (k : SignKeys) (message : Msg) : res string :=
  match json_Marshal message with
  | Fail _ => Err "unable to marshal message to sign: %s"
  | Ret rawMsg =>
      match Sign Keccak256 crypto_Sign k rawMsg with
      | Ok sig => Ok ("0x" +:+ util.TrimHex sig)
      | _ => Err "error signing response body: %s"
      end
  end.

Definition hexToPubKey (pubHex : string) : res (Z * Z) :=
  match hex.DecodeString (util.TrimHex pubHex) with
  | None => Err "encoding/hex: invalid string"
  | Some pubBytes => lift (crypto_UnmarshalPubkey pubBytes)
  end.

Definition AddrFromSignature (msg : list byte) (sigHex : string) : res string :=
  pubHex ← PubKeyFromSignature Keccak256 crypto_SigToPub msg sigHex;
  pub ← hexToPubKey pubHex;
  let addr := crypto_PubkeyToAddress pub in
  Ok (hex.EncodeToString addr).

Definition AddrFromJSONsignature (msg : Msg) (sigHex : string) : res string :=
  match json_Marshal msg with
  | Fail _ => Err "unable to marshal message to sign: %s"
  | Ret rawMsg => AddrFromSignature rawMsg sigHex
  end.

(** The loop of [VerifySender] over the authorized addresses. *)
Fixpoint sender_authorized (authorized : list Address) (recoveredAddr : string)
    : bool :=
  match authorized with
  | [] => false
  | addr :: rest =>
      if String.eqb (hex.EncodeToString addr) recoveredAddr then true
      else sender_authorized rest recoveredAddr
  end.

(** [VerifySender]: the flag and the recovered address, or the error. *)
Definition VerifySender (k : SignKeys) (msg : list byte) (sigHex : string)
    : res (bool * string) :=
  recoveredAddr ← AddrFromSignature msg sigHex;
  Ok (sender_authorized (Authorized k) recoveredAddr, recoveredAddr).

Definition VerifyJSONsender (k : SignKeys) (msg : Msg) (sigHex : string)
    : res (bool * string) :=
  match json_Marshal msg with
  | Fail _ => Err "unable to marshal message to sign: %s"
  | Ret rawMsg => VerifySender k rawMsg sigHex
  end.

(** [decompressPubKey] takes a compressed public key in hex and
    returns it decompressed. *)
Definition decompressPubKey (pubHexComp : string) : res string :=
  if (PubKeyLength <? String.length pubHexComp)%nat then Ok pubHexComp
  else
    match hex.DecodeString pubHexComp with
    | None => Err "encoding/hex: invalid string"
    | Some pubBytes =>
        pub ← lift (crypto_DecompressPubkey pubBytes);
        Ok (hex.EncodeToString (crypto_FromECDSAPub pub))
    end.

Definition AddrFromPublicKey (pubHex : string) : res string :=
  pubHexDesc ← (if (String.length pubHex <=? PubKeyLength)%nat
                then decompressPubKey (util.TrimHex pubHex)
                else Ok pubHex);
  match hex.DecodeString pubHexDesc with
  | None => Err "encoding/hex: invalid string"
  | Some pubBytes =>
      pub ← lift (crypto_UnmarshalPubkey pubBytes);
      let recoveredAddr := crypto_PubkeyToAddress pub in
      Ok (hex.EncodeToString recoveredAddr)
  end.

End senders.

End signature.

(** ** package [types]

    The sources carry an older revision of [types/vochain.go]; the
    structures below have the fields the key keeper and the scrutinizer
    read and write.  [RequireKeys] and [IsEncrypted] hold the results of
    the methods [p.RequireKeys()] and [p.IsEncrypted()]. *)

Module types.

Record Process : Type := {
  EncryptionPublicKeys : list string;
  CommitmentKeys : list string;
  EncryptionPrivateKeys : list string;
  StartBlock : Z;
  NumberOfBlocks : Z;
  RequireKeys : bool;
  IsEncrypted : bool
}.

(** [ProcessID] is a byte slice, [None] when it is [nil]. *)
Record Vote : Type := {
  ProcessID : option string;
  Nullifier : string;
  VotePackage : list byte;
  EncryptionKeyIndexes : list Z
}.

(** [types.VotePackage] *)
Record VotePackageStruct : Type := {
  vp_Nonce : string;
  vp_Type : string;
  Votes : list Z
}.

Inductive TxType : Type := TxAddProcessKeys | TxRevealProcessKeys.

(** The fields of [types.AdminTx] the key keeper fills. *)
Record AdminTx : Type := {
  tx_Type : TxType;
  tx_KeyIndex : Z;
  tx_Nonce : string;
  tx_ProcessID : string;
  tx_EncryptionPublicKey : string;
  tx_CommitmentKey : string;
  tx_EncryptionPrivateKey : string;
  tx_RevealKey : string;
  tx_Signature : string
}.

Definition with_Signature (tx : AdminTx) (sig : string) : AdminTx :=
  {| tx_Type := tx_Type tx; tx_KeyIndex := tx_KeyIndex tx;
     tx_Nonce := tx_Nonce tx; tx_ProcessID := tx_ProcessID tx;
     tx_EncryptionPublicKey := tx_EncryptionPublicKey tx;
     tx_CommitmentKey := tx_CommitmentKey tx;
     tx_EncryptionPrivateKey := tx_EncryptionPrivateKey tx;
     tx_RevealKey := tx_RevealKey tx; tx_Signature := sig |}.

(** [l[i]] for a slice of strings and an integer index. *)
Definition index_string (l : list string) (i : Z) : res string :=
  if i <? 0 then Panic "index out of range"
  else match l !! Z.to_nat i with
       | Some s => Ok s
       | None => Panic "index out of range"
       end.

End types.

(** ** package [keykeeper] (vochain/app.go, second document) *)

Module keykeeper.
Import types.

(** Modelled from the spec: [nacl.KeyLength] (package [crypto/nacl] is
    not among the sources).  The persisted layout gives every key 32
    bytes, and [Encode] writes the index at the literal offset 128. *)
Definition KeyLength : nat := 32.

Definition commitmentKeySize : nat := KeyLength.
Definition encryptionKeySize : nat := KeyLength.
Definition dbPrefixProcess : string := "p_".
Definition dbPrefixBlock : string := "b_".

(** The fixed-size arrays of [processKeys] are lists of length
    [KeyLength]; [index] is an [int8]. *)
Record processKeys : Type := {
  pubKey : list byte;
  privKey : list byte;
  revealKey : list byte;
  commitmentKey : list byte;
  index : Z
}.

(** What the array types and [int8] guarantee. *)
Definition wf_processKeys (pk : processKeys) : Prop :=
  length (pubKey pk) = encryptionKeySize /\
  length (privKey pk) = encryptionKeySize /\
  length (revealKey pk) = commitmentKeySize /\
  length (commitmentKey pk) = commitmentKeySize /\
  is_int8 (index pk).

(** The zero value [var pk processKeys]. *)
Definition zero_processKeys : processKeys :=
  {| pubKey := make_bytes encryptionKeySize;
     privKey := make_bytes encryptionKeySize;
     revealKey := make_bytes commitmentKeySize;
     commitmentKey := make_bytes commitmentKeySize;
     index := 0 |}.

Definition Encode (pk : processKeys) : list byte :=
  let data := make_bytes (commitmentKeySize * 2 + encryptionKeySize * 2 + 1) in
  let data := copy_at 0 data (pubKey pk) in
  let data := copy_at encryptionKeySize data (privKey pk) in
  let i := (encryptionKeySize * 2)%nat in
  let data := copy_at i data (revealKey pk) in
  let i := (i + commitmentKeySize)%nat in
  let data := copy_at i data (commitmentKey pk) in
  let data := <[128%nat := byte_of_Z (index pk)]> data in
  data.

(** [pk.Decode(data)]: the receiver after the call, or the error. *)
Definition Decode (pk : processKeys) (data : list byte) : res processKeys :=
  if (length data <? commitmentKeySize * 2 + encryptionKeySize * 2 + 1)%nat
  then Err "cannot decode, data too small"
  else
    let pub := copy (pubKey pk) data in
    let priv := copy (privKey pk) (drop encryptionKeySize data) in
    let i := (encryptionKeySize * 2)%nat in
    let reveal := copy (revealKey pk) (drop i data) in
    let i := (i + commitmentKeySize)%nat in
    let commitment := copy (commitmentKey pk) (drop i data) in
    let i := (i + commitmentKeySize)%nat in
    match data !! i with
    | None => Panic "index out of range"
    | Some b =>
        Ok {| pubKey := pub; privKey := priv; revealKey := reveal;
              commitmentKey := commitment; index := int8_of_byte b |}
    end.

(** [Bytes] of a [big.Int]: the big-endian bytes of the absolute value,
    without leading zeros. *)
Fixpoint le_bytes (fuel : nat) (n : Z) : list byte :=
  match fuel with
  | O => []
  | S fuel' =>
      if n =? 0 then []
      else byte_of_Z (n mod 256) :: le_bytes fuel' (n / 256)
  end.

Definition big_Bytes (x : Z) : list byte :=
  rev (le_bytes (S (Z.to_nat (Z.log2 (Z.abs x)))) (Z.abs x)).

(** [nacl.KeyPair] *)
Record KeyPair : Type := {
  kp_Public : list byte;
  kp_Private : list byte
}.

(** The key keeper.  [storage] is the key-value database; database
    failures other than a missing key are not modelled.  A [keyPool]
    entry is a pointer, [None] when it is [nil].  The last three
    fields are ghost state: the transactions handed to [vochain.SendTX]
    (oldest first), the process ids [revealKeys] was called with (oldest
    first), and the number of random nonces drawn so far. *)
Record KeyKeeper : Type := {
  storage : gmap string (list byte);
  keyPool : gmap string (option processKeys);
  blockPool : gmap string Z;
  signer : signature.SignKeys;
  myIndex : Z;
  sent : list (list byte);
  reveal_calls : list string;
  draws : nat
}.

Definition set_storage (k : KeyKeeper) (s : gmap string (list byte)) : KeyKeeper :=
  {| storage := s; keyPool := keyPool k; blockPool := blockPool k;
     signer := signer k; myIndex := myIndex k; sent := sent k;
     reveal_calls := reveal_calls k; draws := draws k |}.

Definition set_pools (k : KeyKeeper) (kp : gmap string (option processKeys))
    (bp : gmap string Z) : KeyKeeper :=
  {| storage := storage k; keyPool := kp; blockPool := bp;
     signer := signer k; myIndex := myIndex k; sent := sent k;
     reveal_calls := reveal_calls k; draws := draws k |}.

Definition set_ghost (k : KeyKeeper) (s : list (list byte))
    (r : list string) (d : nat) : KeyKeeper :=
  {| storage := storage k; keyPool := keyPool k; blockPool := blockPool k;
     signer := signer k; myIndex := myIndex k; sent := s;
     reveal_calls := r; draws := d |}.

Section keeper.
(** *** External collaborators *)
(** go-ethereum [crypto.Keccak256] and [crypto.Sign] *)
Variable Keccak256 : list byte -> list byte.
Variable crypto_Sign : list byte -> Z -> outcome (list byte).
(** iden3 [poseidon.HashBytes] and [merkletree.BigIntToHash(n).Bytes()] *)
Variable poseidon_HashBytes : list byte -> option Z.
Variable BigIntToHash_Bytes : Z -> list byte.
(** The curve operation behind [nacl.FromHex]. *)
Variable derivePublic : list byte -> list byte.
(** [k.vochain.State.Process(pid, committed)] *)
Variable State_Process : string -> bool -> outcome Process.
(** The height of [k.vochain.State.Header(committed)], [None] for [nil]. *)
Variable State_Header : bool -> option Z.
(** amino [Codec.MarshalBinaryBare] and [Codec.UnmarshalBinaryBare] on
    [[]string] *)
Variable MarshalBinaryBare : list string -> outcome (list byte).
Variable UnmarshalBinaryBare : list byte -> outcome (list string).
(** [json.Marshal] on an [AdminTx] *)
Variable json_Marshal : AdminTx -> outcome (list byte).
(** [k.vochain.SendTX(txBytes)]: given the transactions sent before,
    the result code and data. *)
Variable SendTX : list (list byte) -> list byte -> outcome (Z * list byte).
(** [util.RandomHex(32)], by draw number. *)
Variable RandomHex : nat -> string.

(** Modelled from the spec: [nacl.FromHex] (package [crypto/nacl] is
    not among the sources).  "Derive an X25519-style keypair from
    [seed]: [privKey = seed], [pubKey = derivePublic(seed)]"; the seed
    must fill the 32-byte key array. *)
Definition nacl_FromHex (privHex : string) : res KeyPair :=
  match hex.DecodeString privHex with
  | None => Err "encoding/hex: invalid string"
  | Some b =>
      if (length b =? KeyLength)%nat
      then Ok {| kp_Public := derivePublic b; kp_Private := b |}
      else Err "key length must be 32"
  end.

Definition generateKeys (k : KeyKeeper) (pid : string) : res processKeys :=
  match hex.DecodeString pid with
  | None => Err "encoding/hex: invalid string"
  | Some pb =>
      let pb := pb ++ [byte_of_Z (myIndex k)] in
      match signature.Private (signer k) with
      | None => Panic "nil pointer dereference"
      | Some d =>
          match nacl_FromHex (hex.EncodeToString
                  (signature.HashRaw Keccak256 (big_Bytes d ++ pb))) with
          | Err _ => Err "cannot generate encryption key"
          | Panic m => Panic m
          | Ok ek =>
              let ckb := signature.HashPoseidon poseidon_HashBytes
                           BigIntToHash_Bytes (kp_Private ek) in
              let ck := copy (make_bytes commitmentKeySize) ckb in
              let ckhash := copy (make_bytes commitmentKeySize)
                (signature.HashPoseidon poseidon_HashBytes
                   BigIntToHash_Bytes ckb) in
              Ok {| privKey := kp_Private ek; pubKey := kp_Public ek;
                    revealKey := ck; commitmentKey := ckhash;
                    index := myIndex k |}
          end
      end
  end.

(** [signAndSendTx]: the keeper after the call (ghost [sent] extended
    when the mempool was reached) and the returned error, if any. *)
Definition signAndSendTx (k : KeyKeeper) (tx : AdminTx) : KeyKeeper * res unit :=
  match json_Marshal tx with
  | Fail m => (k, Err m)
  | Ret txBytes =>
      match signature.Sign Keccak256 crypto_Sign (signer k) txBytes with
      | Err m => (k, Err m)
      | Panic m => (k, Panic m)
      | Ok sig =>
          let tx := with_Signature tx sig in
          match json_Marshal tx with
          | Fail m => (k, Err m)
          | Ret txBytes =>
              let k' := set_ghost k (sent k ++ [txBytes]) (reveal_calls k) (draws k) in
              match SendTX (sent k) txBytes with
              | Fail m => (k', Err m)
              | Ret (code, data) =>
                  if code =? 0 then (k', Ok tt)
                  else (k', Err "error sending transaction")
              end
          end
      end
  end.

Definition publishKeys (k : KeyKeeper) (pk : option processKeys) (pid : string)
    : KeyKeeper * res unit :=
  match pk with
  | None => (k, Panic "nil pointer dereference")
  | Some pk =>
  let tx := {| tx_Type := TxAddProcessKeys;
               tx_KeyIndex := index pk;
               tx_Nonce := RandomHex (draws k);
               tx_ProcessID := pid;
               tx_EncryptionPublicKey := hex.EncodeToString (pubKey pk);
               tx_CommitmentKey := hex.EncodeToString (commitmentKey pk);
               tx_EncryptionPrivateKey := "";
               tx_RevealKey := "";
               tx_Signature := "" |} in
  let k := set_ghost k (sent k) (reveal_calls k) (S (draws k)) in
  match signAndSendTx k tx with
  | (k, Ok _) =>
      let dbKey := dbPrefixProcess +:+ pid in
      match storage k !! dbKey with
      | Some _ => (k, Err "keys for process already exist or error fetching storage")
      | None =>
          let data := Encode pk in
          (set_storage k (<[dbKey := data]> (storage k)), Ok tt)
      end
  | (k, e) => (k, e)
  end
  end.

Definition revealKeys (k : KeyKeeper) (pid : string) : KeyKeeper * res unit :=
  let k := set_ghost k (sent k) (reveal_calls k ++ [pid]) (draws k) in
  let dbKey := dbPrefixProcess +:+ pid in
  match storage k !! dbKey with
  | None => (k, Err "cannot fetch reveal keys from storage")
  | Some data =>
      if (length data =? 0)%nat then (k, Err "no keys data found on storage")
      else
        match Decode zero_processKeys data with
        | Err _ => (k, Err "cannot unmarshal process keys")
        | Panic m => (k, Panic m)
        | Ok pk =>
            if (length (privKey pk) <? 32)%nat
               && (length (revealKey pk) <? commitmentKeySize)%nat
            then (k, Err "empty process keys")
            else
              let tx := {| tx_Type := TxRevealProcessKeys;
                           tx_KeyIndex := index pk;
                           tx_Nonce := RandomHex (draws k);
                           tx_ProcessID := pid;
                           tx_EncryptionPublicKey := "";
                           tx_CommitmentKey := "";
                           tx_EncryptionPrivateKey := hex.EncodeToString (privKey pk);
                           tx_RevealKey := hex.EncodeToString (revealKey pk);
                           tx_Signature := "" |} in
              let k := set_ghost k (sent k) (reveal_calls k) (S (draws k)) in
              match signAndSendTx k tx with
              | (k, Ok _) => (set_storage k (delete dbKey (storage k)), Ok tt)
              | (k, e) => (k, e)
              end
        end
  end.

(** [for _, p := range pids { k.revealKeys(p) }], errors only logged. *)
Definition reveal_all (k : KeyKeeper) (pids : list string) : KeyKeeper :=
  foldl (fun k p => fst (revealKeys k p)) k pids.

(** One round of the iterator loop of [RevealUnpublished]. *)
Definition RevealUnpublished_step (height : Z) (k : KeyKeeper)
    (entry : string * list byte) : KeyKeeper :=
  let '(key, value) := entry in
  if negb (HasPrefix key dbPrefixBlock) then k
  else
    match strconv.ParseInt (string_drop (String.length dbPrefixBlock) key) with
    | None => k
    | Some h =>
        if height <=? add64 h 2 then k
        else
          match UnmarshalBinaryBare value with
          | Ret pids => reveal_all k pids
          | Fail _ => k
          end
    end.

(** [RevealUnpublished]: the iterator walks the entries the database
    held when it was opened. *)
Definition RevealUnpublished (k : KeyKeeper) : KeyKeeper :=
  match State_Header true with
  | None => k
  | Some height =>
      foldl (RevealUnpublished_step height) k (map_to_list (storage k))
  end.

(** The rescue in the words of the specification: the height [h] of a
    bucket key [b_<h>], and the process ids of a bucket that is due,
    that is, one with [h + 2 < currentHeight]. *)
Definition bucket_height (key : string) : option Z :=
  if HasPrefix key dbPrefixBlock
  then strconv.ParseInt (string_drop (String.length dbPrefixBlock) key)
  else None.

Definition due_pids (currentHeight : Z) (entry : string * list byte) : list string :=
  match bucket_height (fst entry), UnmarshalBinaryBare (snd entry) with
  | Some h, Ret pids => if h + 2 <? currentHeight then pids else []
  | _, _ => []
  end.

Definition Rollback (k : KeyKeeper) : KeyKeeper :=
  set_pools k ∅ ∅.

Definition OnProcess (k : KeyKeeper) (pid eid : string) : res KeyKeeper :=
  match State_Process pid false with
  | Fail _ => Ok k
  | Ret p =>
      if negb (RequireKeys p) then Ok k
      else
        pub ← index_string (EncryptionPublicKeys p) (myIndex k);
        com ← index_string (CommitmentKeys p) (myIndex k);
        if (0 <? String.length pub + String.length com)%nat then Ok k
        else
          match keyPool k !! pid with
          | Some _ => Ok k
          | None =>
              (* k.keyPool[pid], err = k.generateKeys(pid) stores the
                 nil pointer before the error is looked at *)
              match generateKeys k pid with
              | Err _ => Ok (set_pools k (<[pid := None]> (keyPool k)) (blockPool k))
              | Panic m => Panic m
              | Ok pk =>
                  Ok (set_pools k (<[pid := Some pk]> (keyPool k))
                        (<[pid := add64 (StartBlock p) (NumberOfBlocks p)]>
                           (blockPool k)))
              end
          end
  end.

Definition OnCancel (k : KeyKeeper) (pid : string) : res KeyKeeper :=
  match State_Process pid false with
  | Fail _ => Ok k
  | Ret p =>
      if negb (RequireKeys p) then Ok k
      else
        match State_Header false with
        | None => Panic "nil pointer dereference"
        | Some height =>
            Ok (set_pools k (keyPool k) (<[pid := add64 height 1]> (blockPool k)))
        end
  end.

(** One round of the loop of [scheduleRevealKeys].  A failed
    [UnmarshalBinaryBare] is only logged; [pids] then keeps its initial
    value. *)
Definition scheduleRevealKeys_step (k : KeyKeeper) (entry : string * Z) : KeyKeeper :=
  let '(pid, height) := entry in
  let pkey := dbPrefixBlock +:+ strconv.FormatInt height in
  let pids :=
    match storage k !! pkey with
    | Some data =>
        match UnmarshalBinaryBare data with
        | Ret pids => pids
        | Fail _ => []
        end
    | None => []
    end in
  let pids := pids ++ [pid] in
  match MarshalBinaryBare pids with
  | Ret data => set_storage k (<[pkey := data]> (storage k))
  | Fail _ => k
  end.

(** The range over the [blockPool] map visits its entries in the order
    of [map_to_list]; Go leaves that order unspecified. *)
Definition scheduleRevealKeys (k : KeyKeeper) : KeyKeeper :=
  foldl scheduleRevealKeys_step k (map_to_list (blockPool k)).

Definition checkRevealProcess (k : KeyKeeper) (height : Z) : KeyKeeper :=
  let pKey := dbPrefixBlock +:+ strconv.FormatInt height in
  match storage k !! pKey with
  | None => k
  | Some data =>
      match UnmarshalBinaryBare data with
      | Ret pids =>
          let k := reveal_all k pids in
          set_storage k (delete pKey (storage k))
      | Fail _ => k
      end
  end.

Definition publishPendingKeys_step (r : res KeyKeeper)
    (entry : string * option processKeys) : res KeyKeeper :=
  k ← r;
  match publishKeys k (snd entry) (fst entry) with
  | (_, Panic m) => Panic m
  | (k, _) => Ok k
  end.

Definition publishPendingKeys (k : KeyKeeper) : res KeyKeeper :=
  foldl publishPendingKeys_step (Ok k) (map_to_list (keyPool k)).

(** [Commit]: the two goroutines it starts are run to completion in
    the order they are started. *)
Definition Commit (k : KeyKeeper) (height : Z) : res KeyKeeper :=
  let k := scheduleRevealKeys k in
  let k := checkRevealProcess k height in
  publishPendingKeys k.

End keeper.


(** *** Relations between keeper states, used to state what an
    operation leaves alone *)

(** The relation between the keeper before and after a rescue or a
    reveal: the pools stay, and a storage entry stays or is a deleted
    process entry. *)
Definition only_process_keys_deleted (k k' : KeyKeeper) : Prop :=
  keyPool k' = keyPool k /\ blockPool k' = blockPool k /\
  forall key : string, storage k' !! key = storage k !! key \/
              (storage k' !! key = None /\
               HasPrefix key dbPrefixProcess = true).

End keykeeper.

(** ** package [scrutinizer] (vochain/scrutinizer/vote.go) *)

Module scrutinizer.
Import types.

(** [ProcessVotes] is [[][]uint32]. *)
Abbreviation ProcessVotes := (list (list Z)).

(** [c++] on a [uint32] *)
Definition incr32 (c : Z) : Z := (c + 1) mod 2 ^ 32.

(** The storage of the scrutinizer; database failures other than a
    missing key are not modelled. *)
Abbreviation Storage := (gmap string (list byte)).

Inductive dberror : Type := ErrKeyNotFound | ErrOther (msg : string).

(** [Storage.Get] *)
Definition Storage_Get (s : Storage) (key : string) : list byte + dberror :=
  match s !! key with
  | Some v => inl v
  | None => inr ErrKeyNotFound
  end.

(** [for] loops with [break]: the first element of [js] on which [f]
    holds, [dflt] when the loop runs to its end. *)
Fixpoint scan (f : Z -> res bool) (js : list Z) (dflt : Z) : res Z :=
  match js with
  | [] => Ok dflt
  | j :: rest => b ← f j; if b : bool then Ok j else scan f rest dflt
  end.

Fixpoint mapM {A B} (f : A -> res B) (l : list A) : res (list B) :=
  match l with
  | [] => Ok []
  | a :: rest => b ← f a; bs ← mapM f rest; Ok (b :: bs)
  end.

(** [pv[i]] and [pv[i][j]] *)
Definition row (pv : ProcessVotes) (i : Z) : res (list Z) :=
  if i <? 0 then Panic "index out of range"
  else match pv !! Z.to_nat i with
       | Some r => Ok r
       | None => Panic "index out of range"
       end.

Definition cell (pv : ProcessVotes) (i j : Z) : res Z :=
  r ← row pv i;
  if j <? 0 then Panic "index out of range"
  else match r !! Z.to_nat j with
       | Some c => Ok c
       | None => Panic "index out of range"
       end.

Section scrutinizer.
(** Constants of scrutinizer.go and of package [types], which are not
    among the sources. *)
Variable MaxQuestions : Z.
Variable MaxOptions : Z.
Variable MaxKeyIndex : Z.
(** [nacl.DecodePrivate] and the [Decrypt] method of [crypto/nacl];
    a decoded private key is its bytes. *)
Variable nacl_DecodePrivate : string -> outcome (list byte).
Variable nacl_Decrypt : list byte -> list byte -> outcome (list byte).
(** [json.Unmarshal] into a [types.VotePackage] *)
Variable json_Unmarshal : list byte -> outcome VotePackageStruct.
(** amino [Codec.MarshalBinaryBare] / [UnmarshalBinaryBare] on
    [ProcessVotes] *)
Variable MarshalBinaryBare : ProcessVotes -> outcome (list byte).
Variable UnmarshalBinaryBare : list byte -> outcome ProcessVotes.
(** [s.VochainState.Process(pid, false)], [EnvelopeList(pid, 0, 32<<18,
    false)] and [Envelope(pid, nullifier, false)] *)
Variable State_Process : string -> outcome Process.
Variable State_EnvelopeList : string -> list string.
Variable State_Envelope : string -> string -> outcome Vote.
(** [s.isLiveResultsProcess] and [s.encode], defined in scrutinizer.go;
    [encode t pid] is the storage key of kind [t] for a process. *)
Variable isLiveResultsProcess : string -> outcome bool.
Variable encode : string -> string -> string.

(** Modelled from the spec: [emptyProcess] (scrutinizer.go is not among
    the sources).  "Questions are indexed 0..MaxQuestions-1; options
    0..MaxOptions-1." *)
Definition emptyProcess : ProcessVotes :=
  replicate (Z.to_nat MaxQuestions) (replicate (Z.to_nat MaxOptions) 0).

(** The decryption loop of [unmarshalVote],
    [for i := len(keys) - 1; i >= 0; i--]; [n] is [i + 1]. *)
Fixpoint decrypt_loop (keys : list string) (n : nat) (rawVote : list byte)
    : res (list byte) :=
  match n with
  | O => Ok rawVote
  | S i =>
      match keys !! i with
      | None => Panic "index out of range"
      | Some key =>
          match nacl_DecodePrivate key with
          | Fail _ => Err "cannot create private key cipher"
          | Ret priv =>
              match nacl_Decrypt priv rawVote with
              | Fail _ => Err "cannot decrypt vote with index key"
              | Ret rawVote => decrypt_loop keys i rawVote
              end
          end
      end
  end.

(** Decryption in the words of the specification: the keys of a list
    are applied one after the other, in the order of the list. *)
Fixpoint decrypt_in_order (keys : list string) (rawVote : list byte)
    : res (list byte) :=
  match keys with
  | [] => Ok rawVote
  | key :: rest =>
      match nacl_DecodePrivate key with
      | Fail _ => Err "cannot create private key cipher"
      | Ret priv =>
          match nacl_Decrypt priv rawVote with
          | Fail _ => Err "cannot decrypt vote with index key"
          | Ret rawVote => decrypt_in_order rest rawVote
          end
      end
  end.

(** [json.Unmarshal(rawVote, &vote)] as [unmarshalVote] reports it. *)
Definition parse_vote (rawVote : list byte) : res VotePackageStruct :=
  match json_Unmarshal rawVote with
  | Fail _ => Err "cannot unmarshal vote"
  | Ret vote => Ok vote
  end.

Definition unmarshalVote (votePackage : list byte) (keys : list string)
    : res VotePackageStruct :=
  let rawVote := copy (make_bytes (length votePackage)) votePackage in
  rawVote ← (if (0 <? length keys)%nat
             then decrypt_loop keys (length keys) rawVote
             else Ok rawVote);
  parse_vote rawVote.

(** [for question, opt := range vote.Votes], shared by
    [addLiveResultsVote] and [computeNonLiveResults]; [question] is the
    index of the head of [votes]. *)
Fixpoint tally (pv : ProcessVotes) (question : nat) (votes : list Z)
    : res ProcessVotes :=
  match votes with
  | [] => Ok pv
  | opt :: rest =>
      if MaxOptions <? opt then tally pv (S question) rest
      else
        match pv !! question with
        | None => Panic "index out of range"
        | Some r =>
            if opt <? 0 then Panic "index out of range"
            else
              match r !! Z.to_nat opt with
              | None => Panic "index out of range"
              | Some c =>
                  tally (<[question := <[Z.to_nat opt := incr32 c]> r]> pv)
                        (S question) rest
              end
        end
  end.

(** The tally in the words of the specification: a vote for option
    [opt] is counted in its question's row when [opt] is one of the
    options [0 .. MaxOptions-1] and dropped otherwise; the vote at
    position [q] of a package goes to row [q]. *)
Definition count_vote (r : list Z) (opt : Z) : list Z :=
  if (0 <=? opt) && (opt <? MaxOptions)
  then alter incr32 (Z.to_nat opt) r
  else r.

Fixpoint count_votes (pv : ProcessVotes) (votes : list Z) : ProcessVotes :=
  match pv, votes with
  | r :: pv', opt :: votes' => count_vote r opt :: count_votes pv' votes'
  | _, _ => pv
  end.

(** A tally with [MaxQuestions] rows of [MaxOptions] counters. *)
Definition well_shaped (pv : ProcessVotes) : Prop :=
  length pv = Z.to_nat MaxQuestions /\
  Forall (fun r => length r = Z.to_nat MaxOptions) pv.

(** An option value that is counted, or dropped as an overflow. *)
Definition counted_or_dropped (opt : Z) : Prop :=
  MaxOptions < opt \/ 0 <= opt < MaxOptions.

Definition prune_scan_options (pvv : ProcessVotes) (q : Z) : res Z :=
  scan (fun j => c ← cell pvv q j; Ok (negb (c =? 0))) (seqZ 0 MaxOptions) MaxOptions.

Definition prune_last_option (pvv : ProcessVotes) (q : Z) : res Z :=
  scan (fun j => c ← cell pvv q j; Ok (negb (c =? 0)))
       (reverse (seqZ 0 MaxOptions)) (-1).

(** The body of the second loop of [pruneVoteResult] for one [i]. *)
Definition prune_rows (pvv : ProcessVotes) (i : Z) : res ProcessVotes :=
  mapM (fun i2 =>
          j2 ← prune_last_option pvv i2;
          r ← row pvv i2;
          Ok (copy (replicate (Z.to_nat (j2 + 1)) 0) r))
       (seqZ 0 (i + 1)).

Definition pruneVoteResult (pv : ProcessVotes) : res ProcessVotes :=
  let pvv := pv in
  min ← scan (fun min => j ← prune_scan_options pvv min; Ok (j <? MaxOptions))
             (reverse (seqZ 0 MaxQuestions)) (-1);
  foldl (fun pvc i => _ ← pvc; prune_rows pvv i) (Ok []) (seqZ 0 (min + 1)).

Definition addLiveResultsVote (s : Storage) (envelope : Vote) : Storage * res unit :=
  match ProcessID envelope with
  | None => (s, Err "cannot find process for envelope")
  | Some pid =>
      match unmarshalVote (VotePackage envelope) [] with
      | Err m => (s, Err m)
      | Panic m => (s, Panic m)
      | Ok vote =>
          if MaxQuestions <? Z.of_nat (length (Votes vote))
          then (s, Err "too many questions on addVote")
          else
            match Storage_Get s (encode "liveProcess" pid) with
            | inr _ => (s, Err "error adding vote to process, skipping addVote")
            | inl process =>
                match UnmarshalBinaryBare process with
                | Fail _ => (s, Err "cannot unmarshal vote")
                | Ret pv =>
                    match tally pv 0%nat (Votes vote) with
                    | Err m => (s, Err m)
                    | Panic m => (s, Panic m)
                    | Ok pv =>
                        match MarshalBinaryBare pv with
                        | Fail m => (s, Err m)
                        | Ret process =>
                            (<[encode "process" pid := process]> s, Ok tt)
                        end
                    end
                end
            end
      end
  end.

Definition computeLiveResults (s : Storage) (processID : string) : res ProcessVotes :=
  match Storage_Get s (encode "liveProcess" processID) with
  | inr _ => Err "Key not found"
  | inl pb =>
      match UnmarshalBinaryBare pb with
      | Fail m => Err m
      | Ret pv => pruneVoteResult pv
      end
  end.

(** The loop of [computeNonLiveResults] that gathers the keys of an
    envelope; [Err] is the [break] on a key index overflow. *)
Fixpoint envelope_keys (p : Process) (indexes : list Z) (keys : list string)
    : res (list string) :=
  match indexes with
  | [] => Ok keys
  | k :: rest =>
      if MaxKeyIndex <=? k then Err "key index overflow"
      else
        key ← index_string (EncryptionPrivateKeys p) k;
        envelope_keys p rest (keys ++ [key])
  end.

(** The vote package [computeNonLiveResults] obtains for one envelope. *)
Definition envelope_votePackage (p : Process) (v : Vote) : res VotePackageStruct :=
  if IsEncrypted p then
    if (length (EncryptionPrivateKeys p) <? length (EncryptionKeyIndexes v))%nat
    then Err "encryptionKeyIndexes has too many fields"
    else
      match envelope_keys p (EncryptionKeyIndexes v) [] with
      | Panic m => Panic m
      | Err _ => Err "no keys provided or wrong index"
      | Ok keys =>
          if (length keys =? 0)%nat then Err "no keys provided or wrong index"
          else unmarshalVote (VotePackage v) keys
      end
  else unmarshalVote (VotePackage v) [].

(** One round of the envelope loop of [computeNonLiveResults]. *)
Definition computeNonLiveResults_step (processID : string) (p : Process)
    (acc : res ProcessVotes) (e : string) : res ProcessVotes :=
  pv ← acc;
  match State_Envelope processID e with
  | Fail _ => Ok pv
  | Ret v =>
      match envelope_votePackage p v with
      | Panic m => Panic m
      | Err _ => Ok pv
      | Ok vp => tally pv 0%nat (Votes vp)
      end
  end.

Definition computeNonLiveResults (processID : string) (p : Process)
    : res ProcessVotes :=
  pv ← foldl (computeNonLiveResults_step processID p) (Ok emptyProcess)
             (State_EnvelopeList processID);
  pruneVoteResult pv.

Definition ComputeResult (s : Storage) (processID : string) : Storage * res unit :=
  match State_Process processID with
  | Fail m => (s, Err m)
  | Ret p =>
      match Storage_Get s (encode "results" processID) with
      | inl _ => (s, Err "process already computed")
      | inr (ErrOther m) => (s, Err m)
      | inr ErrKeyNotFound =>
          match isLiveResultsProcess processID with
          | Fail m => (s, Err m)
          | Ret isLive =>
              let '(s, pv) :=
                if isLive : bool then
                  match computeLiveResults s processID with
                  | Ok pv => (delete (encode "liveProcess" processID) s, Ok pv)
                  | e => (s, e)
                  end
                else (s, computeNonLiveResults processID p) in
              match pv with
              | Err m => (s, Err m)
              | Panic m => (s, Panic m)
              | Ok pv =>
                  match MarshalBinaryBare pv with
                  | Fail m => (s, Err m)
                  | Ret result =>
                      (<[encode "results" processID := result]> s, Ok tt)
                  end
              end
          end
      end
  end.

End scrutinizer.


(** *** Reading the results *)

Section results.
Variable MaxQuestions : Z.
Variable MaxOptions : Z.
Variable UnmarshalBinaryBare : list byte -> outcome ProcessVotes.
Variable State_Process : string -> outcome Process.
Variable isLiveResultsProcess : string -> outcome bool.
Variable encode : string -> string -> string.

Definition ErrNoResultsYet : string := "no results yet".

(** [VoteResult] returns the current result for a process. *)
Definition VoteResult (s : Storage) (processID : string) : res ProcessVotes :=
  match State_Process processID with
  | Fail m => Err m
  | Ret _ =>
      match Storage_Get s (encode "results" processID) with
      | inr (ErrOther m) => Err m
      | inl processBytes =>
          match UnmarshalBinaryBare processBytes with
          | Fail m => Err m
          | Ret pv => Ok pv
          end
      | inr ErrKeyNotFound =>
          match isLiveResultsProcess processID with
          | Fail m => Err m
          | Ret isLive =>
              if negb isLive then Err ErrNoResultsYet
              else computeLiveResults MaxQuestions MaxOptions
                     UnmarshalBinaryBare encode s processID
          end
      end
  end.

End results.

(** *** Pruning, in plain words *)

(** [drop_trailing P l] is [l] without its longest suffix of elements
    on which [P] holds. *)
Fixpoint drop_trailing {A} (P : A -> bool) (l : list A) : list A :=
  match l with
  | [] => []
  | a :: rest =>
      match drop_trailing P rest with
      | [] => if P a then [] else [a]
      | t => a :: t
      end
  end.

Definition is_zero (c : Z) : bool := c =? 0.
Definition all_zero (r : list Z) : bool := forallb is_zero r.

(** A tally without the questions after the last one that has a vote,
    each remaining question without the options after its last option
    that has a vote. *)
Definition pruned (pv : ProcessVotes) : ProcessVotes :=
  drop_trailing is_zero <$> drop_trailing all_zero pv.

(** The counter of option [o] of question [q], if the tally has it. *)
Definition counter (pv : ProcessVotes) (q o : nat) : option Z :=
  r ← pv !! q; r !! o.

(** *** Envelopes that the end-of-process tally can count *)

Section envelopes.
Variable MaxQuestions : Z.
Variable MaxOptions : Z.
Variable MaxKeyIndex : Z.
Variable nacl_DecodePrivate : string -> outcome (list byte).
Variable nacl_Decrypt : list byte -> list byte -> outcome (list byte).
Variable json_Unmarshal : list byte -> outcome VotePackageStruct.
Variable State_Envelope : string -> string -> outcome Vote.

(** The envelope [e] of a process is missing or unreadable, or its
    vote package has at most [MaxQuestions] entries, each an option
    that is counted or dropped. *)
Definition envelope_fits (processID : string) (p : Process) (e : string) : Prop :=
  match State_Envelope processID e with
  | Fail _ => True
  | Ret v =>
      match envelope_votePackage MaxKeyIndex nacl_DecodePrivate nacl_Decrypt
              json_Unmarshal p v with
      | Ok vp => Z.of_nat (length (Votes vp)) <= MaxQuestions /\
                 Forall (counted_or_dropped MaxOptions) (Votes vp)
      | Err _ => True
      | Panic _ => False
      end
  end.

End envelopes.
End scrutinizer.

(** ** Sample values and stand-ins for the collaborators *)

Module samples.
Import types keykeeper.

(** A 65-byte signature whose recovery byte is 27, in hex. *)
Definition sample_sigHex : string :=
  hex.EncodeToString (replicate 64 x00 ++ [x1b]).

(** Keys with recognisable contents and a negative index. *)
Definition sample_processKeys : processKeys :=
  {| pubKey := replicate 32 x01;
     privKey := replicate 32 x02;
     revealKey := replicate 32 x03;
     commitmentKey := replicate 32 x04;
     index := -3 |}.

(** Stand-ins with the output sizes of the real functions: a "hash"
    that pads or cuts its input to 32 bytes, a "Poseidon" that adds the
    first input byte to the input length, a "signature" that is the
    digest followed by the low byte of the key. *)
Definition toy_keccak (data : list byte) : list byte :=
  take 32 (data ++ replicate 32 x00).
Definition toy_poseidon (b : list byte) : option Z :=
  Some (Z_of_byte (default x00 (head b)) + Z.of_nat (length b)).
Definition toy_BigIntToHash (n : Z) : list byte := replicate 32 (byte_of_Z n).
Definition toy_derivePublic (seed : list byte) : list byte := reverse seed.
Definition toy_sign (digest : list byte) (d : Z) : outcome (list byte) :=
  Ret (digest ++ [byte_of_Z d]).
Definition toy_json (tx : AdminTx) : outcome (list byte) :=
  Ret (String.list_byte_of_string
         ("{" +:+ tx_ProcessID tx +:+ "," +:+ tx_Signature tx +:+ "}")).
Definition toy_SendTX (before : list (list byte)) (txBytes : list byte)
    : outcome (Z * list byte) := Ret (0, []).

Definition sample_signer : signature.SignKeys :=
  {| signature.Public := None; signature.Private := Some 258;
     signature.Authorized := [] |}.

Definition sample_keeper : KeyKeeper :=
  {| storage := ∅; keyPool := ∅; blockPool := ∅; signer := sample_signer;
     myIndex := 1; sent := []; reveal_calls := []; draws := 0 |}.

Definition sample_generated : processKeys :=
  Eval vm_compute in
    match generateKeys toy_keccak toy_poseidon toy_BigIntToHash
            toy_derivePublic sample_keeper "ab01" with
    | Ok pk => pk
    | _ => zero_processKeys
    end.

(** The JSON bytes [{}]. *)
Definition sample_txBytes : list byte := String.list_byte_of_string "{}".

Definition sample_tx : AdminTx :=
  {| tx_Type := TxAddProcessKeys; tx_KeyIndex := 1; tx_Nonce := "00";
     tx_ProcessID := "ab01"; tx_EncryptionPublicKey := "";
     tx_CommitmentKey := ""; tx_EncryptionPrivateKey := "";
     tx_RevealKey := ""; tx_Signature := "" |}.

(** A process that needs keys, none of them published yet. *)
Definition sample_process : Process :=
  {| EncryptionPublicKeys := [""; ""]; CommitmentKeys := [""; ""];
     EncryptionPrivateKeys := [""; ""]; StartBlock := 10;
     NumberOfBlocks := 20; RequireKeys := true; IsEncrypted := true |}.

Definition toy_State_Process (pid : string) (committed : bool) : outcome Process :=
  Ret sample_process.
Definition toy_Marshal (pids : list string) : outcome (list byte) :=
  Ret (String.list_byte_of_string (String.concat "," pids)).
(** A bucket value holds one process id. *)
Definition toy_Unmarshal (data : list byte) : outcome (list string) :=
  Ret [String.string_of_list_byte data].
Definition toy_RandomHex (n : nat) : string := "00".

(** The keeper after [OnProcess] for the process [ab01]. *)
Definition sample_after_process : KeyKeeper :=
  set_pools sample_keeper (<["ab01" := Some sample_generated]> ∅)
    (<["ab01" := 30]> ∅).

(** A keeper at height 9 with a bucket for height 5 and one for
    height 10. *)
Definition sample_buckets : gmap string (list byte) :=
  <["b_5" := String.list_byte_of_string "aa"]>
    (<["b_10" := String.list_byte_of_string "bb"]>
       (<["p_aa" := Encode sample_processKeys]> ∅)).

Definition sample_bucket_keeper : KeyKeeper :=
  set_storage sample_keeper sample_buckets.

Definition toy_State_Header (committed : bool) : option Z := Some 9.

(** Stand-ins for the scrutinizer: a "cipher" whose layers are single
    bytes, removed by the key that starts with the same byte; a vote
    package whose bytes are the votes; a tally stored as its counters
    in sequence, read back in rows of three. *)
Definition toy_DecodePrivate (key : string) : outcome (list byte) :=
  Ret (String.list_byte_of_string key).
Definition toy_Decrypt (priv rawVote : list byte) : outcome (list byte) :=
  match priv, rawVote with
  | p :: _, b :: rest => if Byte.eqb p b then Ret rest else Fail "wrong key"
  | _, _ => Fail "wrong key"
  end.
Definition toy_json_Unmarshal (rawVote : list byte) : outcome VotePackageStruct :=
  Ret {| vp_Nonce := ""; vp_Type := ""; Votes := Z_of_byte <$> rawVote |}.
Definition toy_MarshalVotes (pv : scrutinizer.ProcessVotes) : outcome (list byte) :=
  Ret (byte_of_Z <$> mjoin pv).
Fixpoint rows_of_three (fuel : nat) (cs : list Z) : list (list Z) :=
  match fuel, cs with
  | S fuel', _ :: _ => take 3 cs :: rows_of_three fuel' (drop 3 cs)
  | _, _ => []
  end.
Definition toy_UnmarshalVotes (data : list byte) : outcome scrutinizer.ProcessVotes :=
  Ret (rows_of_three (length data) (Z_of_byte <$> data)).
Definition toy_Scrutinizer_Process (pid : string) : outcome Process :=
  Ret sample_process.
Definition toy_EnvelopeList (pid : string) : list string := ["n1"].
Definition toy_isLive (pid : string) : outcome bool := Ret true.
(** The storage keys [liveProcess:<pid>] and [results:<pid>]. *)
Definition toy_encode (t pid : string) : string := t +:+ ":" +:+ pid.

(** An envelope of process [ab01] whose package was encrypted with the
    key [A...] and then with the key [B...]; the plaintext holds the
    votes 1 and 7. *)
Definition sample_encrypted_vote : Vote :=
  {| ProcessID := Some "ab01"; Nullifier := "n1";
     VotePackage := String.list_byte_of_string "BA" ++ [x01; x07];
     EncryptionKeyIndexes := [1; 2] |}.

Definition sample_encrypted_process : Process :=
  {| EncryptionPublicKeys := [""; ""; ""]; CommitmentKeys := [""; ""; ""];
     EncryptionPrivateKeys := ["-"; "A1"; "B2"]; StartBlock := 10;
     NumberOfBlocks := 20; RequireKeys := true; IsEncrypted := true |}.

Definition toy_Envelope (pid nullifier : string) : outcome Vote :=
  Ret sample_encrypted_vote.

(** A plain process and its three envelopes, with the votes 0, 1
    and 1 on its only question. *)
Definition sample_plain_process : Process :=
  {| EncryptionPublicKeys := []; CommitmentKeys := [];
     EncryptionPrivateKeys := []; StartBlock := 0; NumberOfBlocks := 10;
     RequireKeys := false; IsEncrypted := false |}.

Definition toy_plain_EnvelopeList (pid : string) : list string := ["a"; "b"; "c"].

Definition toy_plain_Envelope (pid nullifier : string) : outcome Vote :=
  Ret {| ProcessID := Some pid; Nullifier := nullifier;
         VotePackage := if String.eqb nullifier "a" then [x00] else [x01];
         EncryptionKeyIndexes := [] |}.

(** A plain envelope with the votes 1 and 7, and one with three votes. *)
Definition sample_plain_vote : Vote :=
  {| ProcessID := Some "ab01"; Nullifier := "n1";
     VotePackage := [x01; x07]; EncryptionKeyIndexes := [] |}.


(** A scrutinizer storage with an empty live tally of two questions
    and three options for process [ab01]. *)
Definition sample_storage : scrutinizer.Storage :=
  <[toy_encode "liveProcess" "ab01" := replicate 6 x00]> ∅.

(** A storage that already holds results for process [ab01]. *)
Definition sample_computed_storage : scrutinizer.Storage :=
  <[toy_encode "results" "ab01" := replicate 6 x00]> sample_storage.


(** Stand-ins for the elliptic-curve functions: a "signature" of 65
    bytes, the digest, the low byte of the key 32 times and the
    recovery byte 1; a "recovered key" that is the byte 4 and the first
    64 bytes of the signature; a key pair read from the second byte. *)
Definition toy_sign65 (digest : list byte) (d : Z) : outcome (list byte) :=
  Ret (take 32 (digest ++ replicate 32 x00) ++ replicate 32 (byte_of_Z d)
       ++ [x01]).
Definition toy_SigToPub (hash sig : list byte) : outcome (list byte) :=
  Ret (x04 :: take 64 sig).
Definition toy_VerifySignature (pub hash sig : list byte) : bool :=
  (length sig =? 64)%nat.
Definition toy_UnmarshalPubkey (bs : list byte) : outcome (Z * Z) :=
  match bs with
  | _ :: b :: _ => Ret (Z_of_byte b, Z.of_nat (length bs))
  | _ => Fail "invalid public key"
  end.
Definition toy_PubkeyToAddress (pub : Z * Z) : list byte :=
  replicate 20 (byte_of_Z (fst pub)).
Definition toy_DecompressPubkey (comp : list byte) : outcome (Z * Z) :=
  match comp with
  | _ :: b :: _ => Ret (Z_of_byte b, 65)
  | _ => Fail "invalid public key"
  end.
Definition toy_FromECDSAPub (pub : Z * Z) : list byte :=
  x04 :: byte_of_Z (fst pub) :: replicate 63 x00.
Definition toy_json_string (message : string) : outcome (list byte) :=
  Ret (String.list_byte_of_string message).

Definition sample_msg : list byte := String.list_byte_of_string "vote".

(** The signature of [sample_msg] under the key of [sample_signer]. *)
Definition sample_sig : list byte :=
  Eval vm_compute in
    match toy_sign65 (signature.Hash toy_keccak sample_msg) 258 with
    | Ret sig => sig
    | Fail _ => []
    end.

Definition sample_pub : list byte := Eval vm_compute in x04 :: take 64 sample_sig.

(** The address the stand-ins give the signer of [sample_sig]. *)
Definition sample_addr : list byte :=
  Eval vm_compute in
    match toy_UnmarshalPubkey sample_pub with
    | Ret pub => toy_PubkeyToAddress pub
    | Fail _ => []
    end.

(** A compressed key of 33 bytes. *)
Definition sample_comp : list byte := x02 :: x07 :: replicate 31 x00.

(** Keys that authorize [sample_addr]. *)
Definition sample_verifier : signature.SignKeys :=
  {| signature.Public := None; signature.Private := None;
     signature.Authorized := [sample_addr] |}.

(** A stand-in for the amino codec on [[]string] that reads back what
    it writes: every character as the byte 1 and the character, every
    string closed by the byte 0. *)
Fixpoint toy_enc_string (s : string) : list byte :=
  match s with
  | EmptyString => [x00]
  | String c rest => x01 :: byte_of_ascii c :: toy_enc_string rest
  end.
Definition toy_codec_Marshal (pids : list string) : outcome (list byte) :=
  Ret (concat (toy_enc_string <$> pids)).
Fixpoint toy_dec (data : list byte) (cur : list ascii) (acc : list string)
    : outcome (list string) :=
  match data with
  | [] => match cur with
          | [] => Ret (rev acc)
          | _ => Fail "unexpected end of data"
          end
  | b :: rest =>
      if Byte.eqb b x00
      then toy_dec rest [] (string_of_list_ascii (rev cur) :: acc)
      else match rest with
           | c :: rest' => toy_dec rest' (ascii_of_byte c :: cur) acc
           | [] => Fail "unexpected end of data"
           end
  end.
Definition toy_codec_Unmarshal (data : list byte) : outcome (list string) :=
  toy_dec data [] [].

(** A keeper that holds the keys of the process [ab01]; the keeper
    after publishing [sample_processKeys] for [ab01]; and the pieces of
    the reveal transaction for these keys under the stand-ins. *)
Definition sample_stored_keeper : KeyKeeper :=
  set_storage sample_keeper (<["p_ab01" := Encode sample_processKeys]> ∅).

Definition sample_published : KeyKeeper :=
  fst (publishKeys toy_keccak toy_sign toy_json toy_SendTX toy_RandomHex
         sample_keeper (Some sample_processKeys) "ab01").

Definition sample_reveal_txBytes : list byte :=
  String.list_byte_of_string "{ab01,}".
Definition sample_reveal_sig : list byte :=
  signature.Hash toy_keccak sample_reveal_txBytes ++ [x02].
Definition sample_reveal_signed : list byte :=
  String.list_byte_of_string
    ("{ab01," +:+ hex.EncodeToString sample_reveal_sig +:+ "}").

Definition sample_revealed : KeyKeeper :=
  fst (revealKeys toy_keccak toy_sign toy_json toy_SendTX toy_RandomHex
         sample_stored_keeper "ab01").

(** The keeper after [OnCancel] for [ab01] at height 9, and after the
    [Commit] of that block. *)
Definition sample_cancelled : KeyKeeper :=
  match OnCancel toy_State_Process toy_State_Header sample_keeper "ab01" with
  | Ok k => k
  | _ => sample_keeper
  end.

Definition sample_commit (k : KeyKeeper) (height : Z) : KeyKeeper :=
  match Commit toy_keccak toy_sign toy_codec_Marshal toy_codec_Unmarshal
          toy_json toy_SendTX toy_RandomHex k height with
  | Ok k' => k'
  | _ => k
  end.

(** Stand-ins for the scrutinizer of a process without live results: a
    codec that refuses the tallies it would not read back, the plain
    process for every id, and the envelopes of [toy_plain_EnvelopeList]
    listed in another order. *)
Definition toy_checked_MarshalVotes (pv : scrutinizer.ProcessVotes)
    : outcome (list byte) :=
  match toy_UnmarshalVotes (byte_of_Z <$> mjoin pv) with
  | Ret pv' =>
      if bool_decide (pv' = pv) then Ret (byte_of_Z <$> mjoin pv)
      else Fail "tally cannot be stored"
  | Fail m => Fail m
  end.
Definition toy_plain_Process (pid : string) : outcome Process :=
  Ret sample_plain_process.
Definition toy_notLive (pid : string) : outcome bool := Ret false.
Definition toy_plain_EnvelopeList' (pid : string) : list string := ["c"; "a"; "b"].

(** The storage after the results of the plain process were computed. *)
Definition sample_plain_results : scrutinizer.Storage :=
  <[toy_encode "results" "ab01" := [x01; x02]]> ∅.

(** An envelope of the encrypted process whose key index is beyond the
    three private keys of the process. *)
Definition sample_bad_index_vote : Vote :=
  {| ProcessID := Some "ab01"; Nullifier := "n1";
     VotePackage := [x01]; EncryptionKeyIndexes := [7] |}.
Definition toy_bad_Envelope (pid nullifier : string) : outcome Vote :=
  Ret sample_bad_index_vote.

(** The storage after the results of the live process [ab01] were
    computed from [sample_storage]. *)
Definition sample_live_computed : scrutinizer.Storage :=
  <[toy_encode "results" "ab01" := []]>
    (delete (toy_encode "liveProcess" "ab01") sample_storage).

(** A keeper that holds the keys of the process [aa] and whose block
    pool schedules their reveal for the largest [int64] height, and
    that keeper after [scheduleRevealKeys]. *)
Definition sample_far_keeper : KeyKeeper :=
  set_pools
    (set_storage sample_keeper (<["p_aa" := Encode sample_processKeys]> ∅))
    ∅ (<["aa" := max_int64]> ∅).

Definition sample_far_scheduled : KeyKeeper :=
  scheduleRevealKeys toy_Marshal toy_Unmarshal sample_far_keeper.
End samples.

(** * Properties *)
(** *** Facts about the conversions *)

Lemma Z_of_byte_range b : 0 <= Z_of_byte b < 256.
Proof.
  unfold Z_of_byte. pose proof (Byte.to_N_bounded b) as H.
  split; [apply N2Z.is_nonneg|]. lia.
Qed.

Lemma Z_of_byte_of_Z n : Z_of_byte (byte_of_Z n) = n mod 256.
Proof.
  unfold Z_of_byte, byte_of_Z.
  assert (Hr : 0 <= n mod 256 < 256) by (apply Z.mod_pos_bound; lia).
  destruct (Byte.of_N (Z.to_N (n mod 256))) as [b|] eqn:E.
  - apply Byte.to_of_N in E. rewrite E. rewrite Z2N.id; lia.
  - apply Byte.of_N_None_iff in E. lia.
Qed.

Lemma byte_of_Z_of_byte b : byte_of_Z (Z_of_byte b) = b.
Proof.
  unfold byte_of_Z. pose proof (Z_of_byte_range b) as Hr.
  rewrite Z.mod_small by lia. unfold Z_of_byte.
  rewrite N2Z.id. now rewrite Byte.of_to_N.
Qed.

Lemma int8_of_byte_of_Z n : is_int8 n -> int8_of_byte (byte_of_Z n) = n.
Proof.
  unfold is_int8, int8_of_byte. intros Hn. rewrite Z_of_byte_of_Z.
  destruct (Z.leb_spec 128 (n mod 256)) as [H|H].
  - assert (n < 0) by (destruct (Z_lt_le_dec n 0); [lia|];
      rewrite Z.mod_small in H; lia).
    replace n with (n + 256 - 1 * 256) at 2 by lia.
    rewrite <- (Z_mod_plus_full n 1 256).
    rewrite Z.mod_small; lia.
  - destruct (Z_lt_le_dec n 0) as [Hneg|Hpos].
    + rewrite <- (Z_mod_plus_full n 1 256) in H.
      rewrite Z.mod_small in H; lia.
    + rewrite Z.mod_small; lia.
Qed.

Section copy_facts.
Context {A : Type}.
Implicit Types dst src data : list A.

Lemma length_copy dst src : length (copy dst src) = length dst.
Proof.
  unfold copy. rewrite length_app, length_take, length_drop. lia.
Qed.

(** Copying a source that covers the destination exactly. *)
Lemma copy_prefix dst src rest :
  length src = length dst -> copy dst (src ++ rest) = src.
Proof.
  intros H. unfold copy. rewrite <- H, take_app_length.
  rewrite drop_ge; [apply app_nil_r|]. rewrite length_app. lia.
Qed.

Lemma copy_same_length dst src :
  length src = length dst -> copy dst src = src.
Proof.
  intros H. rewrite <- (app_nil_r src) at 1. now apply copy_prefix.
Qed.

(** Copying a short source into the front of a longer destination. *)
Lemma copy_front src old rest :
  length old = length src -> copy (old ++ rest) src = src ++ rest.
Proof.
  intros H. unfold copy. rewrite take_ge by (rewrite length_app; lia).
  now rewrite <- H, drop_app_length.
Qed.

Lemma copy_at_app pre old rest src :
  length old = length src ->
  copy_at (length pre) (pre ++ old ++ rest) src = pre ++ src ++ rest.
Proof.
  intros H. unfold copy_at.
  rewrite take_app_length, drop_app_length. now rewrite copy_front.
Qed.
End copy_facts.

(** *** Facts about [hex] *)

Lemma hex_digits_of_byte b :
  hex.fromHexChar (hex.hexDigit (Z_of_byte b / 16)) = Some (Z_of_byte b / 16) /\
  hex.fromHexChar (hex.hexDigit (Z_of_byte b mod 16)) = Some (Z_of_byte b mod 16).
Proof. destruct b; split; reflexivity. Qed.

Lemma hex_Decode_Encode bs : hex.DecodeString (hex.EncodeToString bs) = Some bs.
Proof.
  induction bs as [|b bs IH]; [reflexivity|].
  cbn [hex.EncodeToString hex.DecodeString].
  destruct (hex_digits_of_byte b) as [-> ->]. rewrite IH.
  f_equal. f_equal.
  rewrite <- (byte_of_Z_of_byte b) at 3. f_equal.
  pose proof (Z.div_mod (Z_of_byte b) 16). lia.
Qed.

Lemma hex_Decode_length s bs :
  hex.DecodeString s = Some bs -> String.length s = (2 * length bs)%nat.
Proof.
  remember (String.length s) as n eqn:Hn.
  revert s bs Hn. induction n as [n IH] using lt_wf_ind.
  intros [|a [|b s]] bs Hn H.
  - injection H as <-. now subst.
  - discriminate.
  - cbn [hex.DecodeString] in H.
    destruct (hex.fromHexChar a), (hex.fromHexChar b); try discriminate.
    destruct (hex.DecodeString s) as [bs'|] eqn:E; [|discriminate].
    injection H as <-. cbn [String.length length] in *.
    specialize (IH (String.length s) ltac:(lia) s bs' eq_refl E). lia.
Qed.


(** ** Signatures *)

Lemma normalised_id_cases v :
  (In (Z_of_byte v) signature.recovery_ids /\
   (1 <? Z_of_byte (signature.normalised_id v)) = false /\
   signature.normalised_id v = byte_of_Z (Z_of_byte v mod 27)) \/
  (~ In (Z_of_byte v) signature.recovery_ids /\
   (1 <? Z_of_byte (signature.normalised_id v)) = true).
Proof.
  destruct v;
    first [ left; split; [cbv; tauto | split; reflexivity]
          | right; split; [cbv; intuition discriminate | reflexivity] ].
Qed.

Section signature_facts.
Variable Keccak256 : list byte -> list byte.
Variable crypto_Sign : list byte -> Z -> outcome (list byte).
Variable crypto_SigToPub : list byte -> list byte -> outcome (list byte).
Variable crypto_VerifySignature : list byte -> list byte -> list byte -> bool.

Local Abbreviation PubKeyFromSignature :=
  (signature.PubKeyFromSignature Keccak256 crypto_SigToPub).
Local Abbreviation Verify :=
  (signature.Verify Keccak256 crypto_SigToPub crypto_VerifySignature).
Local Abbreviation SignKeys_Verify :=
  (signature.SignKeys_Verify Keccak256 crypto_SigToPub crypto_VerifySignature).

(** What [PubKeyFromSignature] does once the length test and the hex
    decoding are passed. *)
Lemma PubKeyFromSignature_decoded msg sigHex sig v :
  (signature.SignatureLength <= String.length (util.TrimHex sigHex)
     <= signature.SignatureLength + 12)%nat ->
  hex.DecodeString (util.TrimHex sigHex) = Some sig ->
  sig !! 64%nat = Some v ->
  PubKeyFromSignature msg sigHex =
    if 1 <? Z_of_byte (signature.normalised_id v) then Err "bad recover ID byte"
    else pubKey ← lift (crypto_SigToPub (signature.Hash Keccak256 msg)
                          (<[64%nat := signature.normalised_id v]> sig));
         Ok (hex.EncodeToString pubKey).
Proof.
  intros [Hlo Hhi] Hdec Hv.
  unfold signature.PubKeyFromSignature.
  replace (String.length (util.TrimHex sigHex) <? signature.SignatureLength)%nat
    with false by (symmetry; apply Nat.ltb_ge; lia).
  replace (signature.SignatureLength + 12 <? String.length (util.TrimHex sigHex))%nat
    with false by (symmetry; apply Nat.ltb_ge; lia).
  cbn [orb]. rewrite Hdec, Hv. reflexivity.
Qed.

(** C6. For a signature of valid length whose hex decodes,
    [PubKeyFromSignature] can only succeed when the 65th byte is 0, 1,
    27 or 28; with one of these it goes on to the key recovery with the
    byte normalised to 0 or 1, and with any other value it returns the
    error "bad recover ID byte". *)
Theorem PubKeyFromSignature_recovery_byte msg sigHex sig v :
  (signature.SignatureLength <= String.length (util.TrimHex sigHex)
     <= signature.SignatureLength + 12)%nat ->
  hex.DecodeString (util.TrimHex sigHex) = Some sig ->
  sig !! 64%nat = Some v ->
  (is_Ok (PubKeyFromSignature msg sigHex) ->
     In (Z_of_byte v) signature.recovery_ids) /\
  (In (Z_of_byte v) signature.recovery_ids ->
     PubKeyFromSignature msg sigHex =
       (pubKey ← lift (crypto_SigToPub (signature.Hash Keccak256 msg)
                         (<[64%nat := byte_of_Z (Z_of_byte v mod 27)]> sig));
        Ok (hex.EncodeToString pubKey))) /\
  (~ In (Z_of_byte v) signature.recovery_ids ->
     PubKeyFromSignature msg sigHex = Err "bad recover ID byte").
Proof.
  intros Hlen Hdec Hv.
  rewrite (PubKeyFromSignature_decoded msg sigHex sig v Hlen Hdec Hv).
  destruct (normalised_id_cases v) as [(Hin & -> & Hn) | (Hout & ->)].
  - rewrite Hn. split; [auto|]. split; [auto|]. intros Hc. contradiction.
  - split; [intros [a Ha]; discriminate|].
    split; [intros Hc; contradiction|]. reflexivity.
Qed.

(** C9. The standalone [Verify] never looks at [pubHex]: two calls that
    differ only in the public key give the same result, which is the
    result of the method [Verify] on any receiver. *)
Theorem Verify_ignores_pubHex (message : list byte) (signHex p1 p2 : string)
    (k : signature.SignKeys) :
  Verify message signHex p1 = Verify message signHex p2 /\
  Verify message signHex p1 = SignKeys_Verify k message signHex.
Proof. split; reflexivity. Qed.

End signature_facts.

Lemma PubKeyFromSignature_recovery_byte_witness :
  let P := signature.PubKeyFromSignature (fun _ => []) (fun _ _ => Ret []) [] samples.sample_sigHex in
  (is_Ok P -> In 27 signature.recovery_ids) /\
  (In 27 signature.recovery_ids ->
     P = Ok (hex.EncodeToString [])) /\
  (~ In 27 signature.recovery_ids -> P = Err "bad recover ID byte").
Proof.
  exact (PubKeyFromSignature_recovery_byte (fun _ => []) (fun _ _ => Ret [])
           [] samples.sample_sigHex (replicate 64 x00 ++ [x1b]) x1b
           ltac:(vm_compute; lia) eq_refl eq_refl).
Defined.

(** ** Key keeper: the persisted form of [processKeys] *)

Section processKeys_codec.
Import keykeeper.

Lemma copy_at_len {A} (n : nat) (pre old rest src : list A) :
  length pre = n -> length old = length src ->
  copy_at n (pre ++ old ++ rest) src = pre ++ src ++ rest.
Proof. intros <- H. now apply copy_at_app. Qed.

Lemma Encode_layout pk :
  wf_processKeys pk ->
  Encode pk = pubKey pk ++ privKey pk ++ revealKey pk ++ commitmentKey pk
                ++ [byte_of_Z (index pk)].
Proof.
  intros (Hpub & Hpriv & Hrev & Hcom & _). unfold Encode.
  set (z := replicate 32 x00).
  change (make_bytes _) with ([] ++ z ++ (z ++ z ++ z ++ [x00])).
  rewrite (copy_at_len 0 [] z _ (pubKey pk)) by (rewrite ?Hpub; reflexivity).
  cbn [app].
  rewrite (copy_at_len encryptionKeySize (pubKey pk) z _ (privKey pk))
    by (rewrite ?Hpriv; auto).
  rewrite (app_assoc (pubKey pk) (privKey pk)).
  rewrite (copy_at_len _ (pubKey pk ++ privKey pk) z _ (revealKey pk))
    by (rewrite ?length_app, ?Hpub, ?Hpriv, ?Hrev; reflexivity).
  rewrite (app_assoc (pubKey pk ++ privKey pk) (revealKey pk)).
  rewrite (copy_at_len _ ((pubKey pk ++ privKey pk) ++ revealKey pk) z _
             (commitmentKey pk))
    by (rewrite ?length_app, ?Hpub, ?Hpriv, ?Hrev, ?Hcom; reflexivity).
  rewrite (app_assoc _ (commitmentKey pk)).
  rewrite insert_app_r_alt
    by (rewrite !length_app, Hpub, Hpriv, Hrev, Hcom; cbv; lia).
  rewrite !length_app, Hpub, Hpriv, Hrev, Hcom.
  change (128 - _)%nat with 0%nat. cbn [insert list_insert].
  now rewrite <- !app_assoc.
Qed.

Lemma Decode_layout pk0 pk :
  wf_processKeys pk0 -> wf_processKeys pk ->
  Decode pk0 (pubKey pk ++ privKey pk ++ revealKey pk ++ commitmentKey pk
                ++ [byte_of_Z (index pk)]) = Ok pk.
Proof.
  intros (Hpub0 & Hpriv0 & Hrev0 & Hcom0 & _) (Hpub & Hpriv & Hrev & Hcom & Hidx).
  unfold Decode.
  set (data := pubKey pk ++ _).
  assert (Hlen : length data = 129%nat).
  { unfold data. rewrite !length_app, Hpub, Hpriv, Hrev, Hcom. reflexivity. }
  rewrite Hlen. change (129 <? _)%nat with false. cbv iota.
  assert (Hd1 : drop encryptionKeySize data
                = privKey pk ++ revealKey pk ++ commitmentKey pk
                    ++ [byte_of_Z (index pk)]).
  { unfold data. rewrite <- Hpub. apply drop_app_length. }
  assert (Hd2 : drop (encryptionKeySize * 2) data
                = revealKey pk ++ commitmentKey pk ++ [byte_of_Z (index pk)]).
  { change (encryptionKeySize * 2)%nat with (encryptionKeySize + encryptionKeySize)%nat.
    rewrite <- drop_drop, Hd1. rewrite <- Hpriv at 1.
    apply drop_app_length. }
  assert (Hd3 : drop (encryptionKeySize * 2 + commitmentKeySize) data
                = commitmentKey pk ++ [byte_of_Z (index pk)]).
  { rewrite <- drop_drop, Hd2. rewrite <- Hrev at 1.
    apply drop_app_length. }
  assert (Hb : data !! (encryptionKeySize * 2 + commitmentKeySize
                          + commitmentKeySize)%nat
               = Some (byte_of_Z (index pk))).
  { rewrite <- lookup_drop, Hd3. now apply list_lookup_middle. }
  rewrite Hb, Hd1, Hd2, Hd3.
  unfold data.
  rewrite !copy_prefix by congruence.
  rewrite int8_of_byte_of_Z by assumption.
  now destruct pk.
Qed.

Lemma Decode_error_iff pk0 data :
  is_Err (Decode pk0 data) <-> (length data < 129)%nat.
Proof.
  unfold Decode.
  change (commitmentKeySize * 2 + encryptionKeySize * 2 + 1)%nat with 129%nat.
  destruct (Nat.ltb_spec (length data) 129) as [Hlt|Hge].
  - split; [auto|]. intros _. eexists. reflexivity.
  - destruct (lookup_lt_is_Some_2 data
                (encryptionKeySize * 2 + commitmentKeySize + commitmentKeySize))
      as [b Hb]; [change (_ + _)%nat with 128%nat; lia|].
    rewrite Hb. split; [intros [m Hm]; discriminate | lia].
Qed.

(** C8. [Encode] yields exactly 129 bytes,
    pubKey(32) ‖ privKey(32) ‖ revealKey(32) ‖ commitmentKey(32) ‖ index(1);
    [Decode], on whatever receiver, gives back the encoded keys; and
    [Decode] returns an error exactly on inputs shorter than 129 bytes. *)
Theorem processKeys_Encode_Decode (pk pk0 : processKeys) :
  wf_processKeys pk -> wf_processKeys pk0 ->
  Encode pk = pubKey pk ++ privKey pk ++ revealKey pk ++ commitmentKey pk
                ++ [byte_of_Z (index pk)] /\
  length (Encode pk) = 129%nat /\
  Decode pk0 (Encode pk) = Ok pk /\
  (forall data, is_Err (Decode pk0 data) <-> (length data < 129)%nat).
Proof.
  intros Hpk Hpk0. rewrite (Encode_layout pk Hpk).
  split; [reflexivity|]. split.
  - destruct Hpk as (Hpub & Hpriv & Hrev & Hcom & _).
    rewrite !length_app, Hpub, Hpriv, Hrev, Hcom. reflexivity.
  - split; [now apply Decode_layout | apply Decode_error_iff].
Qed.

End processKeys_codec.

Lemma sample_processKeys_wf : keykeeper.wf_processKeys samples.sample_processKeys.
Proof. repeat split; cbv; congruence. Qed.

Lemma zero_processKeys_wf : keykeeper.wf_processKeys keykeeper.zero_processKeys.
Proof. repeat split; cbv; congruence. Qed.

Lemma processKeys_Encode_Decode_witness :
  keykeeper.Encode samples.sample_processKeys
    = replicate 32 x01 ++ replicate 32 x02 ++ replicate 32 x03
        ++ replicate 32 x04 ++ [xfd] /\
  length (keykeeper.Encode samples.sample_processKeys) = 129%nat /\
  keykeeper.Decode keykeeper.zero_processKeys
    (keykeeper.Encode samples.sample_processKeys) = Ok samples.sample_processKeys /\
  (forall data, is_Err (keykeeper.Decode keykeeper.zero_processKeys data)
                <-> (length data < 129)%nat).
Proof.
  exact (processKeys_Encode_Decode samples.sample_processKeys keykeeper.zero_processKeys
           sample_processKeys_wf zero_processKeys_wf).
Defined.

(** ** Key keeper: key derivation and transaction signing *)

Section keeper_keys.
Import keykeeper.
Variable Keccak256 : list byte -> list byte.
Variable crypto_Sign : list byte -> Z -> outcome (list byte).
Variable poseidon_HashBytes : list byte -> option Z.
Variable BigIntToHash_Bytes : Z -> list byte.
Variable derivePublic : list byte -> list byte.
Variable json_Marshal : types.AdminTx -> outcome (list byte).
Variable SendTX : list (list byte) -> list byte -> outcome (Z * list byte).

Local Abbreviation HashPoseidon :=
  (signature.HashPoseidon poseidon_HashBytes BigIntToHash_Bytes).
Local Abbreviation generateKeys :=
  (keykeeper.generateKeys Keccak256 poseidon_HashBytes BigIntToHash_Bytes derivePublic).
Local Abbreviation Sign :=
  (signature.Sign Keccak256 crypto_Sign).
Local Abbreviation signAndSendTx :=
  (keykeeper.signAndSendTx Keccak256 crypto_Sign json_Marshal SendTX).
Local Abbreviation prefixed_digest :=
  (signature.prefixed_digest Keccak256).

(** The contract of the Poseidon library on key-sized inputs: a hash
    is 32 bytes long, and 32-byte inputs are hashed without error. *)
Hypothesis BigIntToHash_length :
  forall n, length (BigIntToHash_Bytes n) = commitmentKeySize.
Hypothesis poseidon_HashBytes_total :
  forall b, length b = encryptionKeySize -> is_Some (poseidon_HashBytes b).

Lemma HashPoseidon_length b :
  length b = encryptionKeySize -> length (HashPoseidon b) = commitmentKeySize.
Proof.
  intros Hb. unfold signature.HashPoseidon.
  destruct (poseidon_HashBytes_total b Hb) as [n ->]. apply BigIntToHash_length.
Qed.

(** C1. Whenever [generateKeys] produces keys for a process id, the
    private key is keccak256 of the keeper's private scalar followed by
    the decoded process id and the index byte, the reveal key is the
    Poseidon hash of the private key, and the commitment key is the
    Poseidon hash of the reveal key. *)
Theorem generateKeys_derivation_chain (k : KeyKeeper) (pid : string)
    (pk : processKeys) :
  generateKeys k pid = Ok pk ->
  exists d pb,
    signature.Private (signer k) = Some d /\
    hex.DecodeString pid = Some pb /\
    privKey pk = signature.HashRaw Keccak256
                   (big_Bytes d ++ pb ++ [byte_of_Z (myIndex k)]) /\
    revealKey pk = HashPoseidon (privKey pk) /\
    commitmentKey pk = HashPoseidon (revealKey pk).
Proof.
  unfold keykeeper.generateKeys, nacl_FromHex.
  destruct (hex.DecodeString pid) as [pb|] eqn:Hpid; [|discriminate].
  destruct (signature.Private (signer k)) as [d|] eqn:Hd; [|discriminate].
  rewrite hex_Decode_Encode.
  destruct (Nat.eqb_spec
    (length (signature.HashRaw Keccak256 (big_Bytes d ++ pb ++ [byte_of_Z (myIndex k)])))
    KeyLength) as [Hlen|Hlen]; [|discriminate].
  intros [= <-]. exists d, pb. cbn [privKey revealKey commitmentKey kp_Private].
  repeat split; try reflexivity.
  - apply copy_same_length. rewrite (HashPoseidon_length _ Hlen). reflexivity.
  - rewrite (copy_same_length _ (HashPoseidon (signature.HashRaw _ _)))
      by (rewrite (HashPoseidon_length _ Hlen); reflexivity).
    apply copy_same_length.
    rewrite (HashPoseidon_length _ (HashPoseidon_length _ Hlen)). reflexivity.
Qed.

Lemma signAndSendTx_sent (k : KeyKeeper) (tx : types.AdminTx)
    (txBytes sig signedBytes : list byte) (d : Z) :
  signature.Private (signer k) = Some d ->
  json_Marshal tx = Ret txBytes ->
  crypto_Sign (prefixed_digest txBytes) d = Ret sig ->
  json_Marshal (types.with_Signature tx (hex.EncodeToString sig)) = Ret signedBytes ->
  sent (fst (signAndSendTx k tx)) = sent k ++ [signedBytes].
Proof.
  intros Hd Htx Hsig Hsigned.
  unfold keykeeper.signAndSendTx, signature.Sign, signature.Hash, signature.HashRaw, signature.Hash_buf.
  rewrite Htx, Hd. fold (signature.prefixed_digest Keccak256 txBytes). rewrite Hsig.
  cbn. rewrite Hsigned.
  destruct (SendTX (sent k) signedBytes) as [[code data]|m]; [|reflexivity].
  destruct (code =? 0); reflexivity.
Qed.

(** C2 (amended). The signature of an internal transaction is computed
    by [Sign] over
    keccak256("\x19Ethereum Signed Message:\n" ‖ decimal(len(txBytes)) ‖ txBytes),
    with [txBytes] the JSON encoding of the transaction before it is
    signed, and [signAndSendTx] submits the transaction carrying that
    signature. *)
Theorem signAndSendTx_signs_prefixed_hash (k : KeyKeeper) (tx : types.AdminTx)
    (txBytes sig signedBytes : list byte) (d : Z) :
  signature.Private (signer k) = Some d ->
  json_Marshal tx = Ret txBytes ->
  crypto_Sign (prefixed_digest txBytes) d = Ret sig ->
  json_Marshal (types.with_Signature tx (hex.EncodeToString sig)) = Ret signedBytes ->
  Sign (signer k) txBytes = Ok (hex.EncodeToString sig) /\
  sent (fst (signAndSendTx k tx)) = sent k ++ [signedBytes].
Proof.
  intros Hd Htx Hsig Hsigned. split.
  - unfold signature.Sign, signature.Hash, signature.HashRaw, signature.Hash_buf.
    rewrite Hd. fold (signature.prefixed_digest Keccak256 txBytes). now rewrite Hsig.
  - now apply (signAndSendTx_sent k tx txBytes sig signedBytes d).
Qed.

End keeper_keys.

Lemma toy_BigIntToHash_length n :
  length (samples.toy_BigIntToHash n) = keykeeper.commitmentKeySize.
Proof. apply length_replicate. Qed.

Lemma toy_poseidon_total b :
  length b = keykeeper.encryptionKeySize -> is_Some (samples.toy_poseidon b).
Proof. intros _. eexists. reflexivity. Qed.

Lemma generateKeys_derivation_chain_witness :
  keykeeper.generateKeys samples.toy_keccak samples.toy_poseidon
    samples.toy_BigIntToHash samples.toy_derivePublic
    samples.sample_keeper "ab01" = Ok samples.sample_generated /\
  exists d pb,
    signature.Private (keykeeper.signer samples.sample_keeper) = Some d /\
    hex.DecodeString "ab01" = Some pb /\
    keykeeper.privKey samples.sample_generated
      = signature.HashRaw samples.toy_keccak
          (keykeeper.big_Bytes d ++ pb
             ++ [byte_of_Z (keykeeper.myIndex samples.sample_keeper)]) /\
    keykeeper.revealKey samples.sample_generated
      = signature.HashPoseidon samples.toy_poseidon samples.toy_BigIntToHash
          (keykeeper.privKey samples.sample_generated) /\
    keykeeper.commitmentKey samples.sample_generated
      = signature.HashPoseidon samples.toy_poseidon samples.toy_BigIntToHash
          (keykeeper.revealKey samples.sample_generated).
Proof.
  split; [vm_compute; reflexivity|].
  apply (generateKeys_derivation_chain samples.toy_keccak samples.toy_poseidon
           samples.toy_BigIntToHash samples.toy_derivePublic
           toy_BigIntToHash_length toy_poseidon_total
           samples.sample_keeper "ab01" samples.sample_generated).
  vm_compute. reflexivity.
Defined.

(** The signature the stand-in signer gives for [sample_tx], and the
    bytes submitted. *)
Lemma signAndSendTx_signs_prefixed_hash_witness :
  let sig := signature.prefixed_digest samples.toy_keccak
               (String.list_byte_of_string "{ab01,}") ++ [x02] in
  signature.Sign samples.toy_keccak samples.toy_sign samples.sample_signer
    (String.list_byte_of_string "{ab01,}") = Ok (hex.EncodeToString sig) /\
  keykeeper.sent
    (fst (keykeeper.signAndSendTx samples.toy_keccak samples.toy_sign
            samples.toy_json samples.toy_SendTX samples.sample_keeper
            samples.sample_tx))
  = keykeeper.sent samples.sample_keeper
    ++ [String.list_byte_of_string
          ("{ab01," +:+ hex.EncodeToString sig +:+ "}")].
Proof.
  intros sig.
  apply (signAndSendTx_signs_prefixed_hash samples.toy_keccak samples.toy_sign
           samples.toy_json samples.toy_SendTX samples.sample_keeper
           samples.sample_tx (String.list_byte_of_string "{ab01,}") sig _ 258);
    vm_compute; reflexivity.
Defined.

(** C2, as stated, fails: for the message [{}] the bytes hashed by
    [Hash] are the prefix, the length "2" and then the message, not the
    message alone; and with stand-ins that let the digest show through
    (a hash that pads to 32 bytes, a signature that begins with the
    digest), [Sign] does not return the signature of the hash of the
    bare message. *)
Lemma Sign_without_prefix_counterexample :
  signature.Hash_buf samples.sample_txBytes
    = String.list_byte_of_string
        (signature.SigningPrefix +:+ "2" +:+ "{}") /\
  signature.Hash_buf samples.sample_txBytes <> samples.sample_txBytes /\
  signature.Sign samples.toy_keccak samples.toy_sign samples.sample_signer
      samples.sample_txBytes
    <> (sig ← lift (samples.toy_sign
                      (signature.HashRaw samples.toy_keccak samples.sample_txBytes)
                      258);
        Ok (hex.EncodeToString sig)).
Proof.
  split; [vm_compute; reflexivity|].
  split; vm_compute; intros H; discriminate H.
Qed.

(** ** Key keeper: events *)

Section keeper_events.
Import types keykeeper.
Variable Keccak256 : list byte -> list byte.
Variable crypto_Sign : list byte -> Z -> outcome (list byte).
Variable poseidon_HashBytes : list byte -> option Z.
Variable BigIntToHash_Bytes : Z -> list byte.
Variable derivePublic : list byte -> list byte.
Variable State_Process : string -> bool -> outcome Process.
Variable State_Header : bool -> option Z.
Variable MarshalBinaryBare : list string -> outcome (list byte).
Variable UnmarshalBinaryBare : list byte -> outcome (list string).
Variable json_Marshal : AdminTx -> outcome (list byte).
Variable SendTX : list (list byte) -> list byte -> outcome (Z * list byte).
Variable RandomHex : nat -> string.

Local Abbreviation signAndSendTx :=
  (keykeeper.signAndSendTx Keccak256 crypto_Sign json_Marshal SendTX).
Local Abbreviation revealKeys :=
  (keykeeper.revealKeys Keccak256 crypto_Sign json_Marshal SendTX RandomHex).
Local Abbreviation reveal_all :=
  (keykeeper.reveal_all Keccak256 crypto_Sign json_Marshal SendTX RandomHex).
Local Abbreviation OnProcess :=
  (keykeeper.OnProcess Keccak256 poseidon_HashBytes BigIntToHash_Bytes derivePublic State_Process).
Local Abbreviation scheduleRevealKeys :=
  (keykeeper.scheduleRevealKeys MarshalBinaryBare UnmarshalBinaryBare).
Local Abbreviation checkRevealProcess :=
  (keykeeper.checkRevealProcess Keccak256 crypto_Sign UnmarshalBinaryBare json_Marshal SendTX RandomHex).
Local Abbreviation publishPendingKeys :=
  (keykeeper.publishPendingKeys Keccak256 crypto_Sign json_Marshal SendTX RandomHex).
Local Abbreviation Commit :=
  (keykeeper.Commit Keccak256 crypto_Sign MarshalBinaryBare UnmarshalBinaryBare json_Marshal SendTX RandomHex).
Local Abbreviation RevealUnpublished :=
  (keykeeper.RevealUnpublished Keccak256 crypto_Sign State_Header UnmarshalBinaryBare json_Marshal SendTX RandomHex).
Local Abbreviation RevealUnpublished_step :=
  (keykeeper.RevealUnpublished_step Keccak256 crypto_Sign UnmarshalBinaryBare json_Marshal SendTX RandomHex).

(** What a call leaves untouched. *)
Lemma signAndSendTx_frame k tx :
  let k' := fst (signAndSendTx k tx) in
  storage k' = storage k /\ keyPool k' = keyPool k /\
  blockPool k' = blockPool k /\ reveal_calls k' = reveal_calls k.
Proof.
  unfold keykeeper.signAndSendTx.
  destruct (json_Marshal tx); [|cbn; auto].
  destruct (signature.Sign _ _ _ _); [|cbn; auto..].
  destruct (json_Marshal _); [|cbn; auto].
  destruct (SendTX _ _) as [[code data]|]; [|cbn; auto].
  destruct (code =? 0); cbn; auto.
Qed.

Lemma revealKeys_frame k pid :
  let k' := fst (revealKeys k pid) in
  keyPool k' = keyPool k /\ blockPool k' = blockPool k /\
  reveal_calls k' = reveal_calls k ++ [pid].
Proof.
  unfold keykeeper.revealKeys. cbn [storage set_ghost].
  destruct (storage k !! _) as [data|]; [|cbn; auto].
  destruct (length data =? 0)%nat; [cbn; auto|].
  destruct (Decode zero_processKeys data) as [pk|m|m]; [|cbn; auto..].
  destruct (_ && _); [cbn; auto|].
  match goal with |- context [keykeeper.signAndSendTx _ _ _ _ ?k0 ?tx] =>
    pose proof (signAndSendTx_frame k0 tx) as Hf;
    destruct (keykeeper.signAndSendTx Keccak256 crypto_Sign json_Marshal SendTX k0 tx)
      as [k1 [[]|m|m]]
  end; cbn in Hf |- *; destruct Hf as (_ & -> & -> & ->); auto.
Qed.

Lemma reveal_all_frame pids : forall k,
  keyPool (reveal_all k pids) = keyPool k /\
  blockPool (reveal_all k pids) = blockPool k /\
  reveal_calls (reveal_all k pids) = reveal_calls k ++ pids.
Proof.
  unfold keykeeper.reveal_all.
  induction pids as [|p pids IH]; intros k.
  - cbn. now rewrite app_nil_r.
  - cbn [foldl].
    destruct (IH (fst (keykeeper.revealKeys Keccak256 crypto_Sign json_Marshal
                         SendTX RandomHex k p))) as (-> & -> & ->).
    destruct (revealKeys_frame k p) as (-> & -> & ->).
    now rewrite <- app_assoc.
Qed.

Lemma checkRevealProcess_pools k height :
  keyPool (checkRevealProcess k height) = keyPool k /\
  blockPool (checkRevealProcess k height) = blockPool k.
Proof.
  unfold keykeeper.checkRevealProcess.
  destruct (storage k !! _) as [data|]; [|auto].
  destruct (UnmarshalBinaryBare data) as [pids|]; [|auto].
  cbn [keyPool blockPool set_storage].
  destruct (reveal_all_frame pids k) as (-> & -> & _). auto.
Qed.



End keeper_events.


(** ** Key keeper: the rescue of unpublished reveals *)

Lemma add64_exact a b :
  min_int64 <= a + b <= max_int64 -> add64 a b = a + b.
Proof.
  unfold add64, wrap64, min_int64, max_int64. intros H.
  rewrite Z.mod_small; lia.
Qed.

Lemma digit_range c d : strconv.digit c = Some d -> 0 <= d <= 9.
Proof.
  unfold strconv.digit.
  destruct (Z.leb_spec 48 (Z.of_N (N_of_ascii c)));
    destruct (Z.leb_spec (Z.of_N (N_of_ascii c)) 57); cbn [andb];
    intros [= <-]; lia.
Qed.

Lemma parse_digits_nonneg s : forall acc n,
  0 <= acc -> strconv.parse_digits s acc = Some n -> 0 <= n.
Proof.
  induction s as [|c s IH]; intros acc n Hacc; cbn [strconv.parse_digits].
  - now intros [= <-].
  - destruct (strconv.digit c) as [d|] eqn:Hd; [|discriminate].
    apply digit_range in Hd. apply IH. lia.
Qed.

Lemma ParseInt_range s h :
  strconv.ParseInt s = Some h -> min_int64 <= h <= max_int64.
Proof.
  unfold strconv.ParseInt, min_int64, max_int64.
  destruct s as [|c rest]; [discriminate|].
  destruct (if Ascii.eqb c "+" then (false, rest)
            else if Ascii.eqb c "-" then (true, rest)
            else (false, String c rest)) as [neg body].
  destruct body as [|c' body']; [discriminate|].
  destruct (strconv.parse_digits (String c' body') 0) as [un|] eqn:Hun;
    [|discriminate].
  apply parse_digits_nonneg in Hun; [|lia].
  destruct neg.
  - destruct (Z.leb_spec un (2 ^ 63)); intros [= <-]; lia.
  - destruct (Z.ltb_spec un (2 ^ 63)); intros [= <-]; lia.
Qed.

(** Reading back a number printed with [%d]. *)
Lemma digit_pretty_N_char x :
  (x < 10)%N -> strconv.digit (pretty_N_char x) = Some (Z.of_N x).
Proof.
  intros H. do 10 (destruct x as [|x] using N.peano_ind; [reflexivity|]).
  lia.
Qed.

Lemma parse_digits_pretty_N_go x : forall s acc,
  exists k, strconv.parse_digits (pretty_N_go x s) acc
            = strconv.parse_digits s (acc * 10 ^ k + Z.of_N x) /\ 0 <= k.
Proof.
  induction x as [x IH] using (well_founded_induction N.lt_wf_0).
  intros s acc. destruct (N.eq_dec x 0%N) as [->|Hx].
  - exists 0. rewrite pretty_N_go_0. split; [f_equal; lia | lia].
  - rewrite pretty_N_go_step by lia.
    destruct (IH (x `div` 10)%N ltac:(apply N.div_lt; lia)
                (String (pretty_N_char (x `mod` 10)) s) acc) as (k & -> & Hk).
    exists (k + 1). split; [|lia].
    cbn [strconv.parse_digits].
    rewrite digit_pretty_N_char by (apply N.mod_lt; lia).
    f_equal. rewrite Z.pow_add_r, Z.pow_1_r by lia.
    pose proof (N.div_mod x 10%N ltac:(lia)) as Hdm.
    apply (f_equal Z.of_N) in Hdm.
    rewrite N2Z.inj_add, N2Z.inj_mul in Hdm. change (Z.of_N 10) with 10 in Hdm.
    lia.
Qed.

Lemma parse_digits_pretty_N x :
  strconv.parse_digits (pretty x) 0 = Some (Z.of_N x) /\ pretty x <> EmptyString.
Proof.
  unfold pretty, pretty_N. destruct (decide (x = 0%N)) as [->|Hx].
  - split; [reflexivity|discriminate].
  - destruct (parse_digits_pretty_N_go x EmptyString 0) as (k & Hk & _).
    rewrite Hk. split; [reflexivity|].
    intros Hempty. rewrite Hempty in Hk. cbn in Hk. injection Hk. lia.
Qed.

Lemma ParseInt_FormatInt h :
  min_int64 <= h <= max_int64 ->
  strconv.ParseInt (strconv.FormatInt h) = Some h.
Proof.
  unfold min_int64, max_int64, strconv.FormatInt, pretty, pretty_Z.
  intros Hh. destruct h as [|p|p].
  - reflexivity.
  - destruct (parse_digits_pretty_N (N.pos p)) as [Hparse Hne].
    change (pretty p) with (pretty (N.pos p)).
    destruct (pretty (N.pos p)) as [|c rest] eqn:Hs; [contradiction|].
    unfold strconv.ParseInt.
    assert (Hc : Ascii.eqb c "+" = false /\ Ascii.eqb c "-" = false).
    { cbn [strconv.parse_digits] in Hparse.
      split; apply Ascii.eqb_neq; intros ->; discriminate Hparse. }
    destruct Hc as [-> ->]. rewrite Hparse. cbn [Z.of_N].
    now replace (Z.pos p <? 2 ^ 63) with true by (symmetry; apply Z.ltb_lt; lia).
  - destruct (parse_digits_pretty_N (N.pos p)) as [Hparse Hne].
    change (pretty p) with (pretty (N.pos p)).
    destruct (pretty (N.pos p)) as [|c rest] eqn:Hs; [contradiction|].
    unfold strconv.ParseInt.
    change ("-" +:+ String c rest) with (String "-" (String c rest)).
    cbv iota beta.
    replace (Ascii.eqb "-" "+") with false by reflexivity.
    replace (Ascii.eqb "-" "-") with true by reflexivity.
    rewrite Hparse. cbn [Z.of_N].
    now replace (Z.pos p <=? 2 ^ 63) with true by (symmetry; apply Z.leb_le; lia).
Qed.

(** The key [scheduleRevealKeys] writes for a height is read back by
    [RevealUnpublished] as that height. *)
Lemma bucket_height_of_key h :
  min_int64 <= h <= max_int64 ->
  keykeeper.bucket_height (keykeeper.dbPrefixBlock +:+ strconv.FormatInt h)
    = Some h.
Proof.
  intros Hh. unfold keykeeper.bucket_height.
  change (keykeeper.dbPrefixBlock +:+ strconv.FormatInt h)
    with (String "b" (String "_" (strconv.FormatInt h))).
  replace (HasPrefix _ keykeeper.dbPrefixBlock) with true
    by (now destruct (strconv.FormatInt h)).
  cbn [string_drop String.length keykeeper.dbPrefixBlock].
  now apply ParseInt_FormatInt.
Qed.

Section keeper_rescue.
Import types keykeeper.
Variable Keccak256 : list byte -> list byte.
Variable crypto_Sign : list byte -> Z -> outcome (list byte).
Variable State_Header : bool -> option Z.
Variable UnmarshalBinaryBare : list byte -> outcome (list string).
Variable json_Marshal : AdminTx -> outcome (list byte).
Variable SendTX : list (list byte) -> list byte -> outcome (Z * list byte).
Variable RandomHex : nat -> string.

Local Abbreviation reveal_all :=
  (keykeeper.reveal_all Keccak256 crypto_Sign json_Marshal SendTX RandomHex).
Local Abbreviation RevealUnpublished :=
  (keykeeper.RevealUnpublished Keccak256 crypto_Sign State_Header
     UnmarshalBinaryBare json_Marshal SendTX RandomHex).
Local Abbreviation RevealUnpublished_step :=
  (keykeeper.RevealUnpublished_step Keccak256 crypto_Sign UnmarshalBinaryBare
     json_Marshal SendTX RandomHex).
Local Abbreviation due_pids := (keykeeper.due_pids UnmarshalBinaryBare).

(** A bucket that is not due is passed over. *)
Lemma RevealUnpublished_step_skip height k key value h :
  bucket_height key = Some h -> h + 2 <= max_int64 -> height <= h + 2 ->
  RevealUnpublished_step height k (key, value) = k.
Proof.
  unfold bucket_height, keykeeper.RevealUnpublished_step.
  destruct (HasPrefix key dbPrefixBlock); [|discriminate]. cbn [negb].
  intros Hh Hmax Hle. rewrite Hh.
  apply ParseInt_range in Hh. unfold min_int64 in Hh.
  rewrite add64_exact by (unfold min_int64; lia).
  now replace (height <=? h + 2) with true by (symmetry; apply Z.leb_le; lia).
Qed.

(** One round of the loop calls [revealKeys] on the process ids of a
    due bucket, in their order, and on nothing else. *)
Lemma RevealUnpublished_step_calls height k entry :
  (forall h, bucket_height (fst entry) = Some h -> h + 2 <= max_int64) ->
  reveal_calls (RevealUnpublished_step height k entry)
    = reveal_calls k ++ due_pids height entry.
Proof.
  destruct entry as [key value]. cbn [fst]. intros Hmax.
  unfold keykeeper.RevealUnpublished_step, keykeeper.due_pids, bucket_height in *.
  cbn [fst snd].
  destruct (HasPrefix key dbPrefixBlock); cbn [negb];
    [|now rewrite app_nil_r].
  destruct (strconv.ParseInt _) as [h|] eqn:Hh; [|now rewrite app_nil_r].
  specialize (Hmax h eq_refl). apply ParseInt_range in Hh.
  rewrite add64_exact by (unfold min_int64 in *; lia).
  destruct (Z.leb_spec height (h + 2)) as [Hle|Hlt].
  - replace (h + 2 <? height) with false by (symmetry; apply Z.ltb_ge; lia).
    destruct (UnmarshalBinaryBare value); now rewrite app_nil_r.
  - replace (h + 2 <? height) with true by (symmetry; apply Z.ltb_lt; lia).
    destruct (UnmarshalBinaryBare value) as [pids|]; [|now rewrite app_nil_r].
    apply (reveal_all_frame Keccak256 crypto_Sign json_Marshal SendTX RandomHex).
Qed.

Lemma RevealUnpublished_loop_calls height entries : forall k,
  (forall key value h, (key, value) ∈ entries ->
     bucket_height key = Some h -> h + 2 <= max_int64) ->
  reveal_calls (foldl (RevealUnpublished_step height) k entries)
    = reveal_calls k ++ (entries ≫= due_pids height).
Proof.
  induction entries as [|[key value] entries IH]; intros k Hmax.
  - cbn. now rewrite app_nil_r.
  - cbn [foldl mbind list_bind]. rewrite IH.
    + rewrite RevealUnpublished_step_calls.
      * now rewrite <- app_assoc.
      * intros h. apply (Hmax key value h). left.
    + intros key' value' h Hin. apply (Hmax key' value' h). now right.
Qed.

(** Away from the largest heights: with the chain header at
    [currentHeight], and no bucket so close to the largest [int64]
    that [h + 2] would wrap around, [RevealUnpublished] calls
    [revealKeys] exactly on the process ids listed in the buckets
    [b_<h>] with [h + 2 < currentHeight]; a bucket with
    [h + 2 >= currentHeight] is passed over.  The bucket key written
    for a height [h] is read back as [h]. *)
Theorem RevealUnpublished_due_buckets (k : KeyKeeper) (currentHeight : Z) :
  State_Header true = Some currentHeight ->
  (forall key h, is_Some (storage k !! key) ->
     bucket_height key = Some h -> h + 2 <= max_int64) ->
  (forall h, min_int64 <= h <= max_int64 ->
     bucket_height (dbPrefixBlock +:+ strconv.FormatInt h) = Some h) /\
  (exists new,
     reveal_calls (RevealUnpublished k) = reveal_calls k ++ new /\
     forall pid, pid ∈ new <->
       exists key value h pids,
         storage k !! key = Some value /\
         bucket_height key = Some h /\
         UnmarshalBinaryBare value = Ret pids /\
         h + 2 < currentHeight /\
         pid ∈ pids) /\
  (forall k' key value h,
     storage k !! key = Some value -> bucket_height key = Some h ->
     currentHeight <= h + 2 ->
     RevealUnpublished_step currentHeight k' (key, value) = k').
Proof.
  intros Hheader Hmax. split; [apply bucket_height_of_key|]. split.
  - exists (map_to_list (storage k) ≫= due_pids currentHeight). split.
    + unfold keykeeper.RevealUnpublished. rewrite Hheader.
      apply RevealUnpublished_loop_calls.
      intros key value h Hin%elem_of_map_to_list. apply Hmax. eauto.
    + intros pid. rewrite list_elem_of_bind. split.
      * intros ([key value] & Hpid & Hin%elem_of_map_to_list).
        unfold keykeeper.due_pids in Hpid. cbn [fst snd] in Hpid.
        destruct (bucket_height key) as [h|] eqn:Hh;
          [|now apply elem_of_nil in Hpid].
        destruct (UnmarshalBinaryBare value) as [pids|] eqn:Hpids;
          [|now apply elem_of_nil in Hpid].
        destruct (Z.ltb_spec (h + 2) currentHeight);
          [|now apply elem_of_nil in Hpid].
        exists key, value, h, pids. auto.
      * intros (key & value & h & pids & Hin & Hh & Hpids & Hlt & Hpid).
        exists (key, value). split; [|now apply elem_of_map_to_list].
        unfold keykeeper.due_pids. cbn [fst snd]. rewrite Hh, Hpids.
        now replace (h + 2 <? currentHeight) with true
          by (symmetry; apply Z.ltb_lt; lia).
  - intros k' key value h Hin Hh Hle.
    apply (RevealUnpublished_step_skip currentHeight k' key value h Hh);
      [|exact Hle].
    apply (Hmax key h); eauto.
Qed.

End keeper_rescue.

Lemma sample_buckets_heights key h :
  is_Some (keykeeper.storage samples.sample_bucket_keeper !! key) ->
  keykeeper.bucket_height key = Some h -> h + 2 <= max_int64.
Proof.
  unfold samples.sample_bucket_keeper, samples.sample_buckets.
  cbn [keykeeper.storage keykeeper.set_storage].
  rewrite !lookup_insert_is_Some, lookup_empty.
  intros [<-|[_ [<-|[_ [<-|[_ Hs]]]]]] Hb;
    [vm_compute in Hb;
     first [discriminate Hb | injection Hb as <-; vm_compute; discriminate] ..
    | destruct Hs; discriminate].
Qed.

(** At height 9 the bucket of height 5 is due and the one of height 10
    is not: [revealKeys] is called on [aa] only. *)
Lemma RevealUnpublished_due_buckets_witness :
  keykeeper.reveal_calls
    (keykeeper.RevealUnpublished samples.toy_keccak samples.toy_sign
       samples.toy_State_Header samples.toy_Unmarshal samples.toy_json
       samples.toy_SendTX samples.toy_RandomHex samples.sample_bucket_keeper)
    = ["aa"] /\
  (exists new,
     keykeeper.reveal_calls
       (keykeeper.RevealUnpublished samples.toy_keccak samples.toy_sign
          samples.toy_State_Header samples.toy_Unmarshal samples.toy_json
          samples.toy_SendTX samples.toy_RandomHex samples.sample_bucket_keeper)
     = keykeeper.reveal_calls samples.sample_bucket_keeper ++ new /\
     forall pid, pid ∈ new <->
       exists key value h pids,
         keykeeper.storage samples.sample_bucket_keeper !! key = Some value /\
         keykeeper.bucket_height key = Some h /\
         samples.toy_Unmarshal value = Ret pids /\
         h + 2 < 9 /\
         pid ∈ pids).
Proof.
  split; [vm_compute; reflexivity|].
  exact (proj1 (proj2
           (RevealUnpublished_due_buckets samples.toy_keccak samples.toy_sign
              samples.toy_State_Header samples.toy_Unmarshal samples.toy_json
              samples.toy_SendTX samples.toy_RandomHex
              samples.sample_bucket_keeper 9 eq_refl sample_buckets_heights))).
Defined.

(** C7. The rescue at the largest height: the scheduler writes the
    bucket [b_9223372036854775807] for a process whose reveal height
    is the largest [int64]; with the chain header at height 9 the
    bucket is not due, [h + 2 >= 9], but the [int64] sum [h+2] of the
    loop wraps around to a negative number, the test
    [header.Height <= h+2] fails, and [RevealUnpublished] calls
    [revealKeys] for the process of the bucket. *)
Theorem RevealUnpublished_overflow_bucket :
  keykeeper.blockPool samples.sample_far_keeper !! "aa" = Some max_int64 /\
  keykeeper.storage samples.sample_far_scheduled !! "b_9223372036854775807"
    = Some (String.list_byte_of_string "aa") /\
  samples.toy_Unmarshal (String.list_byte_of_string "aa") = Ret ["aa"] /\
  keykeeper.bucket_height "b_9223372036854775807" = Some max_int64 /\
  samples.toy_State_Header true = Some 9 /\
  9 <= max_int64 + 2 /\
  add64 max_int64 2 < 9 /\
  keykeeper.reveal_calls samples.sample_far_scheduled = [] /\
  keykeeper.reveal_calls
    (keykeeper.RevealUnpublished samples.toy_keccak samples.toy_sign
       samples.toy_State_Header samples.toy_Unmarshal samples.toy_json
       samples.toy_SendTX samples.toy_RandomHex samples.sample_far_scheduled)
  = ["aa"].
Proof.
  repeat split; try (vm_compute; reflexivity).
  vm_compute. discriminate.
Qed.

(** ** Scrutinizer *)

Section scrutinizer_facts.
Import types scrutinizer.
Variable MaxQuestions : Z.
Variable MaxOptions : Z.
Variable MaxKeyIndex : Z.
Variable nacl_DecodePrivate : string -> outcome (list byte).
Variable nacl_Decrypt : list byte -> list byte -> outcome (list byte).
Variable json_Unmarshal : list byte -> outcome VotePackageStruct.
Variable MarshalBinaryBare : ProcessVotes -> outcome (list byte).
Variable UnmarshalBinaryBare : list byte -> outcome ProcessVotes.
Variable State_Process : string -> outcome Process.
Variable State_EnvelopeList : string -> list string.
Variable State_Envelope : string -> string -> outcome Vote.
Variable isLiveResultsProcess : string -> outcome bool.
Variable encode : string -> string -> string.

Local Abbreviation decrypt_loop := (scrutinizer.decrypt_loop nacl_DecodePrivate nacl_Decrypt).
Local Abbreviation decrypt_in_order :=
  (scrutinizer.decrypt_in_order nacl_DecodePrivate nacl_Decrypt).
Local Abbreviation parse_vote := (scrutinizer.parse_vote json_Unmarshal).
Local Abbreviation unmarshalVote :=
  (scrutinizer.unmarshalVote nacl_DecodePrivate nacl_Decrypt json_Unmarshal).
Local Abbreviation envelope_keys := (scrutinizer.envelope_keys MaxKeyIndex).
Local Abbreviation envelope_votePackage :=
  (scrutinizer.envelope_votePackage MaxKeyIndex nacl_DecodePrivate nacl_Decrypt
     json_Unmarshal).
Local Abbreviation tally := (scrutinizer.tally MaxOptions).
Local Abbreviation count_vote := (scrutinizer.count_vote MaxOptions).
Local Abbreviation count_votes := (scrutinizer.count_votes MaxOptions).
Local Abbreviation well_shaped := (scrutinizer.well_shaped MaxQuestions MaxOptions).
Local Abbreviation counted_or_dropped := (scrutinizer.counted_or_dropped MaxOptions).
Local Abbreviation addLiveResultsVote :=
  (scrutinizer.addLiveResultsVote MaxQuestions MaxOptions nacl_DecodePrivate
     nacl_Decrypt json_Unmarshal MarshalBinaryBare UnmarshalBinaryBare encode).
Local Abbreviation computeNonLiveResults_step :=
  (scrutinizer.computeNonLiveResults_step MaxOptions MaxKeyIndex
     nacl_DecodePrivate nacl_Decrypt json_Unmarshal State_Envelope).
Local Abbreviation ComputeResult :=
  (scrutinizer.ComputeResult MaxQuestions MaxOptions MaxKeyIndex
     nacl_DecodePrivate nacl_Decrypt json_Unmarshal MarshalBinaryBare
     UnmarshalBinaryBare State_Process State_EnvelopeList State_Envelope
     isLiveResultsProcess encode).

(** C5. When the storage already holds [results:<pid>], [ComputeResult]
    returns an error and the storage is the one it was called with. *)
Theorem ComputeResult_already_computed (s : Storage) (processID : string) :
  is_Some (s !! encode "results" processID) ->
  fst (ComputeResult s processID) = s /\
  is_Err (snd (ComputeResult s processID)).
Proof.
  intros [result Hresult]. unfold scrutinizer.ComputeResult.
  destruct (State_Process processID) as [p|m].
  - unfold Storage_Get. rewrite Hresult. split; [reflexivity|].
    eexists. reflexivity.
  - split; [reflexivity|]. eexists. reflexivity.
Qed.

(** *** Decryption order *)

(** The loop of [unmarshalVote], started at [n], applies the first [n]
    keys from the last to the first. *)
Lemma decrypt_loop_reverse keys : forall n rawVote,
  (n <= length keys)%nat ->
  decrypt_loop keys n rawVote = decrypt_in_order (reverse (take n keys)) rawVote.
Proof.
  induction n as [|i IH]; intros rawVote Hn; [reflexivity|].
  destruct (lookup_lt_is_Some_2 keys i) as [key Hkey]; [lia|].
  rewrite (take_S_r keys i key Hkey), reverse_snoc.
  cbn [scrutinizer.decrypt_loop scrutinizer.decrypt_in_order]. rewrite Hkey.
  destruct (nacl_DecodePrivate key) as [priv|]; [|reflexivity].
  destruct (nacl_Decrypt priv rawVote) as [raw'|]; [|reflexivity].
  apply IH. lia.
Qed.

Lemma unmarshalVote_reverse votePackage keys :
  unmarshalVote votePackage keys =
    (rawVote ← decrypt_in_order (reverse keys) votePackage; parse_vote rawVote).
Proof.
  unfold scrutinizer.unmarshalVote.
  rewrite copy_same_length by (unfold make_bytes; now rewrite length_replicate).
  destruct keys as [|key keys]; [reflexivity|].
  replace (0 <? length (key :: keys))%nat with true by reflexivity.
  rewrite decrypt_loop_reverse by lia. now rewrite firstn_all.
Qed.

(** The keys [computeNonLiveResults] gathers for the indexes of an
    envelope. *)
Lemma envelope_keys_referenced p indexes keys : forall acc,
  Forall2 (fun k key => 0 <= k < MaxKeyIndex /\
                        EncryptionPrivateKeys p !! Z.to_nat k = Some key)
          indexes keys ->
  envelope_keys p indexes acc = Ok (acc ++ keys).
Proof.
  intros acc H. revert acc.
  induction H as [|k key indexes keys [Hk Hkey] _ IH]; intros acc.
  - cbn. now rewrite app_nil_r.
  - cbn [scrutinizer.envelope_keys].
    replace (MaxKeyIndex <=? k) with false by (symmetry; apply Z.leb_gt; lia).
    unfold index_string.
    replace (k <? 0) with false by (symmetry; apply Z.ltb_ge; lia).
    rewrite Hkey. cbn [mbind res_bind bind]. rewrite IH.
    now rewrite <- app_assoc.
Qed.

(** C3. For an envelope of an encrypted process whose
    [encryptionKeyIndexes] [k1 .. kn] reference the private keys
    [key1 .. keyn], the vote package is decrypted with [keyn] first and
    [key1] last, and the result of that is what is parsed as JSON; and
    this holds for the envelope of every nullifier the tally visits. *)
Theorem computeNonLiveResults_decrypts_in_reverse (p : Process) (v : Vote)
    (keys : list string) :
  IsEncrypted p = true ->
  Forall2 (fun k key => 0 <= k < MaxKeyIndex /\
                        EncryptionPrivateKeys p !! Z.to_nat k = Some key)
          (EncryptionKeyIndexes v) keys ->
  keys <> [] ->
  (length (EncryptionKeyIndexes v) <= length (EncryptionPrivateKeys p))%nat ->
  unmarshalVote (VotePackage v) keys =
    (rawVote ← decrypt_in_order (reverse keys) (VotePackage v);
     parse_vote rawVote) /\
  envelope_votePackage p v = unmarshalVote (VotePackage v) keys /\
  (forall processID pv e,
     State_Envelope processID e = Ret v ->
     computeNonLiveResults_step processID p (Ok pv) e =
       match rawVote ← decrypt_in_order (reverse keys) (VotePackage v);
             parse_vote rawVote with
       | Ok vp => tally pv 0%nat (Votes vp)
       | Err _ => Ok pv
       | Panic m => Panic m
       end).
Proof.
  intros Henc Hkeys Hne Hlen.
  assert (Hvp : envelope_votePackage p v = unmarshalVote (VotePackage v) keys).
  { unfold scrutinizer.envelope_votePackage. rewrite Henc.
    replace (length (EncryptionPrivateKeys p) <? length (EncryptionKeyIndexes v))%nat
      with false by (symmetry; apply Nat.ltb_ge; lia).
    rewrite (envelope_keys_referenced p _ keys [] Hkeys). cbn [app].
    destruct keys; [contradiction|reflexivity]. }
  split; [apply unmarshalVote_reverse|]. split; [exact Hvp|].
  intros processID pv e He.
  unfold scrutinizer.computeNonLiveResults_step. cbn [mbind res_bind bind].
  rewrite He, Hvp, unmarshalVote_reverse. reflexivity.
Qed.

End scrutinizer_facts.

(** *** The tally of one vote package *)

Section scrutinizer_tally.
Import types scrutinizer.
Variable MaxQuestions : Z.
Variable MaxOptions : Z.
Variable MaxKeyIndex : Z.
Variable nacl_DecodePrivate : string -> outcome (list byte).
Variable nacl_Decrypt : list byte -> list byte -> outcome (list byte).
Variable json_Unmarshal : list byte -> outcome VotePackageStruct.
Variable MarshalBinaryBare : ProcessVotes -> outcome (list byte).
Variable UnmarshalBinaryBare : list byte -> outcome ProcessVotes.
Variable State_Envelope : string -> string -> outcome Vote.
Variable encode : string -> string -> string.

Local Abbreviation unmarshalVote :=
  (scrutinizer.unmarshalVote nacl_DecodePrivate nacl_Decrypt json_Unmarshal).
Local Abbreviation envelope_votePackage :=
  (scrutinizer.envelope_votePackage MaxKeyIndex nacl_DecodePrivate nacl_Decrypt
     json_Unmarshal).
Local Abbreviation tally := (scrutinizer.tally MaxOptions).
Local Abbreviation count_vote := (scrutinizer.count_vote MaxOptions).
Local Abbreviation count_votes := (scrutinizer.count_votes MaxOptions).
Local Abbreviation well_shaped := (scrutinizer.well_shaped MaxQuestions MaxOptions).
Local Abbreviation counted_or_dropped := (scrutinizer.counted_or_dropped MaxOptions).
Local Abbreviation addLiveResultsVote :=
  (scrutinizer.addLiveResultsVote MaxQuestions MaxOptions nacl_DecodePrivate
     nacl_Decrypt json_Unmarshal MarshalBinaryBare UnmarshalBinaryBare encode).
Local Abbreviation computeNonLiveResults_step :=
  (scrutinizer.computeNonLiveResults_step MaxOptions MaxKeyIndex
     nacl_DecodePrivate nacl_Decrypt json_Unmarshal State_Envelope).

Lemma count_vote_overflow r opt : MaxOptions < opt -> count_vote r opt = r.
Proof.
  intros H. unfold scrutinizer.count_vote.
  replace (opt <? MaxOptions) with false by (symmetry; apply Z.ltb_ge; lia).
  now rewrite andb_false_r.
Qed.

Lemma count_vote_counted r opt c :
  0 <= opt < MaxOptions -> r !! Z.to_nat opt = Some c ->
  count_vote r opt = <[Z.to_nat opt := incr32 c]> r.
Proof.
  intros [H0 H1] Hc. unfold scrutinizer.count_vote.
  replace (0 <=? opt) with true by (symmetry; apply Z.leb_le; lia).
  replace (opt <? MaxOptions) with true by (symmetry; apply Z.ltb_lt; lia).
  cbn [andb]. rewrite list_insert_alter.
  apply list_alter_ext; [|reflexivity]. intros c' Hc'. congruence.
Qed.

Lemma length_count_vote r opt : length (count_vote r opt) = length r.
Proof.
  unfold scrutinizer.count_vote. destruct (_ && _); [apply length_alter|reflexivity].
Qed.

Lemma count_votes_shape pv votes :
  well_shaped pv -> well_shaped (count_votes pv votes).
Proof.
  intros [Hlen Hrows]. split.
  - rewrite <- Hlen. clear Hlen Hrows. revert votes.
    induction pv as [|r pv IH]; intros [|opt votes]; cbn; auto.
  - clear Hlen. revert votes.
    induction Hrows as [|r pv Hr Hrows IH]; intros [|opt votes];
      cbn [scrutinizer.count_votes]; auto.
    constructor; [now rewrite length_count_vote | apply IH].
Qed.

(** The loop counts the votes of a package row by row, without
    stopping, when no option value falls on [MaxOptions] itself or
    below zero and the package has no more entries than there are
    rows. *)
Lemma tally_counts votes : forall pre rows,
  (length votes <= length rows)%nat ->
  Forall (fun r => length r = Z.to_nat MaxOptions) rows ->
  Forall counted_or_dropped votes ->
  tally (pre ++ rows) (length pre) votes = Ok (pre ++ count_votes rows votes).
Proof.
  induction votes as [|opt rest IH]; intros pre rows Hlen Hrows Hvotes.
  - destruct rows; reflexivity.
  - destruct rows as [|r rows']; [cbn in Hlen; lia|].
    apply Forall_cons in Hrows as [Hr Hrows'].
    apply Forall_cons in Hvotes as [Hopt Hrest].
    cbn [scrutinizer.tally scrutinizer.count_votes].
    assert (Hnext : forall r', tally (pre ++ r' :: rows') (S (length pre)) rest
                      = Ok (pre ++ r' :: count_votes rows' rest)).
    { intros r'. rewrite !(cons_middle r' pre), !app_assoc.
      replace (S (length pre)) with (length (pre ++ [r']))
        by (rewrite length_app; cbn; lia).
      apply IH; [cbn in Hlen; lia | assumption..]. }
    destruct (Z.ltb_spec MaxOptions opt) as [Hover|Hin].
    + rewrite count_vote_overflow by assumption. apply Hnext.
    + destruct Hopt as [?|[H0 H1]]; [lia|].
      rewrite (list_lookup_middle pre rows' r (length pre) eq_refl).
      replace (opt <? 0) with false by (symmetry; apply Z.ltb_ge; lia).
      destruct (lookup_lt_is_Some_2 r (Z.to_nat opt)) as [c Hc]; [lia|].
      rewrite Hc, (count_vote_counted r opt c) by auto.
      rewrite insert_app_r_alt, Nat.sub_diag by lia. cbn [insert list_insert].
      apply Hnext.
Qed.

Lemma tally_well_shaped pv votes :
  well_shaped pv ->
  Z.of_nat (length votes) <= MaxQuestions ->
  Forall counted_or_dropped votes ->
  tally pv 0%nat votes = Ok (count_votes pv votes).
Proof.
  intros [Hlen Hrows] Hq Hvotes.
  apply (tally_counts votes [] pv); [lia | assumption..].
Qed.






End scrutinizer_tally.

(** *** The properties on sample values *)

Lemma ComputeResult_already_computed_witness :
  let r := scrutinizer.ComputeResult 2 3 4 samples.toy_DecodePrivate
             samples.toy_Decrypt samples.toy_json_Unmarshal
             samples.toy_MarshalVotes samples.toy_UnmarshalVotes
             samples.toy_Scrutinizer_Process samples.toy_EnvelopeList
             samples.toy_Envelope samples.toy_isLive samples.toy_encode
             samples.sample_computed_storage "ab01" in
  fst r = samples.sample_computed_storage /\ is_Err (snd r).
Proof.
  apply (ComputeResult_already_computed 2 3 4 samples.toy_DecodePrivate
           samples.toy_Decrypt samples.toy_json_Unmarshal
           samples.toy_MarshalVotes samples.toy_UnmarshalVotes
           samples.toy_Scrutinizer_Process samples.toy_EnvelopeList
           samples.toy_Envelope samples.toy_isLive samples.toy_encode).
  exists (replicate 6 x00). apply lookup_insert_eq.
Defined.

Lemma sample_keys_referenced :
  Forall2 (fun k key => 0 <= k < 4 /\
             types.EncryptionPrivateKeys samples.sample_encrypted_process
               !! Z.to_nat k = Some key)
          (types.EncryptionKeyIndexes samples.sample_encrypted_vote)
          ["A1"; "B2"].
Proof. repeat constructor; cbn; lia. Qed.

(** The sample package was encrypted with [A1] and then with [B2]: it
    opens with [B2] first and [A1] last, giving the votes 1 and 7, and
    does not open in the order of encryption. *)
Lemma computeNonLiveResults_decrypts_in_reverse_witness :
  scrutinizer.envelope_votePackage 4 samples.toy_DecodePrivate
    samples.toy_Decrypt samples.toy_json_Unmarshal
    samples.sample_encrypted_process samples.sample_encrypted_vote
  = Ok {| types.vp_Nonce := ""; types.vp_Type := ""; types.Votes := [1; 7] |} /\
  scrutinizer.decrypt_in_order samples.toy_DecodePrivate samples.toy_Decrypt
    ["A1"; "B2"] (types.VotePackage samples.sample_encrypted_vote)
  = Err "cannot decrypt vote with index key" /\
  scrutinizer.unmarshalVote samples.toy_DecodePrivate samples.toy_Decrypt
    samples.toy_json_Unmarshal
    (types.VotePackage samples.sample_encrypted_vote) ["A1"; "B2"]
  = (rawVote ← scrutinizer.decrypt_in_order samples.toy_DecodePrivate
                 samples.toy_Decrypt (reverse ["A1"; "B2"])
                 (types.VotePackage samples.sample_encrypted_vote);
     scrutinizer.parse_vote samples.toy_json_Unmarshal rawVote).
Proof.
  split; [vm_compute; reflexivity|]. split; [vm_compute; reflexivity|].
  apply (computeNonLiveResults_decrypts_in_reverse 3 4
           samples.toy_DecodePrivate samples.toy_Decrypt
           samples.toy_json_Unmarshal samples.toy_Envelope
           samples.sample_encrypted_process samples.sample_encrypted_vote
           ["A1"; "B2"] eq_refl sample_keys_referenced).
  - discriminate.
  - cbn. lia.
Defined.



(** The end-of-process tally of the three envelopes with the votes 0,
    1 and 1, pruned: [[1, 2]]. *)
Example computeNonLiveResults_three_votes :
  scrutinizer.computeNonLiveResults 4 5 16 samples.toy_DecodePrivate
    samples.toy_Decrypt samples.toy_json_Unmarshal
    samples.toy_plain_EnvelopeList samples.toy_plain_Envelope
    "ab01" samples.sample_plain_process
  = Ok [[1; 2]].
Proof. reflexivity. Qed.

Example pruneVoteResult_trailing_zeros :
  scrutinizer.pruneVoteResult 3 3 [[0; 0; 0]; [0; 5; 0]; [0; 0; 0]]
  = Ok [[]; [0; 5]].
Proof. reflexivity. Qed.

(** Outside the amended statement: an option value equal to
    [MaxOptions], and in the end-of-process tally an entry beyond the
    last question, index out of range. *)
Example tally_option_at_MaxOptions :
  scrutinizer.tally 3 [[0; 0; 0]; [0; 0; 0]] 0 [3]
  = Panic "index out of range".
Proof. reflexivity. Qed.

Example tally_question_beyond_MaxQuestions :
  scrutinizer.tally 3 (scrutinizer.emptyProcess 2 3) 0 [1; 0; 2]
  = Panic "index out of range".
Proof. reflexivity. Qed.

(** * Further properties *)

(** ** Signatures: hex strings, recovery and verification *)

Lemma hex_Encode_length bs :
  String.length (hex.EncodeToString bs) = (2 * length bs)%nat.
Proof. induction bs as [|b bs IH]; cbn [hex.EncodeToString String.length length]; lia. Qed.

Lemma hexDigit_low_not_x b : hex.hexDigit (Z_of_byte b mod 16) <> "x"%char.
Proof. destruct b; discriminate. Qed.

(** The output of [%x] never starts with [0x]. *)
Lemma TrimHex_Encode bs :
  util.TrimHex (hex.EncodeToString bs) = hex.EncodeToString bs.
Proof.
  destruct bs as [|b bs]; [reflexivity|]. cbn [hex.EncodeToString].
  unfold util.TrimHex.
  pose proof (hexDigit_low_not_x b) as Hx.
  destruct (hex.hexDigit (Z_of_byte b / 16)) as [[] [] [] [] [] [] [] []];
    try reflexivity.
  destruct (hex.hexDigit (Z_of_byte b mod 16)) as [[] [] [] [] [] [] [] []];
    try reflexivity.
  contradiction.
Qed.

Lemma hex_Decode_0x s : hex.DecodeString ("0x" +:+ s) = None.
Proof. reflexivity. Qed.

Lemma TrimHex_0x s : util.TrimHex ("0x" +:+ s) = s.
Proof. reflexivity. Qed.

Lemma list_byte_of_string_app s t :
  String.list_byte_of_string (s +:+ t)
  = String.list_byte_of_string s ++ String.list_byte_of_string t.
Proof.
  unfold String.list_byte_of_string.
  induction s as [|c s IH]; [reflexivity|].
  change (String c s +:+ t) with (String c (s +:+ t)).
  cbn [list_ascii_of_string List.map app]. f_equal. exact IH.
Qed.

Lemma length_list_byte_of_string s :
  length (String.list_byte_of_string s) = String.length s.
Proof.
  unfold String.list_byte_of_string.
  induction s as [|c s IH]; [reflexivity|].
  cbn [list_ascii_of_string List.map length String.length]. f_equal. exact IH.
Qed.

Section signature_more.
Variable Keccak256 : list byte -> list byte.
Variable crypto_Sign : list byte -> Z -> outcome (list byte).
Variable crypto_SigToPub : list byte -> list byte -> outcome (list byte).
Variable crypto_VerifySignature : list byte -> list byte -> list byte -> bool.
Variable crypto_UnmarshalPubkey : list byte -> outcome (Z * Z).
Variable crypto_PubkeyToAddress : Z * Z -> list byte.
Variable crypto_DecompressPubkey : list byte -> outcome (Z * Z).
Variable crypto_FromECDSAPub : Z * Z -> list byte.
Variable Msg : Type.
Variable json_Marshal : Msg -> outcome (list byte).

Local Abbreviation Hash := (signature.Hash Keccak256).
Local Abbreviation Sign := (signature.Sign Keccak256 crypto_Sign).
Local Abbreviation SignJSON :=
  (signature.SignJSON Keccak256 crypto_Sign Msg json_Marshal).
Local Abbreviation PubKeyFromSignature :=
  (signature.PubKeyFromSignature Keccak256 crypto_SigToPub).
Local Abbreviation SignKeys_Verify :=
  (signature.SignKeys_Verify Keccak256 crypto_SigToPub crypto_VerifySignature).
Local Abbreviation Verify :=
  (signature.Verify Keccak256 crypto_SigToPub crypto_VerifySignature).
Local Abbreviation AddrFromSignature :=
  (signature.AddrFromSignature Keccak256 crypto_SigToPub crypto_UnmarshalPubkey
     crypto_PubkeyToAddress).
Local Abbreviation AddrFromPublicKey :=
  (signature.AddrFromPublicKey crypto_UnmarshalPubkey crypto_PubkeyToAddress
     crypto_DecompressPubkey crypto_FromECDSAPub).
Local Abbreviation VerifySender :=
  (signature.VerifySender Keccak256 crypto_SigToPub crypto_UnmarshalPubkey
     crypto_PubkeyToAddress).

Lemma PubKeyFromSignature_no_panic (msg : list byte) (sigHex : string) m :
  PubKeyFromSignature msg sigHex <> Panic m.
Proof.
  unfold signature.PubKeyFromSignature.
  destruct (Nat.ltb_spec (String.length (util.TrimHex sigHex))
              signature.SignatureLength) as [Hlo|Hlo]; [discriminate|].
  destruct (Nat.ltb_spec (signature.SignatureLength + 12)
              (String.length (util.TrimHex sigHex))) as [Hhi|Hhi];
    [discriminate|]. cbn [orb].
  destruct (hex.DecodeString (util.TrimHex sigHex)) as [sig|] eqn:Hdec;
    [|discriminate].
  apply hex_Decode_length in Hdec.
  destruct (lookup_lt_is_Some_2 sig 64) as [v ->];
    [unfold signature.SignatureLength in Hlo; lia|].
  destruct (1 <? Z_of_byte _); [discriminate|].
  destruct (crypto_SigToPub _ _); discriminate.
Qed.

(** X1. [PubKeyFromSignature] indexes [sig[64]] only after the length test
    on the hex string has made sure the byte is there: whatever the
    message and the signature string, it returns a key or an error, it
    never panics. *)
Theorem PubKeyFromSignature_never_panics (msg : list byte) (sigHex : string) :
  is_Ok (PubKeyFromSignature msg sigHex) \/
  is_Err (PubKeyFromSignature msg sigHex).
Proof.
  destruct (PubKeyFromSignature msg sigHex) as [pubHex|m|m] eqn:H.
  - left. now exists pubHex.
  - right. now exists m.
  - now destruct (PubKeyFromSignature_no_panic msg sigHex m).
Qed.

(** Recovery from the hex form of a 65-byte signature whose last byte
    is 0 or 1. *)
Lemma PubKeyFromSignature_of_hex (msg sig : list byte) (v : byte) :
  length sig = 65%nat -> sig !! 64%nat = Some v -> Z_of_byte v <= 1 ->
  PubKeyFromSignature msg (hex.EncodeToString sig) =
    (pubKey ← lift (crypto_SigToPub (Hash msg) sig);
     Ok (hex.EncodeToString pubKey)).
Proof.
  intros Hlen Hv Hle.
  rewrite (PubKeyFromSignature_decoded Keccak256 crypto_SigToPub msg
             (hex.EncodeToString sig) sig v).
  - unfold signature.normalised_id.
    replace (1 <? Z_of_byte v) with false by (symmetry; apply Z.ltb_ge; lia).
    replace (1 <? Z_of_byte v) with false by (symmetry; apply Z.ltb_ge; lia).
    now rewrite list_insert_id.
  - rewrite TrimHex_Encode, hex_Encode_length, Hlen.
    unfold signature.SignatureLength. lia.
  - rewrite TrimHex_Encode. apply hex_Decode_Encode.
  - exact Hv.
Qed.

Lemma SignKeys_Verify_0x (k : signature.SignKeys) (msg : list byte) (s : string) :
  is_Err (SignKeys_Verify k msg ("0x" +:+ s)).
Proof.
  unfold signature.SignKeys_Verify.
  destruct (PubKeyFromSignature msg (util.TrimHex ("0x" +:+ s)))
    as [pubHex'|m|m] eqn:Hrec.
  - cbn [mbind res_bind bind]. rewrite hex_Decode_0x. eexists. reflexivity.
  - eexists. reflexivity.
  - now destruct (PubKeyFromSignature_no_panic msg
                    (util.TrimHex ("0x" +:+ s)) m).
Qed.

(** X2. Signing, recovering and verifying fit together: when
    [crypto.Sign] returns the usual 65 bytes with a recovery byte 0 or
    1, the string [Sign] returns is accepted by [PubKeyFromSignature],
    which recovers with the same digest and the same 65 bytes, and
    [Verify] checks the first 64 bytes against the recovered key. *)
Theorem Sign_then_recover_and_verify (k k' : signature.SignKeys)
    (msg sig pub : list byte) (d : Z) (v : byte) :
  signature.Private k = Some d ->
  crypto_Sign (Hash msg) d = Ret sig ->
  length sig = 65%nat -> sig !! 64%nat = Some v -> Z_of_byte v <= 1 ->
  crypto_SigToPub (Hash msg) sig = Ret pub ->
  Sign k msg = Ok (hex.EncodeToString sig) /\
  PubKeyFromSignature msg (hex.EncodeToString sig)
    = Ok (hex.EncodeToString pub) /\
  SignKeys_Verify k' msg (hex.EncodeToString sig)
    = Ok (crypto_VerifySignature pub (Hash msg) (take 64 sig)).
Proof.
  intros Hd Hsig Hlen Hv Hle Hpub.
  assert (Hrec : PubKeyFromSignature msg (hex.EncodeToString sig)
                 = Ok (hex.EncodeToString pub)).
  { rewrite (PubKeyFromSignature_of_hex msg sig v Hlen Hv Hle), Hpub.
    reflexivity. }
  split; [unfold signature.Sign; now rewrite Hd, Hsig|].
  split; [exact Hrec|].
  unfold signature.SignKeys_Verify.
  rewrite TrimHex_Encode, Hrec. cbn [mbind res_bind bind].
  rewrite !hex_Decode_Encode, Hlen. reflexivity.
Qed.

(** X3. The method [Verify] decodes [signHex] without trimming it: a
    signature written with the [0x] prefix is never verified, it always
    ends in an error, for the method and for the standalone function. *)
Theorem Verify_rejects_0x_signatures (k : signature.SignKeys)
    (msg : list byte) (s pubHex : string) :
  is_Err (SignKeys_Verify k msg ("0x" +:+ s)) /\
  is_Err (Verify msg ("0x" +:+ s) pubHex).
Proof.
  split; [apply SignKeys_Verify_0x|].
  unfold signature.Verify. apply SignKeys_Verify_0x.
Qed.

(** X4. [SignJSON] writes the prefix that the method [Verify] refuses:
    when the message marshals and [crypto.Sign] returns 65 bytes with a
    recovery byte 0 or 1, the string [SignJSON] returns is [0x] and the
    hex of the signature, [PubKeyFromSignature] recovers the signer's
    key from it, and [Verify] on it is an error. *)
Theorem SignJSON_recovered_but_not_verified (k k' : signature.SignKeys)
    (message : Msg) (rawMsg sig pub : list byte) (d : Z) (v : byte) :
  json_Marshal message = Ret rawMsg ->
  signature.Private k = Some d ->
  crypto_Sign (Hash rawMsg) d = Ret sig ->
  length sig = 65%nat -> sig !! 64%nat = Some v -> Z_of_byte v <= 1 ->
  crypto_SigToPub (Hash rawMsg) sig = Ret pub ->
  SignJSON k message = Ok ("0x" +:+ hex.EncodeToString sig) /\
  PubKeyFromSignature rawMsg ("0x" +:+ hex.EncodeToString sig)
    = Ok (hex.EncodeToString pub) /\
  is_Err (SignKeys_Verify k' rawMsg ("0x" +:+ hex.EncodeToString sig)).
Proof.
  intros Hjson Hd Hsig Hlen Hv Hle Hpub.
  split; [|split].
  - unfold signature.SignJSON, signature.Sign.
    rewrite Hjson, Hd, Hsig. cbn [lift mbind res_bind bind]. now rewrite TrimHex_Encode.
  - transitivity (PubKeyFromSignature rawMsg (hex.EncodeToString sig)).
    + unfold signature.PubKeyFromSignature.
      now rewrite TrimHex_0x, TrimHex_Encode.
    + rewrite (PubKeyFromSignature_of_hex rawMsg sig v Hlen Hv Hle), Hpub.
      reflexivity.
  - apply SignKeys_Verify_0x.
Qed.

(** What [PubKeyFromSignature] returns is the hex form of some bytes. *)
Lemma PubKeyFromSignature_is_hex (msg : list byte) (sigHex pubHex : string) :
  PubKeyFromSignature msg sigHex = Ok pubHex ->
  exists pubKey, pubHex = hex.EncodeToString pubKey.
Proof.
  unfold signature.PubKeyFromSignature.
  destruct (_ || _); [discriminate|].
  destruct (hex.DecodeString _) as [sig|]; [|discriminate].
  destruct (sig !! 64%nat) as [v|]; [|discriminate].
  cbn zeta. destruct (1 <? Z_of_byte _); [discriminate|].
  destruct (crypto_SigToPub _ _) as [pubKey|]; [|discriminate].
  cbn [lift mbind res_bind bind]. intros [= <-]. now exists pubKey.
Qed.

(** X5. The address recovered from a signature is the address of the
    recovered public key: when the recovered key is longer than a
    compressed one (it is the 65-byte uncompressed form),
    [AddrFromSignature] returns what [AddrFromPublicKey] returns on
    the string [PubKeyFromSignature] gives. *)
Theorem AddrFromSignature_is_AddrFromPublicKey (msg : list byte)
    (sigHex pubHex : string) :
  PubKeyFromSignature msg sigHex = Ok pubHex ->
  (signature.PubKeyLength < String.length pubHex)%nat ->
  AddrFromSignature msg sigHex = AddrFromPublicKey pubHex.
Proof.
  intros Hrec Hlen.
  destruct (PubKeyFromSignature_is_hex msg sigHex pubHex Hrec) as [pubKey ->].
  unfold signature.AddrFromSignature, signature.AddrFromPublicKey,
    signature.hexToPubKey.
  rewrite Hrec. cbn [mbind res_bind bind].
  replace (String.length (hex.EncodeToString pubKey) <=? signature.PubKeyLength)%nat
    with false by (symmetry; apply Nat.leb_gt; exact Hlen).
  cbn [mbind res_bind bind].
  now rewrite TrimHex_Encode, hex_Decode_Encode.
Qed.

(** X6. [AddrFromPublicKey] trims the prefix only on the branch for strings
    of at most 66 characters: a key of more than 32 bytes written with
    [0x], compressed or not, is longer and is decoded with its prefix,
    which is an error. *)
Theorem AddrFromPublicKey_rejects_0x_keys (s : string) :
  (64 < String.length s)%nat ->
  AddrFromPublicKey ("0x" +:+ s) = Err "encoding/hex: invalid string".
Proof.
  intros Hlen. unfold signature.AddrFromPublicKey.
  replace (String.length ("0x" +:+ s) <=? signature.PubKeyLength)%nat
    with false.
  - cbn [mbind res_bind bind]. now rewrite hex_Decode_0x.
  - symmetry. apply Nat.leb_gt. unfold signature.PubKeyLength.
    change ("0x" +:+ s) with (String "0" (String "x" s)).
    cbn [String.length]. lia.
Qed.

(** X7. A compressed key and the uncompressed form of the same key get the
    same address: given 33 bytes that [crypto.DecompressPubkey]
    accepts, and a [crypto.UnmarshalPubkey] that reads back the 65
    bytes [crypto.FromECDSAPub] writes. *)
Theorem AddrFromPublicKey_compressed (comp : list byte) (pub : Z * Z) :
  length comp = 33%nat ->
  crypto_DecompressPubkey comp = Ret pub ->
  length (crypto_FromECDSAPub pub) = 65%nat ->
  crypto_UnmarshalPubkey (crypto_FromECDSAPub pub) = Ret pub ->
  AddrFromPublicKey (hex.EncodeToString comp)
    = Ok (hex.EncodeToString (crypto_PubkeyToAddress pub)) /\
  AddrFromPublicKey (hex.EncodeToString (crypto_FromECDSAPub pub))
    = Ok (hex.EncodeToString (crypto_PubkeyToAddress pub)).
Proof.
  intros Hcomp Hdec Hlen Hun. unfold signature.AddrFromPublicKey. split.
  - replace (String.length (hex.EncodeToString comp) <=? signature.PubKeyLength)%nat
      with true
      by (symmetry; apply Nat.leb_le; rewrite hex_Encode_length, Hcomp;
          unfold signature.PubKeyLength; lia).
    unfold signature.decompressPubKey. rewrite TrimHex_Encode.
    replace (signature.PubKeyLength <? String.length (hex.EncodeToString comp))%nat
      with false
      by (symmetry; apply Nat.ltb_ge; rewrite hex_Encode_length, Hcomp;
          unfold signature.PubKeyLength; lia).
    rewrite hex_Decode_Encode, Hdec. cbn [lift mbind res_bind bind].
    now rewrite hex_Decode_Encode, Hun.
  - replace (String.length (hex.EncodeToString (crypto_FromECDSAPub pub))
               <=? signature.PubKeyLength)%nat
      with false
      by (symmetry; apply Nat.leb_gt; rewrite hex_Encode_length, Hlen;
          unfold signature.PubKeyLength; lia).
    cbn [mbind res_bind bind]. now rewrite hex_Decode_Encode, Hun.
Qed.

Lemma sender_authorized_true (authorized : list signature.Address)
    (recoveredAddr : string) :
  signature.sender_authorized authorized recoveredAddr = true <->
  exists addr, addr ∈ authorized /\ hex.EncodeToString addr = recoveredAddr.
Proof.
  induction authorized as [|a rest IH]; cbn [signature.sender_authorized].
  - split; [discriminate|]. intros (addr & Hin & _). inversion Hin.
  - destruct (String.eqb_spec (hex.EncodeToString a) recoveredAddr) as [He|Hne].
    + split; [|reflexivity]. intros _. exists a. split; [left|exact He].
    + rewrite IH. split.
      * intros (addr & Hin & He). exists addr. split; [now right|exact He].
      * intros (addr & Hin & He). exists addr. split; [|exact He].
        inversion Hin; subst; [contradiction|assumption].
Qed.

Lemma addrFromString_Ok (s : string) (a : list byte) :
  hex.DecodeString (util.TrimHex s) = Some a -> length a = 20%nat ->
  signature.addrFromString s = Ok a.
Proof.
  intros Hdec Hlen. unfold signature.addrFromString. rewrite Hdec, Hlen.
  cbn [Nat.eqb negb signature.AddressLength]. f_equal.
  apply copy_same_length. now rewrite Hlen.
Qed.

(** X8. [VerifySender] answers true only for an authorized address: when it
    returns, the address it reports is the one [AddrFromSignature]
    recovers, and the flag is true exactly when the hex form of one of
    the [Authorized] addresses is that string. *)
Theorem VerifySender_true_iff_authorized (k : signature.SignKeys)
    (msg : list byte) (sigHex recoveredAddr : string) (ok : bool) :
  VerifySender k msg sigHex = Ok (ok, recoveredAddr) ->
  AddrFromSignature msg sigHex = Ok recoveredAddr /\
  (ok = true <->
   exists addr, addr ∈ signature.Authorized k /\
                hex.EncodeToString addr = recoveredAddr).
Proof.
  unfold signature.VerifySender.
  destruct (AddrFromSignature msg sigHex) as [r|m|m]; try discriminate.
  cbn [mbind res_bind bind]. intros [= <- <-].
  split; [reflexivity|]. apply sender_authorized_true.
Qed.

(** X9. [AddAuthKey] and [VerifySender] fit together: an address of 20
    bytes, written in hex with or without [0x], in either case of the
    letters, is appended to [Authorized], and from then on a message
    whose signature recovers to that address is verified as sent by an
    authorized key. *)
Theorem AddAuthKey_then_VerifySender (k : signature.SignKeys)
    (address : string) (a : list byte) (msg : list byte) (sigHex : string) :
  hex.DecodeString (util.TrimHex address) = Some a ->
  length a = 20%nat ->
  AddrFromSignature msg sigHex = Ok (hex.EncodeToString a) ->
  snd (signature.AddAuthKey k address) = Ok tt /\
  signature.Authorized (fst (signature.AddAuthKey k address))
    = signature.Authorized k ++ [a] /\
  VerifySender (fst (signature.AddAuthKey k address)) msg sigHex
    = Ok (true, hex.EncodeToString a).
Proof.
  intros Hdec Hlen Hrec. unfold signature.AddAuthKey.
  rewrite (addrFromString_Ok address a Hdec Hlen). cbn [fst snd].
  split; [reflexivity|]. split; [reflexivity|].
  unfold signature.VerifySender. rewrite Hrec. cbn [mbind res_bind bind].
  cbn [signature.Authorized]. f_equal. f_equal.
  apply sender_authorized_true. exists a. split; [|reflexivity].
  apply elem_of_app. right. apply list_elem_of_singleton. reflexivity.
Qed.

(** X10. A refused [AddAuthKey] changes nothing: when the string is not the
    hex of 20 bytes, the call returns an error and the keys, with their
    authorized addresses, are as before. *)
Theorem AddAuthKey_refused_keeps_keys (k : signature.SignKeys)
    (address : string) :
  hex.DecodeString (util.TrimHex address) = None \/
  (exists a, hex.DecodeString (util.TrimHex address) = Some a /\
             length a <> 20%nat) ->
  fst (signature.AddAuthKey k address) = k /\
  is_Err (snd (signature.AddAuthKey k address)).
Proof.
  unfold signature.AddAuthKey, signature.addrFromString.
  intros [->|(a & -> & Hlen)].
  - split; [reflexivity|eexists; reflexivity].
  - apply Nat.eqb_neq in Hlen. unfold signature.AddressLength. rewrite Hlen.
    split; [reflexivity|eexists; reflexivity].
Qed.

End signature_more.

(** *** The properties on sample values *)

Lemma Sign_then_recover_and_verify_witness :
  signature.Sign samples.toy_keccak samples.toy_sign65 samples.sample_signer
    samples.sample_msg = Ok (hex.EncodeToString samples.sample_sig) /\
  signature.PubKeyFromSignature samples.toy_keccak samples.toy_SigToPub
    samples.sample_msg (hex.EncodeToString samples.sample_sig)
    = Ok (hex.EncodeToString samples.sample_pub) /\
  signature.SignKeys_Verify samples.toy_keccak samples.toy_SigToPub
    samples.toy_VerifySignature signature.new_SignKeys samples.sample_msg
    (hex.EncodeToString samples.sample_sig)
    = Ok (samples.toy_VerifySignature samples.sample_pub
            (signature.Hash samples.toy_keccak samples.sample_msg)
            (take 64 samples.sample_sig)).
Proof.
  apply (Sign_then_recover_and_verify samples.toy_keccak samples.toy_sign65
           samples.toy_SigToPub samples.toy_VerifySignature
           samples.sample_signer signature.new_SignKeys samples.sample_msg
           samples.sample_sig samples.sample_pub 258 x01);
    first [reflexivity | vm_compute; congruence].
Defined.

Lemma SignJSON_recovered_but_not_verified_witness :
  signature.SignJSON samples.toy_keccak samples.toy_sign65 string
    samples.toy_json_string samples.sample_signer "vote"
    = Ok ("0x" +:+ hex.EncodeToString samples.sample_sig) /\
  signature.PubKeyFromSignature samples.toy_keccak samples.toy_SigToPub
    samples.sample_msg ("0x" +:+ hex.EncodeToString samples.sample_sig)
    = Ok (hex.EncodeToString samples.sample_pub) /\
  is_Err (signature.SignKeys_Verify samples.toy_keccak samples.toy_SigToPub
            samples.toy_VerifySignature signature.new_SignKeys
            samples.sample_msg
            ("0x" +:+ hex.EncodeToString samples.sample_sig)).
Proof.
  apply (SignJSON_recovered_but_not_verified samples.toy_keccak
           samples.toy_sign65 samples.toy_SigToPub samples.toy_VerifySignature
           string samples.toy_json_string samples.sample_signer
           signature.new_SignKeys "vote" samples.sample_msg samples.sample_sig
           samples.sample_pub 258 x01);
    first [reflexivity | vm_compute; congruence].
Defined.

Lemma AddrFromSignature_is_AddrFromPublicKey_witness :
  signature.AddrFromSignature samples.toy_keccak samples.toy_SigToPub
    samples.toy_UnmarshalPubkey samples.toy_PubkeyToAddress samples.sample_msg
    (hex.EncodeToString samples.sample_sig)
  = signature.AddrFromPublicKey samples.toy_UnmarshalPubkey
      samples.toy_PubkeyToAddress samples.toy_DecompressPubkey
      samples.toy_FromECDSAPub (hex.EncodeToString samples.sample_pub).
Proof.
  apply (AddrFromSignature_is_AddrFromPublicKey samples.toy_keccak
           samples.toy_SigToPub samples.toy_UnmarshalPubkey
           samples.toy_PubkeyToAddress samples.toy_DecompressPubkey
           samples.toy_FromECDSAPub samples.sample_msg
           (hex.EncodeToString samples.sample_sig)
           (hex.EncodeToString samples.sample_pub)).
  - reflexivity.
  - vm_compute. lia.
Defined.

Lemma AddrFromPublicKey_rejects_0x_keys_witness :
  signature.AddrFromPublicKey samples.toy_UnmarshalPubkey
    samples.toy_PubkeyToAddress samples.toy_DecompressPubkey
    samples.toy_FromECDSAPub
    ("0x" +:+ hex.EncodeToString samples.sample_comp)
  = Err "encoding/hex: invalid string".
Proof.
  apply (AddrFromPublicKey_rejects_0x_keys samples.toy_UnmarshalPubkey
           samples.toy_PubkeyToAddress samples.toy_DecompressPubkey
           samples.toy_FromECDSAPub (hex.EncodeToString samples.sample_comp)).
  vm_compute. lia.
Defined.

Lemma AddrFromPublicKey_compressed_witness :
  signature.AddrFromPublicKey samples.toy_UnmarshalPubkey
    samples.toy_PubkeyToAddress samples.toy_DecompressPubkey
    samples.toy_FromECDSAPub (hex.EncodeToString samples.sample_comp)
  = Ok (hex.EncodeToString (samples.toy_PubkeyToAddress (7, 65))) /\
  signature.AddrFromPublicKey samples.toy_UnmarshalPubkey
    samples.toy_PubkeyToAddress samples.toy_DecompressPubkey
    samples.toy_FromECDSAPub
    (hex.EncodeToString (samples.toy_FromECDSAPub (7, 65)))
  = Ok (hex.EncodeToString (samples.toy_PubkeyToAddress (7, 65))).
Proof.
  apply (AddrFromPublicKey_compressed samples.toy_UnmarshalPubkey
           samples.toy_PubkeyToAddress samples.toy_DecompressPubkey
           samples.toy_FromECDSAPub samples.sample_comp (7, 65));
    reflexivity.
Defined.

Lemma VerifySender_true_iff_authorized_witness :
  signature.AddrFromSignature samples.toy_keccak samples.toy_SigToPub
    samples.toy_UnmarshalPubkey samples.toy_PubkeyToAddress samples.sample_msg
    (hex.EncodeToString samples.sample_sig)
  = Ok (hex.EncodeToString samples.sample_addr) /\
  (true = true <->
   exists addr, addr ∈ signature.Authorized samples.sample_verifier /\
                hex.EncodeToString addr
                = hex.EncodeToString samples.sample_addr).
Proof.
  apply (VerifySender_true_iff_authorized samples.toy_keccak
           samples.toy_SigToPub samples.toy_UnmarshalPubkey
           samples.toy_PubkeyToAddress samples.sample_verifier
           samples.sample_msg (hex.EncodeToString samples.sample_sig)
           (hex.EncodeToString samples.sample_addr) true).
  reflexivity.
Defined.

Lemma AddAuthKey_then_VerifySender_witness :
  snd (signature.AddAuthKey samples.sample_signer
         ("0x" +:+ hex.EncodeToString samples.sample_addr)) = Ok tt /\
  signature.Authorized
    (fst (signature.AddAuthKey samples.sample_signer
            ("0x" +:+ hex.EncodeToString samples.sample_addr)))
    = signature.Authorized samples.sample_signer ++ [samples.sample_addr] /\
  signature.VerifySender samples.toy_keccak samples.toy_SigToPub
    samples.toy_UnmarshalPubkey samples.toy_PubkeyToAddress
    (fst (signature.AddAuthKey samples.sample_signer
            ("0x" +:+ hex.EncodeToString samples.sample_addr)))
    samples.sample_msg (hex.EncodeToString samples.sample_sig)
    = Ok (true, hex.EncodeToString samples.sample_addr).
Proof.
  apply (AddAuthKey_then_VerifySender samples.toy_keccak samples.toy_SigToPub
           samples.toy_UnmarshalPubkey samples.toy_PubkeyToAddress
           samples.sample_signer
           ("0x" +:+ hex.EncodeToString samples.sample_addr)
           samples.sample_addr samples.sample_msg
           (hex.EncodeToString samples.sample_sig));
    reflexivity.
Defined.

Lemma AddAuthKey_refused_keeps_keys_witness :
  fst (signature.AddAuthKey samples.sample_verifier "0xabcd")
    = samples.sample_verifier /\
  is_Err (snd (signature.AddAuthKey samples.sample_verifier "0xabcd")).
Proof.
  apply (AddAuthKey_refused_keeps_keys samples.sample_verifier "0xabcd").
  right. exists [xab; xcd]. split; [reflexivity|]. cbn [length]. lia.
Defined.

(** ** The buffer signed by [Hash] *)

Lemma length_pretty_N_go_ge x : forall s,
  (String.length s <= String.length (pretty_N_go x s))%nat.
Proof.
  induction x as [x IH] using (well_founded_induction N.lt_wf_0).
  intros s. destruct (N.eq_dec x 0%N) as [->|Hx].
  - now rewrite pretty_N_go_0.
  - rewrite pretty_N_go_step by lia.
    etransitivity; [|apply IH; apply N.div_lt; lia].
    cbn [String.length]. lia.
Qed.

Lemma length_pretty_N_go_mono y : forall x s t,
  (x <= y)%N -> (String.length s <= String.length t)%nat ->
  (String.length (pretty_N_go x s) <= String.length (pretty_N_go y t))%nat.
Proof.
  induction y as [y IH] using (well_founded_induction N.lt_wf_0).
  intros x s t Hxy Hst. destruct (N.eq_dec x 0%N) as [->|Hx].
  - rewrite pretty_N_go_0. etransitivity; [exact Hst|].
    apply length_pretty_N_go_ge.
  - rewrite (pretty_N_go_step x) by lia.
    rewrite (pretty_N_go_step y) by lia.
    apply IH.
    + apply N.div_lt; lia.
    + apply N.Div0.div_le_mono. exact Hxy.
    + cbn [String.length]. lia.
Qed.

Lemma length_pretty_N_mono (x y : N) :
  (x <= y)%N ->
  (String.length (pretty x) <= String.length (pretty y))%nat.
Proof.
  intros Hxy. unfold pretty, pretty_N.
  destruct (decide (x = 0%N)) as [->|Hx], (decide (y = 0%N)) as [->|Hy];
    try lia.
  - rewrite pretty_N_go_step by lia.
    etransitivity; [|apply length_pretty_N_go_ge]. reflexivity.
  - now apply length_pretty_N_go_mono.
Qed.

Lemma FormatInt_of_nat (n : nat) :
  strconv.FormatInt (Z.of_nat n) = pretty (N.of_nat n).
Proof. now destruct n. Qed.

Lemma length_string_app (s t : string) :
  String.length (s +:+ t) = (String.length s + String.length t)%nat.
Proof.
  induction s as [|c s IH]; [reflexivity|].
  change (String c s +:+ t) with (String c (s +:+ t)).
  cbn [String.length]. now rewrite IH.
Qed.

Lemma length_Hash_buf (data : list byte) :
  length (signature.Hash_buf data)
  = (String.length signature.SigningPrefix
     + String.length (strconv.FormatInt (Z.of_nat (length data)))
     + length data)%nat.
Proof.
  unfold signature.Hash_buf.
  now rewrite length_app, length_list_byte_of_string, length_string_app.
Qed.

(** X11. The text [Hash] hashes determines the message: the prefix, the
    decimal length and the data of two different messages never make
    the same buffer, so two messages share a digest only where
    Keccak-256 collides. *)
Theorem Hash_buf_injective (d1 d2 : list byte) :
  signature.Hash_buf d1 = signature.Hash_buf d2 -> d1 = d2.
Proof.
  intros Heq.
  assert (Hlen : length d1 = length d2).
  { pose proof (f_equal length Heq) as Hl. rewrite !length_Hash_buf in Hl.
    rewrite !FormatInt_of_nat in Hl.
    destruct (Nat.lt_trichotomy (length d1) (length d2)) as [Hlt|[He|Hlt]];
      [|exact He|].
    - pose proof (length_pretty_N_mono (N.of_nat (length d1))
                    (N.of_nat (length d2)) ltac:(lia)). lia.
    - pose proof (length_pretty_N_mono (N.of_nat (length d2))
                    (N.of_nat (length d1)) ltac:(lia)). lia. }
  unfold signature.Hash_buf in Heq. rewrite Hlen in Heq.
  now apply app_inv_head in Heq.
Qed.

Lemma Hash_buf_injective_witness :
  String.list_byte_of_string "vote" = [x76; x6f; x74; x65].
Proof.
  apply (Hash_buf_injective (String.list_byte_of_string "vote")
           [x76; x6f; x74; x65]).
  reflexivity.
Defined.

(** ** Key keeper: publishing, scheduling and revealing *)

Lemma process_key_prefix (pid : string) :
  HasPrefix (keykeeper.dbPrefixProcess +:+ pid) keykeeper.dbPrefixProcess = true.
Proof.
  unfold HasPrefix, keykeeper.dbPrefixProcess.
  change ("p_" +:+ pid) with (String "p" (String "_" pid)).
  cbn [String.prefix]. now destruct pid.
Qed.

Lemma process_key_not_block (pid : string) :
  HasPrefix (keykeeper.dbPrefixProcess +:+ pid) keykeeper.dbPrefixBlock = false.
Proof. reflexivity. Qed.

Lemma block_key_inj (s t : string) :
  keykeeper.dbPrefixBlock +:+ s = keykeeper.dbPrefixBlock +:+ t -> s = t.
Proof.
  unfold keykeeper.dbPrefixBlock.
  change ("b_" +:+ s) with (String "b" (String "_" s)).
  change ("b_" +:+ t) with (String "b" (String "_" t)).
  now intros [= ->].
Qed.

Lemma block_key_not_process (s pid : string) :
  keykeeper.dbPrefixBlock +:+ s <> keykeeper.dbPrefixProcess +:+ pid.
Proof. discriminate. Qed.

Section keeper_more.
Import types keykeeper.
Variable Keccak256 : list byte -> list byte.
Variable crypto_Sign : list byte -> Z -> outcome (list byte).
Variable poseidon_HashBytes : list byte -> option Z.
Variable BigIntToHash_Bytes : Z -> list byte.
Variable derivePublic : list byte -> list byte.
Variable State_Process : string -> bool -> outcome Process.
Variable State_Header : bool -> option Z.
Variable MarshalBinaryBare : list string -> outcome (list byte).
Variable UnmarshalBinaryBare : list byte -> outcome (list string).
Variable json_Marshal : AdminTx -> outcome (list byte).
Variable SendTX : list (list byte) -> list byte -> outcome (Z * list byte).
Variable RandomHex : nat -> string.

Local Abbreviation generateKeys :=
  (keykeeper.generateKeys Keccak256 poseidon_HashBytes BigIntToHash_Bytes
     derivePublic).
Local Abbreviation signAndSendTx :=
  (keykeeper.signAndSendTx Keccak256 crypto_Sign json_Marshal SendTX).
Local Abbreviation publishKeys :=
  (keykeeper.publishKeys Keccak256 crypto_Sign json_Marshal SendTX RandomHex).
Local Abbreviation revealKeys :=
  (keykeeper.revealKeys Keccak256 crypto_Sign json_Marshal SendTX RandomHex).
Local Abbreviation reveal_all :=
  (keykeeper.reveal_all Keccak256 crypto_Sign json_Marshal SendTX RandomHex).
Local Abbreviation RevealUnpublished :=
  (keykeeper.RevealUnpublished Keccak256 crypto_Sign State_Header
     UnmarshalBinaryBare json_Marshal SendTX RandomHex).
Local Abbreviation RevealUnpublished_step :=
  (keykeeper.RevealUnpublished_step Keccak256 crypto_Sign UnmarshalBinaryBare
     json_Marshal SendTX RandomHex).
Local Abbreviation OnProcess :=
  (keykeeper.OnProcess Keccak256 poseidon_HashBytes BigIntToHash_Bytes
     derivePublic State_Process).
Local Abbreviation OnCancel := (keykeeper.OnCancel State_Process State_Header).
Local Abbreviation scheduleRevealKeys_step :=
  (keykeeper.scheduleRevealKeys_step MarshalBinaryBare UnmarshalBinaryBare).
Local Abbreviation scheduleRevealKeys :=
  (keykeeper.scheduleRevealKeys MarshalBinaryBare UnmarshalBinaryBare).
Local Abbreviation checkRevealProcess :=
  (keykeeper.checkRevealProcess Keccak256 crypto_Sign UnmarshalBinaryBare
     json_Marshal SendTX RandomHex).
Local Abbreviation publishPendingKeys_step :=
  (keykeeper.publishPendingKeys_step Keccak256 crypto_Sign json_Marshal SendTX
     RandomHex).
Local Abbreviation publishPendingKeys :=
  (keykeeper.publishPendingKeys Keccak256 crypto_Sign json_Marshal SendTX
     RandomHex).
Local Abbreviation Commit :=
  (keykeeper.Commit Keccak256 crypto_Sign MarshalBinaryBare UnmarshalBinaryBare
     json_Marshal SendTX RandomHex).

(** *** What the storage keeps *)

(** [revealKeys] leaves the storage as it is or deletes the keys of its
    process; it deletes only when it returns no error. *)
Lemma revealKeys_storage k pid :
  (storage (fst (revealKeys k pid)) = storage k /\
   snd (revealKeys k pid) <> Ok tt) \/
  (storage (fst (revealKeys k pid)) = delete (dbPrefixProcess +:+ pid) (storage k) /\
   snd (revealKeys k pid) = Ok tt).
Proof.
  unfold keykeeper.revealKeys. cbn [storage set_ghost].
  destruct (storage k !! _) as [data|]; [|left; cbn; split; [auto|discriminate]].
  destruct (length data =? 0)%nat; [left; cbn; split; [auto|discriminate]|].
  destruct (Decode zero_processKeys data) as [pk|m|m];
    [|left; cbn; split; [auto|discriminate]..].
  destruct (_ && _); [left; cbn; split; [auto|discriminate]|].
  match goal with |- context [keykeeper.signAndSendTx _ _ _ _ ?k0 ?tx] =>
    pose proof (signAndSendTx_frame Keccak256 crypto_Sign json_Marshal SendTX
                  k0 tx) as Hf;
    destruct (keykeeper.signAndSendTx Keccak256 crypto_Sign json_Marshal SendTX k0 tx)
      as [k1 [[]|m|m]]
  end; cbn in Hf |- *; destruct Hf as (-> & _).
  - right. auto.
  - left. split; [auto|discriminate].
  - left. split; [auto|discriminate].
Qed.

Lemma reveal_all_storage pids : forall k key,
  storage (reveal_all k pids) !! key = storage k !! key \/
  (storage (reveal_all k pids) !! key = None /\
   exists pid, pid ∈ pids /\ key = dbPrefixProcess +:+ pid).
Proof.
  unfold keykeeper.reveal_all.
  induction pids as [|p pids IH]; intros k key; [now left|].
  cbn [foldl].
  set (k1 := fst (keykeeper.revealKeys Keccak256 crypto_Sign json_Marshal SendTX
                    RandomHex k p)).
  assert (H1 : storage k1 !! key = storage k !! key \/
               (storage k1 !! key = None /\ key = dbPrefixProcess +:+ p)).
  { destruct (revealKeys_storage k p) as [[Hs _]|[Hs _]]; fold k1 in Hs;
      rewrite Hs; [now left|].
    destruct (decide (key = dbPrefixProcess +:+ p)) as [->|Hne].
    - right. split; [apply lookup_delete_eq|reflexivity].
    - left. now apply lookup_delete_ne. }
  destruct (IH k1 key) as [He|(Hnone & pid & Hin & Hkey)].
  - rewrite He. destruct H1 as [H1|[H1 Hkey]]; [now left|].
    right. split; [exact H1|]. exists p. split; [left|exact Hkey].
  - right. split; [exact Hnone|]. exists pid. split; [now right|exact Hkey].
Qed.

Lemma reveal_all_block_keys pids k key :
  HasPrefix key dbPrefixBlock = true ->
  storage (reveal_all k pids) !! key = storage k !! key.
Proof.
  intros Hb. destruct (reveal_all_storage pids k key)
    as [He|(_ & pid & _ & ->)]; [exact He|].
  now rewrite process_key_not_block in Hb.
Qed.

Lemma only_process_keys_deleted_refl k : only_process_keys_deleted k k.
Proof. repeat split. now left. Qed.

Lemma only_process_keys_deleted_trans k1 k2 k3 :
  only_process_keys_deleted k1 k2 -> only_process_keys_deleted k2 k3 ->
  only_process_keys_deleted k1 k3.
Proof.
  intros (Hk & Hb & Hs) (Hk' & Hb' & Hs').
  split; [congruence|]. split; [congruence|]. intros key.
  destruct (Hs' key) as [He|Hd]; [|now right].
  rewrite He. apply Hs.
Qed.

Lemma reveal_all_only_deletes pids k :
  only_process_keys_deleted k (reveal_all k pids).
Proof.
  destruct (reveal_all_frame Keccak256 crypto_Sign json_Marshal SendTX
              RandomHex pids k) as (Hk & Hb & _).
  split; [exact Hk|]. split; [exact Hb|]. intros key.
  destruct (reveal_all_storage pids k key) as [He|(Hn & pid & _ & ->)];
    [now left|].
  right. split; [exact Hn|apply process_key_prefix].
Qed.

(** X12. The rescue walks the buckets and never removes one: after
    [RevealUnpublished] the pools are as before and every storage
    entry is as before, except for process entries [p_<pid>] that a
    successful reveal has deleted. *)
Theorem RevealUnpublished_only_deletes_process_keys (k : KeyKeeper) :
  keyPool (RevealUnpublished k) = keyPool k /\
  blockPool (RevealUnpublished k) = blockPool k /\
  forall key,
    storage (RevealUnpublished k) !! key = storage k !! key \/
    (storage (RevealUnpublished k) !! key = None /\
     HasPrefix key dbPrefixProcess = true).
Proof.
  change (only_process_keys_deleted k (RevealUnpublished k)).
  unfold keykeeper.RevealUnpublished.
  destruct (State_Header true) as [height|];
    [|apply only_process_keys_deleted_refl].
  generalize (map_to_list (storage k)). intros entries.
  assert (H : forall k0, only_process_keys_deleted k k0 ->
                only_process_keys_deleted k
                  (foldl (RevealUnpublished_step height) k0 entries)).
  { induction entries as [|[key value] entries IH]; intros k0 Hk0;
      [exact Hk0|].
    cbn [foldl]. apply IH.
    apply (only_process_keys_deleted_trans k k0); [exact Hk0|].
    unfold keykeeper.RevealUnpublished_step.
    destruct (negb _); [apply only_process_keys_deleted_refl|].
    destruct (strconv.ParseInt _) as [h|];
      [|apply only_process_keys_deleted_refl].
    destruct (height <=? add64 h 2); [apply only_process_keys_deleted_refl|].
    destruct (UnmarshalBinaryBare value) as [pids|];
      [|apply only_process_keys_deleted_refl].
    apply reveal_all_only_deletes. }
  apply H, only_process_keys_deleted_refl.
Qed.

(** *** Publishing and revealing *)

Lemma signAndSendTx_ghost k tx :
  exists s, fst (signAndSendTx k tx)
            = set_ghost k s (reveal_calls k) (draws k).
Proof.
  unfold keykeeper.signAndSendTx.
  assert (Hk : k = set_ghost k (sent k) (reveal_calls k) (draws k))
    by now destruct k.
  destruct (json_Marshal tx); [|now exists (sent k)].
  destruct (signature.Sign _ _ _ _); [|now exists (sent k)..].
  destruct (json_Marshal _) as [txBytes|]; [|now exists (sent k)].
  exists (sent k ++ [txBytes]).
  destruct (SendTX _ _) as [[code data]|]; [|reflexivity].
  destruct (code =? 0); reflexivity.
Qed.

Lemma signAndSendTx_accepted k tx txBytes sig signedBytes d data :
  signature.Private (signer k) = Some d ->
  json_Marshal tx = Ret txBytes ->
  crypto_Sign (signature.Hash Keccak256 txBytes) d = Ret sig ->
  json_Marshal (with_Signature tx (hex.EncodeToString sig)) = Ret signedBytes ->
  SendTX (sent k) signedBytes = Ret (0, data) ->
  signAndSendTx k tx
  = (set_ghost k (sent k ++ [signedBytes]) (reveal_calls k) (draws k), Ok tt).
Proof.
  intros Hd Htx Hsig Hsigned Hsend.
  unfold keykeeper.signAndSendTx, signature.Sign.
  rewrite Htx, Hd, Hsig. cbn [lift mbind res_bind bind].
  now rewrite Hsigned, Hsend.
Qed.

Lemma publishKeys_Ok k pk pid k1 :
  publishKeys k (Some pk) pid = (k1, Ok tt) ->
  storage k !! (dbPrefixProcess +:+ pid) = None /\
  storage k1 = <[dbPrefixProcess +:+ pid := Encode pk]> (storage k) /\
  signer k1 = signer k /\ draws k1 = S (draws k) /\
  reveal_calls k1 = reveal_calls k /\
  keyPool k1 = keyPool k /\ blockPool k1 = blockPool k.
Proof.
  unfold keykeeper.publishKeys.
  match goal with |- context [keykeeper.signAndSendTx _ _ _ _ ?k0 ?tx] =>
    destruct (signAndSendTx_ghost k0 tx) as [s Hs];
    destruct (keykeeper.signAndSendTx Keccak256 crypto_Sign json_Marshal SendTX k0 tx)
      as [k2 [[]|m|m]]
  end; cbn [fst] in Hs; subst k2; try (intros [= _ ?]; discriminate).
  cbn [storage set_ghost set_storage].
  destruct (storage k !! _) eqn:Hlook; [intros [= _ ?]; discriminate|].
  intros [= <-]. cbn. auto 10.
Qed.

(** X13. [publishKeys] never writes over stored keys: when the storage
    already holds an entry for the process, the call returns an error
    (or fails before) and the storage, that entry included, is as
    before. *)
Theorem publishKeys_never_overwrites (k : KeyKeeper)
    (pk : option processKeys) (pid : string) (data : list byte) :
  storage k !! (dbPrefixProcess +:+ pid) = Some data ->
  storage (fst (publishKeys k pk pid)) = storage k /\
  snd (publishKeys k pk pid) <> Ok tt.
Proof.
  intros Hdata. unfold keykeeper.publishKeys.
  destruct pk as [pk|]; [|split; [reflexivity|discriminate]].
  match goal with |- context [keykeeper.signAndSendTx _ _ _ _ ?k0 ?tx] =>
    destruct (signAndSendTx_ghost k0 tx) as [s Hs];
    destruct (keykeeper.signAndSendTx Keccak256 crypto_Sign json_Marshal SendTX k0 tx)
      as [k2 [[]|m|m]]
  end; cbn [fst] in Hs; subst k2; cbn [storage set_ghost set_storage fst snd];
    try (split; [reflexivity|discriminate]).
  rewrite Hdata. cbn. split; [reflexivity|discriminate].
Qed.

Lemma revealKeys_missing k pid :
  storage k !! (dbPrefixProcess +:+ pid) = None ->
  revealKeys k pid
  = (set_ghost k (sent k) (reveal_calls k ++ [pid]) (draws k),
     Err "cannot fetch reveal keys from storage").
Proof.
  intros Hnone. unfold keykeeper.revealKeys. cbn [storage set_ghost].
  now rewrite Hnone.
Qed.

(** X14. Keys are revealed once: after a [revealKeys] that returned no
    error the process entry is gone from the storage, and a second
    [revealKeys] for the same process sends no transaction and returns
    the error of the missing entry. *)
Theorem revealKeys_only_once (k k1 : KeyKeeper) (pid : string) :
  revealKeys k pid = (k1, Ok tt) ->
  storage k1 !! (dbPrefixProcess +:+ pid) = None /\
  sent (fst (revealKeys k1 pid)) = sent k1 /\
  snd (revealKeys k1 pid) = Err "cannot fetch reveal keys from storage".
Proof.
  intros Hrev.
  assert (Hnone : storage k1 !! (dbPrefixProcess +:+ pid) = None).
  { destruct (revealKeys_storage k pid) as [[_ Hne]|[Hs _]];
      rewrite Hrev in *; cbn [fst snd] in *; [congruence|].
    rewrite Hs. apply lookup_delete_eq. }
  split; [exact Hnone|]. now rewrite (revealKeys_missing k1 pid Hnone).
Qed.

(** X15. What [Commit] publishes is what a later reveal sends: after a
    [publishKeys] that returned no error the storage holds the encoded
    keys under [p_<pid>], and [revealKeys], when its transaction is
    signed and accepted, sends the transaction that carries the hex of
    the private and reveal keys that were published, with their index,
    and leaves the storage as it was before the keys were published. *)
Theorem publishKeys_then_revealKeys (k k1 : KeyKeeper) (pk : processKeys)
    (pid : string) (txBytes sig signedBytes data : list byte) (d : Z) :
  wf_processKeys pk ->
  publishKeys k (Some pk) pid = (k1, Ok tt) ->
  signature.Private (signer k) = Some d ->
  json_Marshal
    {| tx_Type := TxRevealProcessKeys; tx_KeyIndex := index pk;
       tx_Nonce := RandomHex (draws k1); tx_ProcessID := pid;
       tx_EncryptionPublicKey := ""; tx_CommitmentKey := "";
       tx_EncryptionPrivateKey := hex.EncodeToString (privKey pk);
       tx_RevealKey := hex.EncodeToString (revealKey pk);
       tx_Signature := "" |} = Ret txBytes ->
  crypto_Sign (signature.Hash Keccak256 txBytes) d = Ret sig ->
  json_Marshal
    {| tx_Type := TxRevealProcessKeys; tx_KeyIndex := index pk;
       tx_Nonce := RandomHex (draws k1); tx_ProcessID := pid;
       tx_EncryptionPublicKey := ""; tx_CommitmentKey := "";
       tx_EncryptionPrivateKey := hex.EncodeToString (privKey pk);
       tx_RevealKey := hex.EncodeToString (revealKey pk);
       tx_Signature := hex.EncodeToString sig |} = Ret signedBytes ->
  SendTX (sent k1) signedBytes = Ret (0, data) ->
  storage k1 !! (dbPrefixProcess +:+ pid) = Some (Encode pk) /\
  snd (revealKeys k1 pid) = Ok tt /\
  sent (fst (revealKeys k1 pid)) = sent k1 ++ [signedBytes] /\
  storage (fst (revealKeys k1 pid)) = storage k.
Proof.
  intros Hwf Hpub Hd Htx Hsig Hsigned Hsend.
  destruct (publishKeys_Ok k pk pid k1 Hpub)
    as (Hnone & Hst & Hsigner & _ & _ & _ & _).
  assert (Hlook : storage k1 !! (dbPrefixProcess +:+ pid) = Some (Encode pk))
    by (rewrite Hst; apply lookup_insert_eq).
  split; [exact Hlook|].
  unfold keykeeper.revealKeys. cbn [storage set_ghost]. rewrite Hlook.
  rewrite (Encode_layout pk Hwf).
  rewrite (Decode_layout zero_processKeys pk zero_processKeys_wf Hwf).
  destruct Hwf as (Hpub' & Hpriv & Hrev & Hcom & Hidx).
  rewrite !length_app, Hpub', Hpriv, Hrev, Hcom.
  cbn [length Nat.add encryptionKeySize commitmentKeySize KeyLength Nat.eqb
       Nat.ltb Nat.leb andb].
  erewrite signAndSendTx_accepted; cycle 1.
  - cbn [signer set_ghost]. rewrite Hsigner. exact Hd.
  - cbn [draws set_ghost]. exact Htx.
  - exact Hsig.
  - exact Hsigned.
  - cbn [sent set_ghost]. exact Hsend.
  - cbn [fst snd storage sent set_storage set_ghost].
    split; [reflexivity|]. split; [reflexivity|].
    rewrite Hst. now apply delete_insert_id.
Qed.

(** *** Scheduling: from the block pool to the buckets *)

Section keeper_schedule.
(** The codec reads back what it writes. *)
Hypothesis codec_round_trip : forall pids, exists data,
  MarshalBinaryBare pids = Ret data /\ UnmarshalBinaryBare data = Ret pids.

Local Abbreviation bucket_has k key pid :=
  (exists data pids, storage k !! key = Some data /\
                     UnmarshalBinaryBare data = Ret pids /\ pid ∈ pids).

Lemma scheduleRevealKeys_step_keeps k entry key (pid : string) :
  bucket_has k key pid -> bucket_has (scheduleRevealKeys_step k entry) key pid.
Proof.
  intros (data & pids & Hlook & Hdec & Hin).
  destruct entry as [pid' h]. unfold keykeeper.scheduleRevealKeys_step.
  set (pkey := dbPrefixBlock +:+ strconv.FormatInt h).
  match goal with |- context [MarshalBinaryBare ?l] =>
    destruct (codec_round_trip l) as (data' & Hm & Hu); rewrite Hm
  end.
  cbn [storage set_storage].
  destruct (decide (key = pkey)) as [->|Hne].
  - rewrite Hlook, Hdec in Hu. exists data', (pids ++ [pid']).
    split; [apply lookup_insert_eq|]. split; [exact Hu|].
    apply elem_of_app. now left.
  - exists data, pids. split; [|auto].
    rewrite lookup_insert_ne by congruence. exact Hlook.
Qed.

Lemma scheduleRevealKeys_step_adds k (pid : string) h :
  bucket_has (scheduleRevealKeys_step k (pid, h))
    (dbPrefixBlock +:+ strconv.FormatInt h) pid.
Proof.
  unfold keykeeper.scheduleRevealKeys_step.
  match goal with |- context [MarshalBinaryBare ?l] =>
    destruct (codec_round_trip l) as (data' & Hm & Hu); rewrite Hm;
    exists data', l
  end.
  cbn [storage set_storage].
  split; [apply lookup_insert_eq|]. split; [exact Hu|].
  apply elem_of_app. right. apply list_elem_of_singleton. reflexivity.
Qed.

Lemma scheduleRevealKeys_fold_keeps entries : forall k key (pid : string),
  bucket_has k key pid ->
  bucket_has (foldl scheduleRevealKeys_step k entries) key pid.
Proof.
  induction entries as [|e entries IH]; intros k key pid H; [exact H|].
  cbn [foldl]. apply IH. now apply scheduleRevealKeys_step_keeps.
Qed.

Lemma scheduleRevealKeys_fold_adds entries : forall k (pid : string) h,
  (pid, h) ∈ entries ->
  bucket_has (foldl scheduleRevealKeys_step k entries)
    (dbPrefixBlock +:+ strconv.FormatInt h) pid.
Proof.
  induction entries as [|e entries IH]; intros k pid h Hin;
    [inversion Hin|].
  cbn [foldl]. apply elem_of_cons in Hin as [<-|Hin].
  - apply scheduleRevealKeys_fold_keeps, scheduleRevealKeys_step_adds.
  - now apply IH.
Qed.

Lemma scheduleRevealKeys_step_frame k entry :
  let k' := scheduleRevealKeys_step k entry in
  keyPool k' = keyPool k /\ blockPool k' = blockPool k /\
  reveal_calls k' = reveal_calls k /\ sent k' = sent k /\
  forall key, HasPrefix key dbPrefixBlock = false ->
              storage k' !! key = storage k !! key.
Proof.
  destruct entry as [pid h]. unfold keykeeper.scheduleRevealKeys_step.
  destruct (MarshalBinaryBare _) as [data|]; cbn; [|auto 10].
  repeat split. intros key Hkey. apply lookup_insert_ne. intros <-.
  unfold HasPrefix, dbPrefixBlock in Hkey.
  change ("b_" +:+ strconv.FormatInt h)
    with (String "b" (String "_" (strconv.FormatInt h))) in Hkey.
  cbn [String.prefix] in Hkey. now destruct (strconv.FormatInt h).
Qed.

Lemma scheduleRevealKeys_frame k :
  let k' := scheduleRevealKeys k in
  keyPool k' = keyPool k /\ blockPool k' = blockPool k /\
  reveal_calls k' = reveal_calls k /\ sent k' = sent k /\
  forall key, HasPrefix key dbPrefixBlock = false ->
              storage k' !! key = storage k !! key.
Proof.
  unfold keykeeper.scheduleRevealKeys.
  generalize (map_to_list (blockPool k)). intros entries. revert k.
  induction entries as [|e entries IH]; intros k; [cbn; auto 10|].
  cbn [foldl]. cbn zeta in IH |- *.
  destruct (IH (scheduleRevealKeys_step k e)) as (-> & -> & -> & -> & Hs).
  destruct (scheduleRevealKeys_step_frame k e) as (-> & -> & -> & -> & Hs').
  repeat split. intros key Hkey. now rewrite Hs, Hs'.
Qed.

(** X16. [scheduleRevealKeys] puts every process of the block pool into the
    bucket of its height and loses nothing that was scheduled: given a
    codec that reads back what it writes, a process whose pool entry is
    [h], or that the bucket [b_<h>] already held, is in the list the
    bucket [b_<h>] holds afterwards; the entries outside the buckets,
    the stored keys among them, are untouched. *)
Theorem scheduleRevealKeys_fills_buckets (k : KeyKeeper) (pid : string) (h : Z) :
  blockPool k !! pid = Some h \/
  bucket_has k (dbPrefixBlock +:+ strconv.FormatInt h) pid ->
  bucket_has (scheduleRevealKeys k) (dbPrefixBlock +:+ strconv.FormatInt h) pid /\
  forall p, storage (scheduleRevealKeys k) !! (dbPrefixProcess +:+ p)
            = storage k !! (dbPrefixProcess +:+ p).
Proof.
  intros H. split.
  - unfold keykeeper.scheduleRevealKeys. destruct H as [Hpool|Hhas].
    + apply scheduleRevealKeys_fold_adds. now apply elem_of_map_to_list.
    + now apply scheduleRevealKeys_fold_keeps.
  - intros p. apply scheduleRevealKeys_frame, process_key_not_block.
Qed.

Lemma block_key_prefix (s : string) :
  HasPrefix (dbPrefixBlock +:+ s) dbPrefixBlock = true.
Proof.
  unfold HasPrefix, dbPrefixBlock.
  change ("b_" +:+ s) with (String "b" (String "_" s)).
  cbn [String.prefix]. now destruct s.
Qed.

Lemma publishKeys_frame k pk pid :
  let k' := fst (publishKeys k pk pid) in
  keyPool k' = keyPool k /\ blockPool k' = blockPool k /\
  reveal_calls k' = reveal_calls k /\
  forall key, HasPrefix key dbPrefixBlock = true ->
              storage k' !! key = storage k !! key.
Proof.
  unfold keykeeper.publishKeys. destruct pk as [pk|]; [|cbn; auto].
  match goal with |- context [keykeeper.signAndSendTx _ _ _ _ ?k0 ?tx] =>
    destruct (signAndSendTx_ghost k0 tx) as [s Hs];
    destruct (keykeeper.signAndSendTx Keccak256 crypto_Sign json_Marshal SendTX k0 tx)
      as [k2 [[]|m|m]]
  end; cbn [fst] in Hs; subst k2; cbn; auto.
  destruct (storage k !! _); cbn; auto.
  repeat split. intros key Hkey. apply lookup_insert_ne. intros <-.
  now rewrite process_key_not_block in Hkey.
Qed.

Lemma publishPendingKeys_fold_Panic entries m :
  foldl publishPendingKeys_step (Panic m) entries = Panic m.
Proof. induction entries as [|e entries IH]; [reflexivity|exact IH]. Qed.

Lemma publishPendingKeys_fold_Err entries m :
  foldl publishPendingKeys_step (Err m) entries = Err m.
Proof. induction entries as [|e entries IH]; [reflexivity|exact IH]. Qed.

Lemma publishPendingKeys_fold_frame entries : forall k k',
  foldl publishPendingKeys_step (Ok k) entries = Ok k' ->
  keyPool k' = keyPool k /\ blockPool k' = blockPool k /\
  reveal_calls k' = reveal_calls k /\
  forall key, HasPrefix key dbPrefixBlock = true ->
              storage k' !! key = storage k !! key.
Proof.
  induction entries as [|e entries IH]; intros k k'.
  - intros [= <-]. auto.
  - cbn [foldl]. unfold keykeeper.publishPendingKeys_step at 2.
    cbn [mbind res_bind bind].
    pose proof (publishKeys_frame k (snd e) (fst e)) as Hf. cbn zeta in Hf.
    destruct (keykeeper.publishKeys Keccak256 crypto_Sign json_Marshal SendTX
                RandomHex k (snd e) (fst e)) as [k1 [[]|m|m]];
      cbn [fst] in Hf;
      try (rewrite publishPendingKeys_fold_Panic; discriminate).
    + intros H. destruct (IH k1 k' H) as (-> & -> & -> & Hs).
      destruct Hf as (-> & -> & -> & Hs').
      repeat split. intros key Hkey. now rewrite Hs, Hs'.
    + intros H. destruct (IH k1 k' H) as (-> & -> & -> & Hs).
      destruct Hf as (-> & -> & -> & Hs').
      repeat split. intros key Hkey. now rewrite Hs, Hs'.
Qed.

Lemma checkRevealProcess_due k height data pids :
  storage k !! (dbPrefixBlock +:+ strconv.FormatInt height) = Some data ->
  UnmarshalBinaryBare data = Ret pids ->
  reveal_calls (checkRevealProcess k height) = reveal_calls k ++ pids /\
  storage (checkRevealProcess k height)
    !! (dbPrefixBlock +:+ strconv.FormatInt height) = None.
Proof.
  intros Hlook Hdec. unfold keykeeper.checkRevealProcess.
  rewrite Hlook, Hdec. cbn [reveal_calls storage set_storage].
  split; [|apply lookup_delete_eq].
  apply (reveal_all_frame Keccak256 crypto_Sign json_Marshal SendTX RandomHex).
Qed.

Lemma checkRevealProcess_other_buckets k height key :
  HasPrefix key dbPrefixBlock = true ->
  key <> dbPrefixBlock +:+ strconv.FormatInt height ->
  storage (checkRevealProcess k height) !! key = storage k !! key.
Proof.
  intros Hb Hne. unfold keykeeper.checkRevealProcess.
  destruct (storage k !! _) as [data|]; [|reflexivity].
  destruct (UnmarshalBinaryBare data) as [pids|]; [|reflexivity].
  cbn [storage set_storage]. rewrite lookup_delete_ne by congruence.
  now apply reveal_all_block_keys.
Qed.

Lemma Commit_unfold k height :
  Commit k height
  = publishPendingKeys (checkRevealProcess (scheduleRevealKeys k) height).
Proof. reflexivity. Qed.

Lemma scheduleRevealKeys_bucket k (pid : string) h :
  blockPool k !! pid = Some h \/
  bucket_has k (dbPrefixBlock +:+ strconv.FormatInt h) pid ->
  bucket_has (scheduleRevealKeys k) (dbPrefixBlock +:+ strconv.FormatInt h) pid.
Proof.
  intros H. unfold keykeeper.scheduleRevealKeys. destruct H as [Hpool|Hhas].
  - apply scheduleRevealKeys_fold_adds. now apply elem_of_map_to_list.
  - now apply scheduleRevealKeys_fold_keeps.
Qed.

Lemma block_key_of_height_inj (h h' : Z) :
  dbPrefixBlock +:+ strconv.FormatInt h = dbPrefixBlock +:+ strconv.FormatInt h' ->
  h = h'.
Proof.
  intros Heq. apply block_key_inj in Heq. unfold strconv.FormatInt in Heq.
  now apply (inj pretty) in Heq.
Qed.

Lemma Commit_other_buckets k k' height key :
  Commit k height = Ok k' ->
  HasPrefix key dbPrefixBlock = true ->
  key <> dbPrefixBlock +:+ strconv.FormatInt height ->
  storage k' !! key = storage (scheduleRevealKeys k) !! key.
Proof.
  intros HCommit Hb Hne. rewrite Commit_unfold in HCommit.
  destruct (publishPendingKeys_fold_frame _ _ _ HCommit) as (_ & _ & _ & Hst).
  rewrite Hst by exact Hb. now apply checkRevealProcess_other_buckets.
Qed.

(** X17. A process due at the committed height is revealed by that
    [Commit]: given a codec that reads back what it writes, when the
    block pool schedules the process for [height], or the bucket
    [b_<height>] already holds it, a [Commit] for [height] calls
    [revealKeys] for it, and the bucket is gone afterwards. *)
Theorem Commit_reveals_due_processes (k k' : KeyKeeper) (pid : string)
    (height : Z) :
  blockPool k !! pid = Some height \/
  bucket_has k (dbPrefixBlock +:+ strconv.FormatInt height) pid ->
  Commit k height = Ok k' ->
  (exists pids, pid ∈ pids /\ reveal_calls k' = reveal_calls k ++ pids) /\
  storage k' !! (dbPrefixBlock +:+ strconv.FormatInt height) = None.
Proof.
  intros H HCommit. rewrite Commit_unfold in HCommit.
  destruct (scheduleRevealKeys_bucket k pid height H)
    as (data & pids & Hlook & Hdec & Hin).
  destruct (checkRevealProcess_due _ height data pids Hlook Hdec)
    as (Hcalls & Hgone).
  destruct (publishPendingKeys_fold_frame _ _ _ HCommit)
    as (_ & _ & Hcalls' & Hst).
  split.
  - exists pids. split; [exact Hin|]. rewrite Hcalls', Hcalls.
    now destruct (scheduleRevealKeys_frame k) as (_ & _ & -> & _).
  - rewrite Hst by apply block_key_prefix. exact Hgone.
Qed.

(** X18. A [Commit] for another height keeps the schedule: given a codec
    that reads back what it writes, a process that the block pool
    schedules for [h], or that the bucket [b_<h>] already holds, is in
    the bucket [b_<h>] after a [Commit] for a height other than [h]. *)
Theorem Commit_keeps_later_buckets (k k' : KeyKeeper) (pid : string)
    (h height : Z) :
  blockPool k !! pid = Some h \/
  bucket_has k (dbPrefixBlock +:+ strconv.FormatInt h) pid ->
  height <> h ->
  Commit k height = Ok k' ->
  bucket_has k' (dbPrefixBlock +:+ strconv.FormatInt h) pid.
Proof.
  intros H Hne HCommit.
  destruct (scheduleRevealKeys_bucket k pid h H)
    as (data & pids & Hlook & Hdec & Hin).
  exists data, pids. split; [|auto].
  rewrite (Commit_other_buckets k k' height); [exact Hlook|exact HCommit| |].
  - apply block_key_prefix.
  - intros Heq. apply block_key_of_height_inj in Heq. congruence.
Qed.

Lemma Commit_empty_pools k height :
  keyPool k = ∅ -> blockPool k = ∅ ->
  Commit k height = Ok (checkRevealProcess k height).
Proof.
  intros Hk Hb. rewrite Commit_unfold.
  unfold keykeeper.scheduleRevealKeys. rewrite Hb, map_to_list_empty.
  cbn [foldl]. unfold keykeeper.publishPendingKeys.
  destruct (checkRevealProcess_pools Keccak256 crypto_Sign UnmarshalBinaryBare
              json_Marshal SendTX RandomHex k height) as (-> & _).
  now rewrite Hk, map_to_list_empty.
Qed.

(** X19. The keys of a cancelled process are revealed at the next block:
    given a codec that reads back what it writes, after [OnCancel] at
    a block of height [H], the [Commit] of that block, and the
    [Rollback] that opens the next block, the [Commit] for [H + 1]
    returns and has called [revealKeys] for the process. *)
Theorem OnCancel_reveals_at_next_block (k k1 k2 : KeyKeeper) (pid : string)
    (p : Process) (H : Z) :
  State_Process pid false = Ret p -> RequireKeys p = true ->
  State_Header false = Some H -> min_int64 <= H < max_int64 ->
  OnCancel k pid = Ok k1 ->
  Commit k1 H = Ok k2 ->
  exists k3 pids,
    Commit (Rollback k2) (H + 1) = Ok k3 /\
    pid ∈ pids /\ reveal_calls k3 = reveal_calls k2 ++ pids.
Proof.
  intros Hp Hreq Hh Hrange Hcancel HCommit.
  unfold keykeeper.OnCancel in Hcancel. rewrite Hp, Hreq, Hh in Hcancel.
  cbn [negb] in Hcancel. injection Hcancel as <-.
  rewrite add64_exact in HCommit by (unfold min_int64, max_int64 in *; lia).
  match type of HCommit with Commit ?k0 _ = _ =>
    destruct (scheduleRevealKeys_bucket k0 pid (H + 1))
      as (data & pids & Hlook & Hdec & Hin);
      [left; cbn [blockPool set_pools]; apply lookup_insert_eq|];
    rewrite <- (Commit_other_buckets k0 k2 H) in Hlook;
      [|exact HCommit|apply block_key_prefix
       |intros Heq; apply block_key_of_height_inj in Heq; lia]
  end.
  exists (checkRevealProcess (Rollback k2) (H + 1)), pids.
  split; [now apply Commit_empty_pools|]. split; [exact Hin|].
  now destruct (checkRevealProcess_due (Rollback k2) (H + 1) data pids Hlook Hdec)
    as (-> & _).
Qed.

End keeper_schedule.

(** *** Events: a process is added *)

(** X20. [OnProcess] is idempotent: a second call for the same process, as
    it happens when blocks are replayed, returns the keeper the first
    call returned; keys already in the pool are not generated again. *)
Theorem OnProcess_idempotent (k k1 : KeyKeeper) (pid eid : string) :
  OnProcess k pid eid = Ok k1 -> OnProcess k1 pid eid = Ok k1.
Proof.
  unfold keykeeper.OnProcess.
  destruct (State_Process pid false) as [p|]; [|now intros [= <-]].
  destruct (negb (RequireKeys p)); [now intros [= <-]|].
  destruct (index_string (EncryptionPublicKeys p) (myIndex k)) as [pub|m|m] eqn:Hpub;
    cbn [mbind res_bind bind]; try discriminate.
  destruct (index_string (CommitmentKeys p) (myIndex k)) as [com|m|m] eqn:Hcom;
    cbn [mbind res_bind bind]; try discriminate.
  destruct (0 <? String.length pub + String.length com)%nat eqn:Hkeys.
  { intros [= <-]. rewrite Hpub. cbn [mbind res_bind bind]. rewrite Hcom.
    cbn [mbind res_bind bind]. now rewrite Hkeys. }
  destruct (keyPool k !! pid) eqn:Hpool.
  { intros [= <-]. rewrite Hpub. cbn [mbind res_bind bind]. rewrite Hcom.
    cbn [mbind res_bind bind]. now rewrite Hkeys, Hpool. }
  destruct (keykeeper.generateKeys _ _ _ _ k pid) as [pk|m|m];
    try discriminate; intros [= <-]; cbn [myIndex keyPool set_pools];
    rewrite Hpub; cbn [mbind res_bind bind]; rewrite Hcom;
    cbn [mbind res_bind bind]; rewrite Hkeys;
    now rewrite lookup_insert_eq.
Qed.




(** *** Generated keys and their persisted form *)

(** X22. The keys [generateKeys] returns fill the four 32-byte arrays and
    carry the keeper's index, so they survive the storage: given a
    curve operation that returns 32 bytes and an index that is an
    [int8], decoding the encoded keys gives the generated keys back. *)
Theorem generateKeys_survive_storage (k : KeyKeeper) (pid : string)
    (pk : processKeys) :
  (forall b, length b = KeyLength -> length (derivePublic b) = KeyLength) ->
  is_int8 (myIndex k) ->
  generateKeys k pid = Ok pk ->
  wf_processKeys pk /\ Decode zero_processKeys (Encode pk) = Ok pk.
Proof.
  intros Hderive Hidx Hgen.
  assert (Hwf : wf_processKeys pk).
  { unfold keykeeper.generateKeys in Hgen.
    destruct (hex.DecodeString pid) as [pb|]; [|discriminate].
    destruct (signature.Private (signer k)) as [d|]; [|discriminate].
    unfold keykeeper.nacl_FromHex in Hgen.
    destruct (hex.DecodeString _) as [b|]; [|discriminate].
    destruct (Nat.eqb_spec (length b) KeyLength) as [Hb|]; [|discriminate].
    injection Hgen as <-. unfold wf_processKeys.
    cbn [pubKey privKey revealKey commitmentKey index kp_Public kp_Private].
    rewrite !length_copy.
    repeat split; auto; try apply Hidx. }
  split; [exact Hwf|].
  rewrite (Encode_layout pk Hwf).
  apply Decode_layout; [apply zero_processKeys_wf|exact Hwf].
Qed.

End keeper_more.

(** *** The properties on sample values *)

Lemma toy_dec_enc_string s : forall data cur acc,
  samples.toy_dec (samples.toy_enc_string s ++ data) cur acc
  = samples.toy_dec data []
      (string_of_list_ascii (rev cur ++ list_ascii_of_string s) :: acc).
Proof.
  induction s as [|c s IH]; intros data cur acc.
  - cbn. now rewrite app_nil_r.
  - cbn [samples.toy_enc_string app samples.toy_dec Byte.eqb].
    change (Byte.eqb x01 x00) with false. cbv iota.
    rewrite IH, ascii_of_byte_of_ascii. cbn [rev list_ascii_of_string].
    now rewrite <- app_assoc.
Qed.

Lemma toy_dec_concat pids : forall acc,
  samples.toy_dec (concat (samples.toy_enc_string <$> pids)) [] acc
  = Ret (rev acc ++ pids).
Proof.
  induction pids as [|p pids IH]; intros acc.
  - cbn. now rewrite app_nil_r.
  - cbn [fmap list_fmap concat]. rewrite toy_dec_enc_string, IH.
    cbn [rev app]. rewrite string_of_list_ascii_of_string.
    now rewrite <- app_assoc.
Qed.

Lemma toy_codec_round_trip (pids : list string) :
  exists data, samples.toy_codec_Marshal pids = Ret data /\
               samples.toy_codec_Unmarshal data = Ret pids.
Proof.
  eexists. split; [reflexivity|]. apply (toy_dec_concat pids []).
Qed.

Lemma publishKeys_never_overwrites_witness :
  keykeeper.storage
    (fst (keykeeper.publishKeys samples.toy_keccak samples.toy_sign
            samples.toy_json samples.toy_SendTX samples.toy_RandomHex
            samples.sample_stored_keeper (Some samples.sample_generated) "ab01"))
  = keykeeper.storage samples.sample_stored_keeper /\
  snd (keykeeper.publishKeys samples.toy_keccak samples.toy_sign
         samples.toy_json samples.toy_SendTX samples.toy_RandomHex
         samples.sample_stored_keeper (Some samples.sample_generated) "ab01")
  <> Ok tt.
Proof.
  apply (publishKeys_never_overwrites samples.toy_keccak samples.toy_sign
           samples.toy_json samples.toy_SendTX samples.toy_RandomHex
           samples.sample_stored_keeper (Some samples.sample_generated) "ab01"
           (keykeeper.Encode samples.sample_processKeys)).
  vm_compute. reflexivity.
Defined.

Lemma revealKeys_only_once_witness :
  keykeeper.storage samples.sample_revealed !! "p_ab01" = None /\
  keykeeper.sent
    (fst (keykeeper.revealKeys samples.toy_keccak samples.toy_sign
            samples.toy_json samples.toy_SendTX samples.toy_RandomHex
            samples.sample_revealed "ab01"))
  = keykeeper.sent samples.sample_revealed /\
  snd (keykeeper.revealKeys samples.toy_keccak samples.toy_sign
         samples.toy_json samples.toy_SendTX samples.toy_RandomHex
         samples.sample_revealed "ab01")
  = Err "cannot fetch reveal keys from storage".
Proof.
  apply (revealKeys_only_once samples.toy_keccak samples.toy_sign
           samples.toy_json samples.toy_SendTX samples.toy_RandomHex
           samples.sample_stored_keeper samples.sample_revealed "ab01").
  vm_compute. reflexivity.
Defined.

Lemma publishKeys_then_revealKeys_witness :
  keykeeper.storage samples.sample_published !! "p_ab01"
    = Some (keykeeper.Encode samples.sample_processKeys) /\
  snd (keykeeper.revealKeys samples.toy_keccak samples.toy_sign
         samples.toy_json samples.toy_SendTX samples.toy_RandomHex
         samples.sample_published "ab01") = Ok tt /\
  keykeeper.sent
    (fst (keykeeper.revealKeys samples.toy_keccak samples.toy_sign
            samples.toy_json samples.toy_SendTX samples.toy_RandomHex
            samples.sample_published "ab01"))
  = keykeeper.sent samples.sample_published ++ [samples.sample_reveal_signed] /\
  keykeeper.storage
    (fst (keykeeper.revealKeys samples.toy_keccak samples.toy_sign
            samples.toy_json samples.toy_SendTX samples.toy_RandomHex
            samples.sample_published "ab01"))
  = keykeeper.storage samples.sample_keeper.
Proof.
  apply (publishKeys_then_revealKeys samples.toy_keccak samples.toy_sign
           samples.toy_json samples.toy_SendTX samples.toy_RandomHex
           samples.sample_keeper samples.sample_published
           samples.sample_processKeys "ab01" samples.sample_reveal_txBytes
           samples.sample_reveal_sig samples.sample_reveal_signed [] 258);
    first [apply sample_processKeys_wf | vm_compute; reflexivity].
Defined.

Lemma scheduleRevealKeys_fills_buckets_witness :
  (exists data pids,
     keykeeper.storage
       (keykeeper.scheduleRevealKeys samples.toy_codec_Marshal
          samples.toy_codec_Unmarshal samples.sample_after_process)
       !! (keykeeper.dbPrefixBlock +:+ strconv.FormatInt 30) = Some data /\
     samples.toy_codec_Unmarshal data = Ret pids /\ "ab01" ∈ pids) /\
  forall p,
    keykeeper.storage
      (keykeeper.scheduleRevealKeys samples.toy_codec_Marshal
         samples.toy_codec_Unmarshal samples.sample_after_process)
      !! (keykeeper.dbPrefixProcess +:+ p)
    = keykeeper.storage samples.sample_after_process
        !! (keykeeper.dbPrefixProcess +:+ p).
Proof.
  apply (scheduleRevealKeys_fills_buckets samples.toy_codec_Marshal
           samples.toy_codec_Unmarshal toy_codec_round_trip
           samples.sample_after_process "ab01" 30).
  left. vm_compute. reflexivity.
Defined.

Lemma Commit_reveals_due_processes_witness :
  (exists pids,
     "ab01" ∈ pids /\
     keykeeper.reveal_calls
       (samples.sample_commit samples.sample_after_process 30)
     = keykeeper.reveal_calls samples.sample_after_process ++ pids) /\
  keykeeper.storage (samples.sample_commit samples.sample_after_process 30)
    !! (keykeeper.dbPrefixBlock +:+ strconv.FormatInt 30) = None.
Proof.
  apply (Commit_reveals_due_processes samples.toy_keccak samples.toy_sign
           samples.toy_codec_Marshal samples.toy_codec_Unmarshal
           samples.toy_json samples.toy_SendTX samples.toy_RandomHex
           toy_codec_round_trip samples.sample_after_process
           (samples.sample_commit samples.sample_after_process 30) "ab01" 30).
  - left. vm_compute. reflexivity.
  - vm_compute. reflexivity.
Defined.

Lemma Commit_keeps_later_buckets_witness :
  exists data pids,
    keykeeper.storage (samples.sample_commit samples.sample_after_process 12)
      !! (keykeeper.dbPrefixBlock +:+ strconv.FormatInt 30) = Some data /\
    samples.toy_codec_Unmarshal data = Ret pids /\ "ab01" ∈ pids.
Proof.
  apply (Commit_keeps_later_buckets samples.toy_keccak samples.toy_sign
           samples.toy_codec_Marshal samples.toy_codec_Unmarshal
           samples.toy_json samples.toy_SendTX samples.toy_RandomHex
           toy_codec_round_trip samples.sample_after_process
           (samples.sample_commit samples.sample_after_process 12) "ab01" 30 12).
  - left. vm_compute. reflexivity.
  - lia.
  - vm_compute. reflexivity.
Defined.

Lemma OnCancel_reveals_at_next_block_witness :
  exists k3 pids,
    keykeeper.Commit samples.toy_keccak samples.toy_sign
      samples.toy_codec_Marshal samples.toy_codec_Unmarshal samples.toy_json
      samples.toy_SendTX samples.toy_RandomHex
      (keykeeper.Rollback (samples.sample_commit samples.sample_cancelled 9))
      (9 + 1) = Ok k3 /\
    "ab01" ∈ pids /\
    keykeeper.reveal_calls k3
    = keykeeper.reveal_calls (samples.sample_commit samples.sample_cancelled 9)
      ++ pids.
Proof.
  apply (OnCancel_reveals_at_next_block samples.toy_keccak samples.toy_sign
           samples.toy_State_Process samples.toy_State_Header
           samples.toy_codec_Marshal samples.toy_codec_Unmarshal
           samples.toy_json samples.toy_SendTX samples.toy_RandomHex
           toy_codec_round_trip samples.sample_keeper samples.sample_cancelled
           (samples.sample_commit samples.sample_cancelled 9) "ab01"
           samples.sample_process 9);
    first [reflexivity | unfold min_int64, max_int64; lia
          | vm_compute; reflexivity].
Defined.

Lemma OnProcess_idempotent_witness :
  keykeeper.OnProcess samples.toy_keccak samples.toy_poseidon
    samples.toy_BigIntToHash samples.toy_derivePublic samples.toy_State_Process
    samples.sample_after_process "ab01" "" = Ok samples.sample_after_process.
Proof.
  apply (OnProcess_idempotent samples.toy_keccak samples.toy_poseidon
           samples.toy_BigIntToHash samples.toy_derivePublic
           samples.toy_State_Process samples.sample_keeper
           samples.sample_after_process "ab01" "").
  vm_compute. reflexivity.
Defined.


Lemma toy_derivePublic_length (b : list byte) :
  length b = keykeeper.KeyLength ->
  length (samples.toy_derivePublic b) = keykeeper.KeyLength.
Proof. intros H. unfold samples.toy_derivePublic. now rewrite length_reverse. Qed.

Lemma generateKeys_survive_storage_witness :
  keykeeper.wf_processKeys samples.sample_generated /\
  keykeeper.Decode keykeeper.zero_processKeys
    (keykeeper.Encode samples.sample_generated) = Ok samples.sample_generated.
Proof.
  apply (generateKeys_survive_storage samples.toy_keccak samples.toy_poseidon
           samples.toy_BigIntToHash samples.toy_derivePublic
           samples.sample_keeper "ab01" samples.sample_generated
           toy_derivePublic_length).
  - unfold is_int8. cbn. lia.
  - vm_compute. reflexivity.
Defined.

(** ** Scrutinizer: pruning and reading the results *)

Section drop_trailing_facts.
Context {A : Type} (P : A -> bool).

Lemma drop_trailing_snoc (l : list A) (a : A) :
  scrutinizer.drop_trailing P (l ++ [a])
  = if P a then scrutinizer.drop_trailing P l else l ++ [a].
Proof.
  induction l as [|x l IH]; [cbn; now destruct (P a)|].
  cbn [app scrutinizer.drop_trailing]. rewrite IH.
  destruct (P a); [reflexivity|]. now destruct l.
Qed.

Lemma drop_trailing_prefix (l : list A) :
  scrutinizer.drop_trailing P l
  = take (length (scrutinizer.drop_trailing P l)) l.
Proof.
  induction l as [|x l IH]; [reflexivity|].
  cbn [scrutinizer.drop_trailing].
  destruct (scrutinizer.drop_trailing P l) as [|y t] eqn:Ht.
  - destruct (P x); reflexivity.
  - cbn [length take]. f_equal. exact IH.
Qed.

Lemma drop_trailing_nil (l : list A) :
  scrutinizer.drop_trailing P l = [] <-> forallb P l = true.
Proof.
  induction l as [|x l IH]; [easy|].
  cbn [scrutinizer.drop_trailing forallb].
  destruct (scrutinizer.drop_trailing P l) as [|y t].
  - destruct IH as [IH _]. rewrite IH by reflexivity.
    destruct (P x); cbn; split; congruence.
  - split; [discriminate|]. intros H. apply andb_true_iff in H as [_ H].
    apply IH in H. discriminate.
Qed.

(** An element on which [P] fails is before the cut. *)
Lemma drop_trailing_keeps (l : list A) (i : nat) (a : A) :
  l !! i = Some a -> P a = false ->
  (i < length (scrutinizer.drop_trailing P l))%nat.
Proof.
  revert i. induction l as [|x l IH]; intros i Hi Ha; [inversion Hi|].
  cbn [scrutinizer.drop_trailing]. destruct i as [|i].
  - injection Hi as ->.
    destruct (scrutinizer.drop_trailing P l); [rewrite Ha|]; cbn; lia.
  - cbn in Hi. specialize (IH i Hi Ha).
    destruct (scrutinizer.drop_trailing P l); cbn in IH |- *; lia.
Qed.

Lemma drop_trailing_lookup (l : list A) (i : nat) (a : A) :
  scrutinizer.drop_trailing P l !! i = Some a -> l !! i = Some a.
Proof.
  rewrite drop_trailing_prefix. intros H.
  apply lookup_take_Some in H. tauto.
Qed.

End drop_trailing_facts.

Section scans.
Import scrutinizer.

(** A backward scan for the last element on which [P] fails. *)
Lemma scan_reverse_drop_trailing {A} (P : A -> bool) (f : Z -> res bool)
    (dflt : Z) (l : list A) :
  (forall i a, l !! i = Some a -> f (Z.of_nat i) = Ok (negb (P a))) ->
  scan f (reverse (seqZ 0 (Z.of_nat (length l)))) dflt
  = Ok (match drop_trailing P l with
        | [] => dflt
        | t => Z.of_nat (length t) - 1
        end).
Proof.
  induction l as [|a l IH] using rev_ind; intros Hf; [reflexivity|].
  rewrite length_app, Nat.add_1_r, seqZ_S, reverse_snoc.
  cbn [scan]. rewrite Z.add_0_l.
  rewrite (Hf (length l) a) by (now apply list_lookup_middle).
  cbn [mbind res_bind bind]. rewrite drop_trailing_snoc.
  destruct (P a); cbn [negb].
  - apply IH. intros i b Hi. apply Hf.
    rewrite lookup_app_l; [exact Hi|]. now apply lookup_lt_Some in Hi.
  - destruct l as [|x l]; cbn [app length]; f_equal;
      rewrite ?length_app; cbn [length]; lia.
Qed.

(** A forward scan that stops at the first element on which [P]
    fails. *)
Lemma scan_forward_all {A} (P : A -> bool) (f : Z -> res bool) (dflt : Z)
    (l : list A) : forall off,
  (forall i a, l !! i = Some a -> f (Z.of_nat (off + i)) = Ok (negb (P a))) ->
  exists j, scan f (seqZ (Z.of_nat off) (Z.of_nat (length l))) dflt = Ok j /\
            if forallb P l then j = dflt
            else Z.of_nat off <= j < Z.of_nat (off + length l).
Proof.
  induction l as [|a l IH]; intros off Hf; [exists dflt; now split|].
  rewrite seqZ_cons by (cbn [length]; lia). cbn [scan].
  specialize (Hf 0%nat a eq_refl) as Hf0. rewrite Nat.add_0_r in Hf0.
  rewrite Hf0. cbn [mbind res_bind bind forallb].
  destruct (P a); cbn [negb andb].
  - destruct (IH (S off)) as (j & Hj & Hspec).
    { intros i b Hi. replace (S off + i)%nat with (off + S i)%nat by lia.
      now apply Hf. }
    exists j. replace (Z.succ (Z.of_nat off)) with (Z.of_nat (S off)) by lia.
    replace (Z.pred (Z.of_nat (length (a :: l)))) with (Z.of_nat (length l))
      by (cbn [length]; lia).
    split; [exact Hj|]. destruct (forallb P l); [exact Hspec|].
    cbn [length]; lia.
  - exists (Z.of_nat off). split; [reflexivity|]. cbn [length]. lia.
Qed.

Lemma mapM_seqZ {A B} (g : A -> B) (f : Z -> res B) (l : list A) : forall off,
  (forall i a, l !! i = Some a -> f (Z.of_nat (off + i)) = Ok (g a)) ->
  mapM f (seqZ (Z.of_nat off) (Z.of_nat (length l))) = Ok (g <$> l).
Proof.
  induction l as [|a l IH]; intros off Hf; [reflexivity|].
  rewrite seqZ_cons by (cbn [length]; lia). cbn [mapM].
  specialize (Hf 0%nat a eq_refl) as Hf0. rewrite Nat.add_0_r in Hf0.
  rewrite Hf0. cbn [mbind res_bind bind].
  replace (Z.succ (Z.of_nat off)) with (Z.of_nat (S off)) by lia.
  replace (Z.pred (Z.of_nat (length (a :: l)))) with (Z.of_nat (length l))
    by (cbn [length]; lia).
  rewrite (IH (S off)); [reflexivity|].
  intros i b Hi. replace (S off + i)%nat with (off + S i)%nat by lia.
      now apply Hf.
Qed.

(** A loop that keeps only the value of its last round. *)
Lemma foldl_last_round {B} (F : Z -> res B) (b0 : B) (K : nat) :
  (forall i, (i < K)%nat -> is_Ok (F (Z.of_nat i))) ->
  foldl (fun acc i => _ ← acc; F i) (Ok b0) (seqZ 0 (Z.of_nat K))
  = match K with
    | O => Ok b0
    | S k => F (Z.of_nat k)
    end.
Proof.
  induction K as [|k IH]; intros HF; [reflexivity|].
  rewrite seqZ_S, foldl_app. cbn [foldl]. rewrite Z.add_0_l.
  rewrite IH by (intros i Hi; apply HF; lia).
  destruct k as [|k']; [reflexivity|].
  destruct (HF k' ltac:(lia)) as [v ->]. reflexivity.
Qed.

End scans.

Section pruning.
Import types scrutinizer.
Variable MaxQuestions : Z.
Variable MaxOptions : Z.

Local Abbreviation well_shaped := (scrutinizer.well_shaped MaxQuestions MaxOptions).
Local Abbreviation pruneVoteResult :=
  (scrutinizer.pruneVoteResult MaxQuestions MaxOptions).
Local Abbreviation prune_last_option := (scrutinizer.prune_last_option MaxOptions).
Local Abbreviation prune_scan_options := (scrutinizer.prune_scan_options MaxOptions).
Local Abbreviation prune_rows := (scrutinizer.prune_rows MaxOptions).

Lemma row_Ok (pv : ProcessVotes) (qi : nat) r :
  pv !! qi = Some r -> row pv (Z.of_nat qi) = Ok r.
Proof.
  intros Hr. unfold row.
  replace (Z.of_nat qi <? 0) with false by (symmetry; apply Z.ltb_ge; lia).
  now rewrite Nat2Z.id, Hr.
Qed.

Lemma cell_Ok (pv : ProcessVotes) (qi oi : nat) r c :
  pv !! qi = Some r -> r !! oi = Some c ->
  cell pv (Z.of_nat qi) (Z.of_nat oi) = Ok c.
Proof.
  intros Hr Hc. unfold cell. rewrite (row_Ok pv qi r Hr).
  cbn [mbind res_bind bind].
  replace (Z.of_nat oi <? 0) with false by (symmetry; apply Z.ltb_ge; lia).
  now rewrite Nat2Z.id, Hc.
Qed.

Lemma prune_last_option_row (pv : ProcessVotes) (qi : nat) r :
  0 <= MaxOptions ->
  pv !! qi = Some r -> length r = Z.to_nat MaxOptions ->
  prune_last_option pv (Z.of_nat qi)
  = Ok (Z.of_nat (length (drop_trailing is_zero r)) - 1).
Proof.
  intros Hpos Hr Hlen. unfold scrutinizer.prune_last_option.
  replace MaxOptions with (Z.of_nat (length r)) by lia.
  rewrite (scan_reverse_drop_trailing is_zero _ _ r).
  - destruct (drop_trailing is_zero r); reflexivity.
  - intros i c Hi. now rewrite (cell_Ok pv qi i r c Hr Hi).
Qed.

Lemma prune_scan_options_row (pv : ProcessVotes) (qi : nat) r :
  0 <= MaxOptions ->
  pv !! qi = Some r -> length r = Z.to_nat MaxOptions ->
  exists j, prune_scan_options pv (Z.of_nat qi) = Ok j /\
            (j <? MaxOptions) = negb (all_zero r).
Proof.
  intros Hpos Hr Hlen. unfold scrutinizer.prune_scan_options.
  destruct (scan_forward_all is_zero
              (fun j => c ← cell pv (Z.of_nat qi) j; Ok (negb (c =? 0)))
              MaxOptions r 0) as (j & Hj & Hspec).
  { intros i c Hi. cbn [Nat.add]. now rewrite (cell_Ok pv qi i r c Hr Hi). }
  exists j. change (Z.of_nat 0) with 0 in Hj. replace (Z.of_nat (length r)) with MaxOptions in Hj by lia.
  split; [exact Hj|]. unfold all_zero.
  destruct (forallb is_zero r); cbn [negb].
  - subst j. apply Z.ltb_irrefl.
  - apply Z.ltb_lt. lia.
Qed.

Lemma prune_rows_Ok (pv : ProcessVotes) (k : nat) :
  0 <= MaxOptions ->
  Forall (fun r => length r = Z.to_nat MaxOptions) pv ->
  (k <= length pv)%nat ->
  prune_rows pv (Z.of_nat k - 1) = Ok (drop_trailing is_zero <$> take k pv).
Proof.
  intros Hpos Hrows Hk. unfold scrutinizer.prune_rows.
  replace (Z.of_nat k - 1 + 1) with (Z.of_nat (length (take k pv)))
    by (rewrite length_take; lia).
  apply (mapM_seqZ (drop_trailing is_zero) _ (take k pv) 0).
  intros i r Hi. apply lookup_take_Some in Hi as [Hi _].
  assert (Hlen : length r = Z.to_nat MaxOptions).
  { rewrite Forall_forall in Hrows. eapply Hrows, list_elem_of_lookup_2, Hi. }
  cbn [Nat.add].
  rewrite (prune_last_option_row pv i r Hpos Hi Hlen).
  cbn [mbind res_bind bind]. rewrite (row_Ok pv i r Hi).
  cbn [mbind res_bind bind]. f_equal.
  replace (Z.to_nat (Z.of_nat (length (drop_trailing is_zero r)) - 1 + 1))
    with (length (drop_trailing is_zero r)) by lia.
  unfold copy. rewrite length_replicate.
  rewrite <- drop_trailing_prefix.
  rewrite drop_ge; [apply app_nil_r|].
  rewrite length_replicate, (drop_trailing_prefix is_zero r) at 1.
  rewrite length_take. lia.
Qed.

Lemma pruneVoteResult_pruned (pv : ProcessVotes) :
  0 <= MaxQuestions -> 0 <= MaxOptions -> well_shaped pv ->
  pruneVoteResult pv = Ok (pruned pv).
Proof.
  intros HQ HO [Hlen Hrows]. unfold scrutinizer.pruneVoteResult. cbn zeta.
  replace MaxQuestions with (Z.of_nat (length pv)) by lia.
  rewrite (scan_reverse_drop_trailing all_zero _ _ pv); cycle 1.
  { intros i r Hi.
    assert (Hr : length r = Z.to_nat MaxOptions).
    { rewrite Forall_forall in Hrows. eapply Hrows, list_elem_of_lookup_2, Hi. }
    destruct (prune_scan_options_row pv i r HO Hi Hr) as (j & -> & Hj).
    cbn [mbind res_bind bind]. now rewrite Hj. }
  cbn [mbind res_bind bind].
  set (K := length (drop_trailing all_zero pv)).
  assert (HK : (K <= length pv)%nat).
  { unfold K. rewrite (drop_trailing_prefix all_zero pv) at 1.
    rewrite length_take. lia. }
  assert (Hmin : match drop_trailing all_zero pv with
                 | [] => -1
                 | a :: l0 => Z.of_nat (length (a :: l0)) - 1
                 end + 1 = Z.of_nat K)
    by (unfold K; destruct (drop_trailing all_zero pv); cbn [length]; lia).
  rewrite Hmin.
  rewrite (foldl_last_round (prune_rows pv) [] K); cycle 1.
  { intros i Hi. replace (Z.of_nat i) with (Z.of_nat (S i) - 1) by lia.
    rewrite prune_rows_Ok by (auto; lia). eexists. reflexivity. }
  unfold pruned. fold K.
  destruct K as [|k] eqn:HKeq.
  - unfold K in HKeq. apply nil_length_inv in HKeq. now rewrite HKeq.
  - replace (Z.of_nat k) with (Z.of_nat (S k) - 1) by lia.
    rewrite prune_rows_Ok by (auto; lia). f_equal. f_equal.
    rewrite <- HKeq. unfold K. symmetry. apply drop_trailing_prefix.
Qed.

Lemma drop_trailing_lookup_lt {A} (P : A -> bool) (l : list A) i a :
  l !! i = Some a -> (i < length (drop_trailing P l))%nat ->
  drop_trailing P l !! i = Some a.
Proof.
  intros Hi Hlt. rewrite drop_trailing_prefix.
  apply lookup_take_Some. auto.
Qed.

Lemma pruned_counter_1 (pv : ProcessVotes) q o c :
  counter (pruned pv) q o = Some c -> counter pv q o = Some c.
Proof.
  unfold counter, pruned. rewrite list_lookup_fmap.
  destruct (drop_trailing all_zero pv !! q) as [r|] eqn:Hr; [|discriminate].
  cbn. intros Hc. apply drop_trailing_lookup in Hr, Hc. now rewrite Hr.
Qed.

Lemma pruned_counter_2 (pv : ProcessVotes) q o c :
  counter pv q o = Some c -> c <> 0 -> counter (pruned pv) q o = Some c.
Proof.
  unfold counter, pruned. rewrite list_lookup_fmap.
  destruct (pv !! q) as [r|] eqn:Hr; [|discriminate]. cbn. intros Hc Hne.
  assert (Hz : is_zero c = false) by (now apply Z.eqb_neq).
  assert (Hall : all_zero r = false).
  { unfold all_zero. apply not_true_is_false. intros Hall.
    rewrite forallb_forall in Hall.
    rewrite (Hall c) in Hz; [discriminate|].
    apply list_elem_of_In. eapply list_elem_of_lookup_2, Hc. }
  rewrite (drop_trailing_lookup_lt all_zero pv q r Hr)
    by (now apply (drop_trailing_keeps all_zero pv q r)).
  cbn. apply drop_trailing_lookup_lt; [exact Hc|].
  now apply (drop_trailing_keeps is_zero r o c).
Qed.

(** X23. [pruneVoteResult] cuts zeros and nothing else: on a tally of
    [MaxQuestions] rows of [MaxOptions] counters it never panics; it
    returns the tally without the questions after the last one that has
    a vote, each remaining question without the options after its last
    option that has a vote; every counter of the result is the counter
    of the tally at the same place, and every counter of the tally
    that is not zero is in the result. *)
Theorem pruneVoteResult_cuts_only_zeros (pv : ProcessVotes) :
  0 <= MaxQuestions -> 0 <= MaxOptions -> well_shaped pv ->
  pruneVoteResult pv = Ok (pruned pv) /\
  (forall q o c, counter (pruned pv) q o = Some c -> counter pv q o = Some c) /\
  (forall q o c, counter pv q o = Some c -> c <> 0 ->
                 counter (pruned pv) q o = Some c).
Proof.
  intros HQ HO Hshape. split; [now apply pruneVoteResult_pruned|].
  split; [apply pruned_counter_1|apply pruned_counter_2].
Qed.

End pruning.

Section scrutinizer_results.
Import types scrutinizer.
Variable MaxQuestions : Z.
Variable MaxOptions : Z.
Variable MaxKeyIndex : Z.
Variable nacl_DecodePrivate : string -> outcome (list byte).
Variable nacl_Decrypt : list byte -> list byte -> outcome (list byte).
Variable json_Unmarshal : list byte -> outcome VotePackageStruct.
Variable MarshalBinaryBare : ProcessVotes -> outcome (list byte).
Variable UnmarshalBinaryBare : list byte -> outcome ProcessVotes.
Variable State_Process : string -> outcome Process.
Variable State_EnvelopeList : string -> list string.
Variable State_EnvelopeList' : string -> list string.
Variable State_Envelope : string -> string -> outcome Vote.
Variable isLiveResultsProcess : string -> outcome bool.
Variable encode : string -> string -> string.

Local Abbreviation unmarshalVote :=
  (scrutinizer.unmarshalVote nacl_DecodePrivate nacl_Decrypt json_Unmarshal).
Local Abbreviation envelope_keys := (scrutinizer.envelope_keys MaxKeyIndex).
Local Abbreviation envelope_votePackage :=
  (scrutinizer.envelope_votePackage MaxKeyIndex nacl_DecodePrivate nacl_Decrypt
     json_Unmarshal).
Local Abbreviation envelope_fits :=
  (scrutinizer.envelope_fits MaxQuestions MaxOptions MaxKeyIndex
     nacl_DecodePrivate nacl_Decrypt json_Unmarshal State_Envelope).
Local Abbreviation tally := (scrutinizer.tally MaxOptions).
Local Abbreviation count_vote := (scrutinizer.count_vote MaxOptions).
Local Abbreviation count_votes := (scrutinizer.count_votes MaxOptions).
Local Abbreviation well_shaped := (scrutinizer.well_shaped MaxQuestions MaxOptions).
Local Abbreviation pruneVoteResult :=
  (scrutinizer.pruneVoteResult MaxQuestions MaxOptions).
Local Abbreviation addLiveResultsVote :=
  (scrutinizer.addLiveResultsVote MaxQuestions MaxOptions nacl_DecodePrivate
     nacl_Decrypt json_Unmarshal MarshalBinaryBare UnmarshalBinaryBare encode).
Local Abbreviation computeLiveResults :=
  (scrutinizer.computeLiveResults MaxQuestions MaxOptions UnmarshalBinaryBare
     encode).
Local Abbreviation computeNonLiveResults_step :=
  (scrutinizer.computeNonLiveResults_step MaxOptions MaxKeyIndex
     nacl_DecodePrivate nacl_Decrypt json_Unmarshal State_Envelope).
Local Abbreviation computeNonLiveResults :=
  (scrutinizer.computeNonLiveResults MaxQuestions MaxOptions MaxKeyIndex
     nacl_DecodePrivate nacl_Decrypt json_Unmarshal State_EnvelopeList
     State_Envelope).
Local Abbreviation computeNonLiveResults' :=
  (scrutinizer.computeNonLiveResults MaxQuestions MaxOptions MaxKeyIndex
     nacl_DecodePrivate nacl_Decrypt json_Unmarshal State_EnvelopeList'
     State_Envelope).
Local Abbreviation ComputeResult :=
  (scrutinizer.ComputeResult MaxQuestions MaxOptions MaxKeyIndex
     nacl_DecodePrivate nacl_Decrypt json_Unmarshal MarshalBinaryBare
     UnmarshalBinaryBare State_Process State_EnvelopeList State_Envelope
     isLiveResultsProcess encode).
Local Abbreviation VoteResult :=
  (scrutinizer.VoteResult MaxQuestions MaxOptions UnmarshalBinaryBare
     State_Process isLiveResultsProcess encode).

(** *** Computing, then reading *)

(** X24. [VoteResult] after [ComputeResult] returns what was computed:
    given a codec that reads back what it writes, when [ComputeResult]
    returns no error, [VoteResult] on the new storage returns the
    stored tally; for a live process that is the tally [VoteResult]
    returned before, and for another process it is the tally of
    [computeNonLiveResults], where [VoteResult] had no results yet. *)
Theorem ComputeResult_then_VoteResult (s s' : Storage) (processID : string) :
  (forall pv data, MarshalBinaryBare pv = Ret data ->
                   UnmarshalBinaryBare data = Ret pv) ->
  ComputeResult s processID = (s', Ok tt) ->
  exists pv,
    VoteResult s' processID = Ok pv /\
    ((isLiveResultsProcess processID = Ret true /\
      VoteResult s processID = Ok pv) \/
     (isLiveResultsProcess processID = Ret false /\
      VoteResult s processID = Err ErrNoResultsYet /\
      exists p, State_Process processID = Ret p /\
                computeNonLiveResults processID p = Ok pv)).
Proof.
  intros Hcodec. unfold scrutinizer.ComputeResult, scrutinizer.VoteResult.
  destruct (State_Process processID) as [p|]; [|intros [= _ ?]; discriminate].
  unfold Storage_Get.
  destruct (s !! encode "results" processID) eqn:Hres;
    [intros [= _ ?]; discriminate|].
  destruct (isLiveResultsProcess processID) as [[|]|];
    [| |intros [= _ ?]; discriminate].
  - destruct (scrutinizer.computeLiveResults _ _ _ _ s processID)
      as [pv|m|m] eqn:Hlive; try (intros [= _ ?]; discriminate).
    destruct (MarshalBinaryBare pv) as [result|] eqn:Hm;
      [|intros [= _ ?]; discriminate].
    intros [= <-]. exists pv.
    rewrite lookup_insert_eq, (Hcodec pv result Hm).
    split; [reflexivity|]. left. auto.
  - destruct (scrutinizer.computeNonLiveResults _ _ _ _ _ _ _ _ processID p)
      as [pv|m|m] eqn:Hnon; try (intros [= _ ?]; discriminate).
    destruct (MarshalBinaryBare pv) as [result|] eqn:Hm;
      [|intros [= _ ?]; discriminate].
    intros [= <-]. exists pv.
    rewrite lookup_insert_eq, (Hcodec pv result Hm).
    split; [reflexivity|]. right. split; [reflexivity|].
    split; [reflexivity|]. exists p. auto.
Qed.

(** *** Live votes and live results *)

(** X25. [addLiveResultsVote] reads the tally stored under [liveProcess] and
    writes the new tally under [process]: when the keys of kind
    [process] are not keys of kind [liveProcess] or [results], adding a
    vote changes neither the live tally a later vote starts from nor
    what [VoteResult] returns, for any process. *)
Theorem addLiveResultsVote_not_in_results (s : Storage) (envelope : Vote)
    (processID : string) :
  (forall pid pid', encode "process" pid <> encode "liveProcess" pid' /\
                    encode "process" pid <> encode "results" pid') ->
  fst (addLiveResultsVote s envelope) !! encode "liveProcess" processID
    = s !! encode "liveProcess" processID /\
  computeLiveResults (fst (addLiveResultsVote s envelope)) processID
    = computeLiveResults s processID /\
  VoteResult (fst (addLiveResultsVote s envelope)) processID
    = VoteResult s processID.
Proof.
  intros Hkeys.
  assert (Hs : fst (addLiveResultsVote s envelope) = s \/
               exists pid data,
                 fst (addLiveResultsVote s envelope)
                 = <[encode "process" pid := data]> s).
  { unfold scrutinizer.addLiveResultsVote.
    destruct (ProcessID envelope) as [pid|]; [|now left].
    destruct (scrutinizer.unmarshalVote _ _ _ _ _) as [vote|m|m];
      [|now left..].
    destruct (MaxQuestions <? _); [now left|].
    destruct (Storage_Get s _) as [process|]; [|now left].
    destruct (UnmarshalBinaryBare process) as [pv|]; [|now left].
    destruct (scrutinizer.tally _ _ _ _) as [pv'|m|m]; [|now left..].
    destruct (MarshalBinaryBare pv') as [data|]; [|now left].
    right. now exists pid, data. }
  destruct Hs as [->|(pid & data & ->)]; [auto|].
  assert (Hlive : <[encode "process" pid := data]> s
                    !! encode "liveProcess" processID
                  = s !! encode "liveProcess" processID)
    by (apply lookup_insert_ne, Hkeys).
  assert (Hres : <[encode "process" pid := data]> s
                   !! encode "results" processID
                 = s !! encode "results" processID)
    by (apply lookup_insert_ne, Hkeys).
  assert (Hcl : computeLiveResults (<[encode "process" pid := data]> s) processID
                = computeLiveResults s processID).
  { unfold scrutinizer.computeLiveResults, Storage_Get. now rewrite Hlive. }
  split; [exact Hlive|]. split; [exact Hcl|].
  unfold scrutinizer.VoteResult, Storage_Get. rewrite Hres.
  fold (computeLiveResults (<[encode "process" pid := data]> s) processID).
  now rewrite Hcl.
Qed.

(** *** The order of the envelopes *)

Lemma alter_comm (f : Z -> Z) (i j : nat) (r : list Z) :
  alter f i (alter f j r) = alter f j (alter f i r).
Proof.
  destruct (decide (i = j)) as [->|Hij]; [reflexivity|].
  apply list_eq. intros k.
  destruct (decide (k = i)) as [Hki|Hki], (decide (k = j)) as [Hkj|Hkj];
    try congruence; subst;
    repeat first [rewrite list_lookup_alter_eq
                 | rewrite list_lookup_alter_ne by congruence];
    reflexivity.
Qed.

Lemma count_vote_comm r o1 o2 :
  count_vote (count_vote r o1) o2 = count_vote (count_vote r o2) o1.
Proof.
  unfold scrutinizer.count_vote.
  destruct (_ && _), (_ && _); try reflexivity. apply alter_comm.
Qed.

Lemma count_votes_comm pv : forall v1 v2,
  count_votes (count_votes pv v1) v2 = count_votes (count_votes pv v2) v1.
Proof.
  induction pv as [|r pv IH]; intros [|o1 v1] [|o2 v2];
    cbn [scrutinizer.count_votes]; try reflexivity.
  now rewrite count_vote_comm, IH.
Qed.

(** The votes the tally counts for an envelope, if it counts any. *)
Local Abbreviation counted_votes processID p :=
  (fun e : string =>
     match State_Envelope processID e with
     | Ret v => match envelope_votePackage p v with
                | Ok vp => Some (Votes vp)
                | _ => None
                end
     | Fail _ => None
     end).

Local Abbreviation count_envelope processID p :=
  (fun (pv : ProcessVotes) (e : string) =>
     from_option (count_votes pv) pv (counted_votes processID p e)).

Lemma computeNonLiveResults_step_fits processID p pv e :
  well_shaped pv -> envelope_fits processID p e ->
  computeNonLiveResults_step processID p (Ok pv) e
  = Ok (count_envelope processID p pv e).
Proof.
  intros Hshape Hfits. unfold scrutinizer.envelope_fits in Hfits.
  unfold scrutinizer.computeNonLiveResults_step. cbn [mbind res_bind bind].
  destruct (State_Envelope processID e) as [v|]; [|reflexivity].
  destruct (scrutinizer.envelope_votePackage _ _ _ _ p v) as [vp|m|m];
    [|reflexivity|contradiction].
  destruct Hfits as [Hq Hopts]. cbn [from_option].
  now apply (tally_well_shaped MaxQuestions).
Qed.

Lemma count_envelope_shape processID p pv e :
  well_shaped pv -> well_shaped (count_envelope processID p pv e).
Proof.
  intros Hshape. cbv beta.
  destruct (State_Envelope processID e) as [v|]; [|exact Hshape].
  destruct (scrutinizer.envelope_votePackage _ _ _ _ p v) as [vp|m|m];
    cbn [from_option]; [|exact Hshape..].
  now apply (count_votes_shape MaxQuestions).
Qed.

Lemma computeNonLiveResults_fold_fits processID p es : forall pv,
  well_shaped pv -> Forall (envelope_fits processID p) es ->
  foldl (computeNonLiveResults_step processID p) (Ok pv) es
  = Ok (foldl (count_envelope processID p) pv es).
Proof.
  induction es as [|e es IH]; intros pv Hshape Hfits; [reflexivity|].
  apply Forall_cons in Hfits as [He Hes]. cbn [foldl].
  rewrite computeNonLiveResults_step_fits by assumption.
  apply IH; [now apply count_envelope_shape|exact Hes].
Qed.

Lemma count_envelope_comm processID p pv e1 e2 :
  count_envelope processID p (count_envelope processID p pv e1) e2
  = count_envelope processID p (count_envelope processID p pv e2) e1.
Proof.
  cbv beta.
  destruct (State_Envelope processID e1) as [v1|];
    [destruct (scrutinizer.envelope_votePackage _ _ _ _ p v1) as [vp1|m|m]|];
    (destruct (State_Envelope processID e2) as [v2|];
     [destruct (scrutinizer.envelope_votePackage _ _ _ _ p v2) as [vp2|m2|m2]|]);
    cbn [from_option]; try reflexivity. apply count_votes_comm.
Qed.

Lemma count_envelope_permutation processID p es es' :
  es ≡ₚ es' ->
  forall pv, foldl (count_envelope processID p) pv es
             = foldl (count_envelope processID p) pv es'.
Proof.
  induction 1 as [|e es es' _ IH|e1 e2 es|es1 es2 es3 _ IH1 _ IH2]; intros pv.
  - reflexivity.
  - cbn [foldl]. apply IH.
  - cbn [foldl]. now rewrite count_envelope_comm.
  - now rewrite IH1, IH2.
Qed.

Lemma emptyProcess_well_shaped :
  well_shaped (emptyProcess MaxQuestions MaxOptions).
Proof.
  unfold scrutinizer.well_shaped, emptyProcess. split.
  - apply length_replicate.
  - apply Forall_replicate, length_replicate.
Qed.

(** X26. The end-of-process tally does not depend on the order in which the
    envelopes are listed: when every envelope of the list is missing,
    unreadable, or a vote package of at most [MaxQuestions] entries
    whose options are counted or dropped, [computeNonLiveResults] over
    a list and over a permutation of it return the same result. *)
Theorem computeNonLiveResults_order_independent (processID : string)
    (p : Process) :
  State_EnvelopeList processID ≡ₚ State_EnvelopeList' processID ->
  Forall (envelope_fits processID p) (State_EnvelopeList processID) ->
  computeNonLiveResults processID p = computeNonLiveResults' processID p /\
  is_Ok (foldl (computeNonLiveResults_step processID p)
           (Ok (emptyProcess MaxQuestions MaxOptions))
           (State_EnvelopeList processID)).
Proof.
  intros Hperm Hfits.
  assert (Hfits' : Forall (envelope_fits processID p)
                     (State_EnvelopeList' processID))
    by (now rewrite <- Hperm).
  unfold scrutinizer.computeNonLiveResults.
  rewrite !computeNonLiveResults_fold_fits
    by (first [apply emptyProcess_well_shaped | assumption]).
  split; [|eexists; reflexivity].
  now rewrite (count_envelope_permutation processID p _ _ Hperm).
Qed.

(** *** Key indexes beyond the keys of the process *)

Lemma envelope_keys_out_of_range p indexes : forall acc,
  Forall (fun k => k < MaxKeyIndex) indexes ->
  Exists (fun k => k < 0 \/ Z.of_nat (length (EncryptionPrivateKeys p)) <= k)
    indexes ->
  envelope_keys p indexes acc = Panic "index out of range".
Proof.
  induction indexes as [|k rest IH]; intros acc Hlt Hbad; [inversion Hbad|].
  apply Forall_cons in Hlt as [Hk Hrest]. cbn [scrutinizer.envelope_keys].
  replace (MaxKeyIndex <=? k) with false by (symmetry; apply Z.leb_gt; lia).
  unfold index_string.
  destruct (Z.ltb_spec k 0) as [Hneg|Hpos]; [reflexivity|].
  destruct (EncryptionPrivateKeys p !! Z.to_nat k) as [key|] eqn:Hkey;
    [|reflexivity].
  cbn [mbind res_bind bind]. apply IH; [exact Hrest|].
  apply Exists_cons in Hbad as [[Hbad|Hbad]|Hbad]; [lia| |exact Hbad].
  apply lookup_lt_Some in Hkey. lia.
Qed.

Lemma tally_not_Err votes : forall pv question m,
  tally pv question votes <> Err m.
Proof.
  induction votes as [|opt rest IH]; intros pv question m; [discriminate|].
  cbn [scrutinizer.tally]. destruct (MaxOptions <? opt); [apply IH|].
  destruct (pv !! question) as [r|]; [|discriminate].
  destruct (opt <? 0); [discriminate|].
  destruct (r !! Z.to_nat opt); [apply IH|discriminate].
Qed.

Lemma computeNonLiveResults_fold_Panic processID p es m :
  foldl (computeNonLiveResults_step processID p) (Panic m) es = Panic m.
Proof. induction es as [|e es IH]; [reflexivity|exact IH]. Qed.

Lemma computeNonLiveResults_fold_panics processID p e es :
  (forall pv, exists m, computeNonLiveResults_step processID p (Ok pv) e = Panic m) ->
  e ∈ es ->
  forall pv, exists m,
    foldl (computeNonLiveResults_step processID p) (Ok pv) es = Panic m.
Proof.
  intros He. induction es as [|a es IH]; intros Hin pv; [inversion Hin|].
  cbn [foldl]. apply elem_of_cons in Hin as [<-|Hin].
  - destruct (He pv) as [m ->]. exists m.
    apply computeNonLiveResults_fold_Panic.
  - destruct (computeNonLiveResults_step processID p (Ok pv) a)
      as [pv'|m|m] eqn:Hstep.
    + now apply IH.
    + exfalso. unfold scrutinizer.computeNonLiveResults_step in Hstep.
      cbn [mbind res_bind bind] in Hstep.
      destruct (State_Envelope processID a) as [v|]; [|discriminate].
      destruct (scrutinizer.envelope_votePackage _ _ _ _ p v) as [vp|m'|m'];
        [|discriminate..].
      now apply tally_not_Err in Hstep.
    + exists m. apply computeNonLiveResults_fold_Panic.
Qed.

(** X27. The guard of the key indexes compares lengths only: for an
    encrypted process, an envelope with no more key indexes than the
    process has private keys, all below [MaxKeyIndex], one of them
    negative or beyond the private keys, makes [computeNonLiveResults]
    panic on the index instead of skipping the envelope. *)
Theorem computeNonLiveResults_key_index_panics (processID : string)
    (p : Process) (e : string) (v : Vote) :
  IsEncrypted p = true ->
  e ∈ State_EnvelopeList processID ->
  State_Envelope processID e = Ret v ->
  (length (EncryptionKeyIndexes v) <= length (EncryptionPrivateKeys p))%nat ->
  Forall (fun k => k < MaxKeyIndex) (EncryptionKeyIndexes v) ->
  Exists (fun k => k < 0 \/ Z.of_nat (length (EncryptionPrivateKeys p)) <= k)
    (EncryptionKeyIndexes v) ->
  envelope_votePackage p v = Panic "index out of range" /\
  exists m, computeNonLiveResults processID p = Panic m.
Proof.
  intros Henc Hin He Hlen Hlt Hbad.
  assert (Hvp : envelope_votePackage p v = Panic "index out of range").
  { unfold scrutinizer.envelope_votePackage. rewrite Henc.
    replace (length (EncryptionPrivateKeys p) <? length (EncryptionKeyIndexes v))%nat
      with false by (symmetry; apply Nat.ltb_ge; lia).
    now rewrite envelope_keys_out_of_range. }
  split; [exact Hvp|].
  destruct (computeNonLiveResults_fold_panics processID p e
              (State_EnvelopeList processID)) with
    (pv := emptyProcess MaxQuestions MaxOptions) as [m Hm]; [|exact Hin|].
  - intros pv. exists "index out of range".
    unfold scrutinizer.computeNonLiveResults_step.
    cbn [mbind res_bind bind]. now rewrite He, Hvp.
  - exists m. unfold scrutinizer.computeNonLiveResults. now rewrite Hm.
Qed.

(** *** What a vote package can do to the tally *)

Lemma decrypt_in_order_no_panic keys : forall rawVote m,
  scrutinizer.decrypt_in_order nacl_DecodePrivate nacl_Decrypt keys rawVote
  <> Panic m.
Proof.
  induction keys as [|key keys IH]; intros rawVote m; [discriminate|].
  cbn [scrutinizer.decrypt_in_order].
  destruct (nacl_DecodePrivate key) as [priv|]; [|discriminate].
  destruct (nacl_Decrypt priv rawVote) as [raw'|]; [apply IH|discriminate].
Qed.

Lemma unmarshalVote_no_panic votePackage keys m :
  unmarshalVote votePackage keys <> Panic m.
Proof.
  rewrite (unmarshalVote_reverse nacl_DecodePrivate nacl_Decrypt json_Unmarshal).
  destruct (scrutinizer.decrypt_in_order _ _ _ _) as [raw|m'|m'] eqn:Hdec;
    cbn [mbind res_bind bind]; [|discriminate|].
  - unfold scrutinizer.parse_vote. now destruct (json_Unmarshal raw).
  - now apply decrypt_in_order_no_panic in Hdec.
Qed.

(** X28. After the results of a live process are computed, its votes are
    refused: [ComputeResult] deletes the live tally, so that, when the
    key of the results is not the key of the live tally, a later
    [addLiveResultsVote] for the process returns an error and leaves
    the storage, the results included, as it is. *)
Theorem ComputeResult_then_addLiveResultsVote (s s' : Storage)
    (processID : string) (envelope : Vote) :
  isLiveResultsProcess processID = Ret true ->
  ComputeResult s processID = (s', Ok tt) ->
  encode "results" processID <> encode "liveProcess" processID ->
  ProcessID envelope = Some processID ->
  s' !! encode "liveProcess" processID = None /\
  fst (addLiveResultsVote s' envelope) = s' /\
  is_Err (snd (addLiveResultsVote s' envelope)).
Proof.
  intros Hlive Hcompute Hkeys Hpid.
  assert (Hgone : s' !! encode "liveProcess" processID = None).
  { unfold scrutinizer.ComputeResult in Hcompute. rewrite Hlive in Hcompute.
    destruct (State_Process processID) as [p|]; [|discriminate].
    destruct (Storage_Get s _) as [?|[|?]]; try discriminate.
    destruct (scrutinizer.computeLiveResults _ _ _ _ s processID)
      as [pv|m|m]; try discriminate.
    destruct (MarshalBinaryBare pv) as [result|]; [|discriminate].
    injection Hcompute as <-.
    rewrite lookup_insert_ne by exact Hkeys. apply lookup_delete_eq. }
  split; [exact Hgone|].
  unfold scrutinizer.addLiveResultsVote. rewrite Hpid.
  destruct (scrutinizer.unmarshalVote _ _ _ _ _) as [vote|m|m] eqn:Hvote.
  - destruct (MaxQuestions <? _); [split; [reflexivity|eexists; reflexivity]|].
    unfold Storage_Get. rewrite Hgone.
    split; [reflexivity|eexists; reflexivity].
  - split; [reflexivity|eexists; reflexivity].
  - now apply unmarshalVote_no_panic in Hvote.
Qed.

(** X29. [unmarshalVote] never panics: its loop indexes [keys[i]] for [i]
    below [len(keys)] only, so every call returns a vote package or an
    error, whatever the package and the keys. *)
Theorem unmarshalVote_never_panics (votePackage : list byte)
    (keys : list string) :
  is_Ok (unmarshalVote votePackage keys) \/
  is_Err (unmarshalVote votePackage keys).
Proof.
  destruct (unmarshalVote votePackage keys) as [vote|m|m] eqn:H.
  - left. now exists vote.
  - right. now exists m.
  - now apply unmarshalVote_no_panic in H.
Qed.

End scrutinizer_results.

(** *** The properties on sample values *)

Lemma pruneVoteResult_cuts_only_zeros_witness :
  scrutinizer.pruneVoteResult 3 3 [[0; 0; 0]; [0; 5; 0]; [0; 0; 0]]
    = Ok (scrutinizer.pruned [[0; 0; 0]; [0; 5; 0]; [0; 0; 0]]) /\
  (forall q o c,
     scrutinizer.counter
       (scrutinizer.pruned [[0; 0; 0]; [0; 5; 0]; [0; 0; 0]]) q o = Some c ->
     scrutinizer.counter [[0; 0; 0]; [0; 5; 0]; [0; 0; 0]] q o = Some c) /\
  (forall q o c,
     scrutinizer.counter [[0; 0; 0]; [0; 5; 0]; [0; 0; 0]] q o = Some c ->
     c <> 0 ->
     scrutinizer.counter
       (scrutinizer.pruned [[0; 0; 0]; [0; 5; 0]; [0; 0; 0]]) q o = Some c).
Proof.
  apply (pruneVoteResult_cuts_only_zeros 3 3
           [[0; 0; 0]; [0; 5; 0]; [0; 0; 0]]); [lia|lia|].
  split; [reflexivity|repeat constructor].
Defined.

Lemma toy_checked_codec (pv : scrutinizer.ProcessVotes) (data : list byte) :
  samples.toy_checked_MarshalVotes pv = Ret data ->
  samples.toy_UnmarshalVotes data = Ret pv.
Proof.
  unfold samples.toy_checked_MarshalVotes.
  destruct (samples.toy_UnmarshalVotes (byte_of_Z <$> mjoin pv))
    as [pv'|] eqn:Hdec; [|discriminate].
  destruct (bool_decide (pv' = pv)) eqn:Heq; [|discriminate].
  apply bool_decide_eq_true in Heq. subst pv'. now intros [= <-].
Qed.

Lemma ComputeResult_then_VoteResult_witness :
  exists pv,
    scrutinizer.VoteResult 4 5 samples.toy_UnmarshalVotes
      samples.toy_plain_Process samples.toy_notLive samples.toy_encode
      samples.sample_plain_results "ab01" = Ok pv /\
    ((samples.toy_notLive "ab01" = Ret true /\
      scrutinizer.VoteResult 4 5 samples.toy_UnmarshalVotes
        samples.toy_plain_Process samples.toy_notLive samples.toy_encode
        ∅ "ab01" = Ok pv) \/
     (samples.toy_notLive "ab01" = Ret false /\
      scrutinizer.VoteResult 4 5 samples.toy_UnmarshalVotes
        samples.toy_plain_Process samples.toy_notLive samples.toy_encode
        ∅ "ab01" = Err scrutinizer.ErrNoResultsYet /\
      exists p,
        samples.toy_plain_Process "ab01" = Ret p /\
        scrutinizer.computeNonLiveResults 4 5 16 samples.toy_DecodePrivate
          samples.toy_Decrypt samples.toy_json_Unmarshal
          samples.toy_plain_EnvelopeList samples.toy_plain_Envelope "ab01" p
        = Ok pv)).
Proof.
  apply (ComputeResult_then_VoteResult 4 5 16 samples.toy_DecodePrivate
           samples.toy_Decrypt samples.toy_json_Unmarshal
           samples.toy_checked_MarshalVotes samples.toy_UnmarshalVotes
           samples.toy_plain_Process samples.toy_plain_EnvelopeList
           samples.toy_plain_Envelope samples.toy_notLive samples.toy_encode
           ∅ samples.sample_plain_results "ab01" toy_checked_codec).
  vm_compute. reflexivity.
Defined.

Lemma toy_encode_kinds (pid pid' : string) :
  samples.toy_encode "process" pid <> samples.toy_encode "liveProcess" pid' /\
  samples.toy_encode "process" pid <> samples.toy_encode "results" pid'.
Proof. split; discriminate. Qed.

Lemma addLiveResultsVote_not_in_results_witness :
  fst (scrutinizer.addLiveResultsVote 2 3 samples.toy_DecodePrivate
         samples.toy_Decrypt samples.toy_json_Unmarshal
         samples.toy_MarshalVotes samples.toy_UnmarshalVotes
         samples.toy_encode samples.sample_storage samples.sample_plain_vote)
    !! samples.toy_encode "liveProcess" "ab01"
  = samples.sample_storage !! samples.toy_encode "liveProcess" "ab01" /\
  scrutinizer.computeLiveResults 2 3 samples.toy_UnmarshalVotes
    samples.toy_encode
    (fst (scrutinizer.addLiveResultsVote 2 3 samples.toy_DecodePrivate
            samples.toy_Decrypt samples.toy_json_Unmarshal
            samples.toy_MarshalVotes samples.toy_UnmarshalVotes
            samples.toy_encode samples.sample_storage
            samples.sample_plain_vote)) "ab01"
  = scrutinizer.computeLiveResults 2 3 samples.toy_UnmarshalVotes
      samples.toy_encode samples.sample_storage "ab01" /\
  scrutinizer.VoteResult 2 3 samples.toy_UnmarshalVotes
    samples.toy_Scrutinizer_Process samples.toy_isLive samples.toy_encode
    (fst (scrutinizer.addLiveResultsVote 2 3 samples.toy_DecodePrivate
            samples.toy_Decrypt samples.toy_json_Unmarshal
            samples.toy_MarshalVotes samples.toy_UnmarshalVotes
            samples.toy_encode samples.sample_storage
            samples.sample_plain_vote)) "ab01"
  = scrutinizer.VoteResult 2 3 samples.toy_UnmarshalVotes
      samples.toy_Scrutinizer_Process samples.toy_isLive samples.toy_encode
      samples.sample_storage "ab01".
Proof.
  apply (addLiveResultsVote_not_in_results 2 3 samples.toy_DecodePrivate
           samples.toy_Decrypt samples.toy_json_Unmarshal
           samples.toy_MarshalVotes samples.toy_UnmarshalVotes
           samples.toy_Scrutinizer_Process samples.toy_isLive
           samples.toy_encode samples.sample_storage samples.sample_plain_vote
           "ab01" toy_encode_kinds).
Defined.

Lemma sample_envelopes_fit :
  Forall (scrutinizer.envelope_fits 4 5 16 samples.toy_DecodePrivate
            samples.toy_Decrypt samples.toy_json_Unmarshal
            samples.toy_plain_Envelope "ab01" samples.sample_plain_process)
    (samples.toy_plain_EnvelopeList "ab01").
Proof.
  repeat constructor; cbn; try lia;
    unfold scrutinizer.counted_or_dropped; lia.
Qed.

Lemma computeNonLiveResults_order_independent_witness :
  scrutinizer.computeNonLiveResults 4 5 16 samples.toy_DecodePrivate
    samples.toy_Decrypt samples.toy_json_Unmarshal
    samples.toy_plain_EnvelopeList samples.toy_plain_Envelope "ab01"
    samples.sample_plain_process
  = scrutinizer.computeNonLiveResults 4 5 16 samples.toy_DecodePrivate
      samples.toy_Decrypt samples.toy_json_Unmarshal
      samples.toy_plain_EnvelopeList' samples.toy_plain_Envelope "ab01"
      samples.sample_plain_process /\
  is_Ok (foldl (scrutinizer.computeNonLiveResults_step 5 16
                  samples.toy_DecodePrivate samples.toy_Decrypt
                  samples.toy_json_Unmarshal samples.toy_plain_Envelope
                  "ab01" samples.sample_plain_process)
           (Ok (scrutinizer.emptyProcess 4 5))
           (samples.toy_plain_EnvelopeList "ab01")).
Proof.
  apply (computeNonLiveResults_order_independent 4 5 16
           samples.toy_DecodePrivate samples.toy_Decrypt
           samples.toy_json_Unmarshal samples.toy_plain_EnvelopeList
           samples.toy_plain_EnvelopeList' samples.toy_plain_Envelope "ab01"
           samples.sample_plain_process).
  - symmetry. apply (Permutation_cons_append ["a"; "b"] "c").
  - apply sample_envelopes_fit.
Defined.

Lemma computeNonLiveResults_key_index_panics_witness :
  scrutinizer.envelope_votePackage 16 samples.toy_DecodePrivate
    samples.toy_Decrypt samples.toy_json_Unmarshal
    samples.sample_encrypted_process samples.sample_bad_index_vote
  = Panic "index out of range" /\
  exists m,
    scrutinizer.computeNonLiveResults 4 5 16 samples.toy_DecodePrivate
      samples.toy_Decrypt samples.toy_json_Unmarshal samples.toy_EnvelopeList
      samples.toy_bad_Envelope "ab01" samples.sample_encrypted_process
    = Panic m.
Proof.
  apply (computeNonLiveResults_key_index_panics 4 5 16
           samples.toy_DecodePrivate samples.toy_Decrypt
           samples.toy_json_Unmarshal samples.toy_EnvelopeList
           samples.toy_bad_Envelope "ab01" samples.sample_encrypted_process
           "n1" samples.sample_bad_index_vote).
  - reflexivity.
  - apply list_elem_of_singleton. reflexivity.
  - reflexivity.
  - cbn. lia.
  - repeat constructor.
  - constructor. right. cbn. lia.
Defined.

Lemma ComputeResult_then_addLiveResultsVote_witness :
  samples.sample_live_computed !! samples.toy_encode "liveProcess" "ab01"
    = None /\
  fst (scrutinizer.addLiveResultsVote 2 3 samples.toy_DecodePrivate
         samples.toy_Decrypt samples.toy_json_Unmarshal
         samples.toy_MarshalVotes samples.toy_UnmarshalVotes
         samples.toy_encode samples.sample_live_computed
         samples.sample_plain_vote)
    = samples.sample_live_computed /\
  is_Err
    (snd (scrutinizer.addLiveResultsVote 2 3 samples.toy_DecodePrivate
            samples.toy_Decrypt samples.toy_json_Unmarshal
            samples.toy_MarshalVotes samples.toy_UnmarshalVotes
            samples.toy_encode samples.sample_live_computed
            samples.sample_plain_vote)).
Proof.
  apply (ComputeResult_then_addLiveResultsVote 2 3 4 samples.toy_DecodePrivate
           samples.toy_Decrypt samples.toy_json_Unmarshal
           samples.toy_MarshalVotes samples.toy_UnmarshalVotes
           samples.toy_Scrutinizer_Process samples.toy_EnvelopeList
           samples.toy_Envelope samples.toy_isLive samples.toy_encode
           samples.sample_storage samples.sample_live_computed "ab01"
           samples.sample_plain_vote).
  - reflexivity.
  - vm_compute. reflexivity.
  - discriminate.
  - reflexivity.
Defined.
